(** * The category/item store of the to-do list application and its undo record

    A shallow embedding of the state engine of [src/App.tsx]: the store of
    categories and items, the handlers that the panels call, the single
    pending [UndoAction], and the interpreter that applies the structured
    reply of the hosted model.

    Conventions of the embedding.
    - The component state ([useState] / [useLocalStorage] cells and the two
      refs) is the record [State]; a handler is a function on [State].
    - A handler runs against the state it was rendered with: the values it
      closes over ([categories], [activeCategoryId], [activeCategory]) and
      the [prev] argument of its functional updaters are read from the same
      [State].  No event is interleaved between a handler and the commit of
      its updates.
    - [handleSendMessage] is asynchronous.  It is given as one step, for the
      case in which nothing updates the store between the call and the
      reply, and in two parts, [beforeAwait] and [afterAwait], where the
      render that sent the message and the store that receives the reply
      are two states.
    - An array that the code compares by identity is named by a number.
    - [Date.now()] and [Math.random()] are inputs of the handlers that call
      them.
    - Where JavaScript would store [undefined] in a field or array slot that
      the TypeScript declarations type as a value, the handler returns
      [None]: the run leaves the typed store. *)

From Stdlib Require Import List String Ascii ZArith NArith Bool Lia.
From Stdlib Require Import Permutation DecimalString.
Import ListNotations.

Local Open Scope string_scope.
Local Open Scope list_scope.

(** ** Data model ([types.ts]) *)

Module Item.
(** [categoryName] and [newContent] are not part of the declared interface:
    the AI [add] action spreads the whole reply item into the stored
    object, so these two reply properties travel with it. *)
Record t : Type := mk
  { id : string;
    content : string;
    completed : bool;
    dueDate : option string;
    notes : option string;
    categoryName : option string;
    newContent : option string }.

Definition with_completed (b : bool) (i : t) : t :=
  mk (id i) (content i) b (dueDate i) (notes i) (categoryName i) (newContent i).

Definition with_notes (n : option string) (i : t) : t :=
  mk (id i) (content i) (completed i) (dueDate i) n (categoryName i) (newContent i).
End Item.

Module Category.
(** [icon] is optional here although the interface declares a string: the
    AI [create_category] action stores the reply's icon as it comes, and
    the response schema leaves it optional.  No handler reads it. *)
Record t : Type := mk
  { id : string;
    name : string;
    icon : option string;
    items : list Item.t }.

Definition with_items (l : list Item.t) (c : t) : t :=
  mk (id c) (name c) (icon c) l.

Definition with_name (n : string) (c : t) : t :=
  mk (id c) n (icon c) (items c).
End Category.

Inductive Sender : Type := user | ai.

Record ChatMessage : Type := mkChatMessage
  { msg_id : string; text : string; sender : Sender }.

Inductive UndoAction : Type :=
| ITEM_ADD (categoryId itemId : string)
| ITEM_DELETE (categoryId : string) (item : Item.t) (index : Z)
| ITEM_TOGGLE (categoryId itemId : string)
| ITEM_NOTES_UPDATE (categoryId itemId prevNotes : string)
| ITEM_DRAG (categoryId : string) (oldIndex newIndex : Z)
| CATEGORY_ADD (categoryId : string)
| CATEGORY_DELETE (category : Category.t) (index : Z).

(** The component state.  [confirmAction] keeps the message of the pending
    confirmation only: its [onConfirm] closure is never built, since no
    handler calls [setConfirmAction] with an object.  [undoTimer] is the
    time in milliseconds left on the timeout armed by the expiry effect.
    [aiRef] and [chatRef] tell whether the two refs hold an object. *)
Record State : Type := mkState
  { categories : list Category.t;
    activeCategoryId : option string;
    selectedItemId : option string;
    messages : list ChatMessage;
    isLoadingAI : bool;
    confirmAction : option string;
    undoAction : option UndoAction;
    undoTimer : option N;
    aiRef : bool;
    chatRef : bool }.

(** ** JavaScript array and string primitives *)

(** [`prefix-${n}`] for a non-negative integer [n]. *)
Definition template (prefix : string) (n : N) : string :=
  (prefix ++ NilZero.string_of_uint (N.to_uint n))%string.
Arguments template : simpl never.

(** [Array.prototype.findIndex]: [-1] when no element satisfies [p]. *)
Fixpoint findIndex_from {A : Type} (p : A -> bool) (l : list A) (k : Z) : Z :=
  match l with
  | [] => (-1)%Z
  | x :: l' => if p x then k else findIndex_from p l' (k + 1)%Z
  end.

Definition findIndex {A : Type} (p : A -> bool) (l : list A) : Z :=
  findIndex_from p l 0%Z.

(** The start position [splice] derives from its first argument: a negative
    [start] counts from the end, and the result is clamped to [0..len]. *)
Definition relIndex (len : nat) (start : Z) : nat :=
  if (start <? 0)%Z
  then Z.to_nat (Z.max (Z.of_nat len + start) 0)
  else Z.to_nat (Z.min start (Z.of_nat len)).

(** [array.splice(start, 0, x)] as the array it leaves behind. *)
Definition splice_insert {A : Type} (start : Z) (x : A) (l : list A) : list A :=
  let k := relIndex (List.length l) start in
  firstn k l ++ x :: skipn k l.

(** [array.splice(start, 1)]: the removed element, if any, and the rest. *)
Definition splice_remove {A : Type} (start : Z) (l : list A) : option A * list A :=
  let k := relIndex (List.length l) start in
  (nth_error l k, firstn k l ++ skipn (S k) l).

(** [arrayMove] of [@dnd-kit/sortable]:
<<
    const newArray = array.slice();
    newArray.splice(to < 0 ? newArray.length + to : to, 0,
                    newArray.splice(from, 1)[0]);
    return newArray;
>>
    The first argument of the outer [splice] is evaluated before the inner
    [splice] shortens the array.  When the inner [splice] removes nothing,
    JavaScript inserts [undefined]; the embedding answers [None].
    [wrapIndex] is [to < 0 ? newArray.length + to : to]. *)
Definition wrapIndex (len : nat) (i : Z) : Z :=
  if (i <? 0)%Z then (Z.of_nat len + i)%Z else i.

Definition arrayMove {A : Type} (array : list A) (from to : Z) : option (list A) :=
  let target := wrapIndex (List.length array) to in
  match splice_remove from array with
  | (Some x, rest) => Some (splice_insert target x rest)
  | (None, _) => None
  end.

(** The values [findIndex] can return on an array of length [len]. *)
Definition position (len : nat) (i : Z) : Prop :=
  (-1 <= i < Z.of_nat len)%Z.

Fixpoint mapM {A B : Type} (f : A -> option B) (l : list A) : option (list B) :=
  match l with
  | [] => Some []
  | x :: l' =>
      match f x with
      | None => None
      | Some y =>
          match mapM f l' with
          | None => None
          | Some ys => Some (y :: ys)
          end
      end
  end.

(** [s || ''] on an optional string. *)
Definition orEmpty (s : option string) : string :=
  match s with
  | Some v => v
  | None => ""
  end.

(** ** State setters *)

Definition setCategories (f : list Category.t -> list Category.t) (s : State) : State :=
  mkState (f (categories s)) (activeCategoryId s) (selectedItemId s) (messages s)
          (isLoadingAI s) (confirmAction s) (undoAction s) (undoTimer s)
          (aiRef s) (chatRef s).

Definition setActiveCategoryId (v : option string) (s : State) : State :=
  mkState (categories s) v (selectedItemId s) (messages s)
          (isLoadingAI s) (confirmAction s) (undoAction s) (undoTimer s)
          (aiRef s) (chatRef s).

Definition setSelectedItemId (v : option string) (s : State) : State :=
  mkState (categories s) (activeCategoryId s) v (messages s)
          (isLoadingAI s) (confirmAction s) (undoAction s) (undoTimer s)
          (aiRef s) (chatRef s).

Definition setMessages (f : list ChatMessage -> list ChatMessage) (s : State) : State :=
  mkState (categories s) (activeCategoryId s) (selectedItemId s) (f (messages s))
          (isLoadingAI s) (confirmAction s) (undoAction s) (undoTimer s)
          (aiRef s) (chatRef s).

Definition setIsLoadingAI (b : bool) (s : State) : State :=
  mkState (categories s) (activeCategoryId s) (selectedItemId s) (messages s)
          b (confirmAction s) (undoAction s) (undoTimer s)
          (aiRef s) (chatRef s).

Definition setConfirmAction (v : option string) (s : State) : State :=
  mkState (categories s) (activeCategoryId s) (selectedItemId s) (messages s)
          (isLoadingAI s) v (undoAction s) (undoTimer s)
          (aiRef s) (chatRef s).

Definition setChatRef (b : bool) (s : State) : State :=
  mkState (categories s) (activeCategoryId s) (selectedItemId s) (messages s)
          (isLoadingAI s) (confirmAction s) (undoAction s) (undoTimer s)
          (aiRef s) b.

(** Delay of the timeout of the undo expiry effect, in milliseconds. *)
Definition UNDO_EXPIRY : N := 5100.

(** [setUndoAction] together with the expiry effect that depends on
    [undoAction]:
<<
    useEffect(() => {
        if (undoAction) {
            const timer = setTimeout(() => setUndoAction(null), 5100);
            return () => clearTimeout(timer);
        }
    }, [undoAction]);
>>
    Every handler passes either [null] or a fresh object literal, so each
    call changes the dependency: the clean-up clears the timeout of the
    previous record and a record that is not [null] arms a new one. *)
Definition setUndoAction (a : option UndoAction) (s : State) : State :=
  mkState (categories s) (activeCategoryId s) (selectedItemId s) (messages s)
          (isLoadingAI s) (confirmAction s) a
          (match a with Some _ => Some UNDO_EXPIRY | None => None end)
          (aiRef s) (chatRef s).

(** The passing of [ms] milliseconds with no event: the pending timeout, if
    it falls due, runs its callback [() => setUndoAction(null)]. *)
Definition elapse (ms : N) (s : State) : State :=
  match undoTimer s with
  | None => s
  | Some remaining =>
      if (remaining <=? ms)%N then setUndoAction None s
      else mkState (categories s) (activeCategoryId s) (selectedItemId s) (messages s)
                   (isLoadingAI s) (confirmAction s) (undoAction s)
                   (Some (remaining - ms)%N)
                   (aiRef s) (chatRef s)
  end.

(** [activeCategoryId === i] for a string [i]. *)
Definition strictEq (v : option string) (i : string) : bool :=
  match v with
  | Some a => String.eqb a i
  | None => false
  end.

(** [c.id === activeCategoryId] *)
Definition idIs (v : option string) (c : Category.t) : bool :=
  match v with
  | Some i => String.eqb (Category.id c) i
  | None => false
  end.

(** [activeCategory], the memo
    [categories.find(c => c.id === activeCategoryId) || null]. *)
Definition activeCategory (s : State) : option Category.t :=
  find (idIs (activeCategoryId s)) (categories s).

(** [l.length > 0 ? l[0].id : null] *)
Definition firstId (l : list Category.t) : option string :=
  match l with
  | [] => None
  | c :: _ => Some (Category.id c)
  end.

(** [!activeCategoryId]: the empty string is falsy, like [null]. *)
Definition falsy (v : option string) : bool :=
  match v with
  | None => true
  | Some i => String.eqb i ""
  end.

(** The reselection effect:
<<
    if (!activeCategoryId || !categories.some(c => c.id === activeCategoryId))
        setActiveCategoryId(categories.length > 0 ? categories[0].id : null);
>> *)
Definition reselectEffect (s : State) : State :=
  if falsy (activeCategoryId s) || negb (existsb (idIs (activeCategoryId s)) (categories s))
  then setActiveCategoryId (firstId (categories s)) s
  else s.

(** A functional updater that can leave the typed store. *)
Definition setCategoriesM (f : list Category.t -> option (list Category.t))
    (s : State) : option State :=
  match f (categories s) with
  | Some l => Some (setCategories (fun _ => l) s)
  | None => None
  end.

(** ** Handlers of the panels *)

Definition catIdIs (categoryId : string) (c : Category.t) : bool :=
  String.eqb (Category.id c) categoryId.

Definition itemIdIs (itemId : string) (i : Item.t) : bool :=
  String.eqb (Item.id i) itemId.

(** [prev.map(c => c.id === categoryId ? { ...c, items: f(c.items) } : c)] *)
Definition mapItemsOf (categoryId : string) (f : list Item.t -> list Item.t)
    (prev : list Category.t) : list Category.t :=
  map (fun c => if catIdIs categoryId c
                then Category.with_items (f (Category.items c)) c
                else c) prev.

Definition handleAddCategory (name icon : string) (now : N) (s : State) : State :=
  let newCategory := Category.mk (template "cat-" now) name (Some icon) [] in
  let s := setCategories (fun prev => prev ++ [newCategory]) s in
  let s := setActiveCategoryId (Some (Category.id newCategory)) s in
  setUndoAction (Some (CATEGORY_ADD (Category.id newCategory))) s.

Definition handleDeleteCategory (categoryId : string) (s : State) : State :=
  match find (catIdIs categoryId) (categories s) with
  | None => s
  | Some categoryToDelete =>
      let categoryIndex := findIndex (catIdIs categoryId) (categories s) in
      let s1 := setCategories (filter (fun c => negb (catIdIs categoryId c))) s in
      let s2 :=
        if strictEq (activeCategoryId s) categoryId
        then
          let remainingCategories :=
            filter (fun c => negb (catIdIs categoryId c)) (categories s) in
          setActiveCategoryId (firstId remainingCategories) s1
        else s1 in
      setUndoAction (Some (CATEGORY_DELETE categoryToDelete categoryIndex)) s2
  end.

Definition handleAddItem (categoryId content : string) (dueDate : option string)
    (now : N) (s : State) : State :=
  let newItem := Item.mk (template "item-" now) content false dueDate None None None in
  let s := setCategories
             (mapItemsOf categoryId (fun items => items ++ [newItem])) s in
  setUndoAction (Some (ITEM_ADD categoryId (Item.id newItem))) s.

Definition toggle (itemId : string) (i : Item.t) : Item.t :=
  if itemIdIs itemId i then Item.with_completed (negb (Item.completed i)) i else i.

Definition handleToggleItem (categoryId itemId : string) (s : State) : State :=
  let s := setCategories (mapItemsOf categoryId (map (toggle itemId))) s in
  setUndoAction (Some (ITEM_TOGGLE categoryId itemId)) s.

(** [deletedItem] and [itemIndex] as the handler computes them before it
    decides whether to mutate. *)
Definition lookupItem (categoryId itemId : string) (s : State)
    : option (Item.t * Z) :=
  match find (catIdIs categoryId) (categories s) with
  | None => None
  | Some category =>
      let itemIndex := findIndex (itemIdIs itemId) (Category.items category) in
      if (itemIndex =? -1)%Z then None
      else
        match nth_error (Category.items category) (Z.to_nat itemIndex) with
        | Some deletedItem => Some (deletedItem, itemIndex)
        | None => None
        end
  end.

Definition handleDeleteItem (categoryId itemId : string) (s : State) : State :=
  match lookupItem categoryId itemId s with
  | Some (deletedItem, itemIndex) =>
      let s := setCategories
                 (mapItemsOf categoryId
                    (filter (fun i => negb (itemIdIs itemId i)))) s in
      setUndoAction (Some (ITEM_DELETE categoryId deletedItem itemIndex)) s
  | None => s
  end.

Definition handleSelectItem (itemId : string) (s : State) : State :=
  setSelectedItemId
    (match selectedItemId s with
     | Some prev => if String.eqb prev itemId then None else Some itemId
     | None => Some itemId
     end) s.

Definition setNotes (itemId notes : string) (i : Item.t) : Item.t :=
  if itemIdIs itemId i then Item.with_notes (Some notes) i else i.

Definition handleUpdateItemNotes (categoryId itemId notes : string) (s : State)
    : State :=
  let prevNotes :=
    match find (catIdIs categoryId) (categories s) with
    | Some category =>
        match find (itemIdIs itemId) (Category.items category) with
        | Some item => orEmpty (Item.notes item)
        | None => ""
        end
    | None => ""
    end in
  let s := setCategories (mapItemsOf categoryId (map (setNotes itemId notes))) s in
  setUndoAction (Some (ITEM_NOTES_UPDATE categoryId itemId prevNotes)) s.

(** The part of a [DragEndEvent] the handler reads: [active.id] and, when
    the pointer is released over a sortable, [over.id]. *)
Record DragEndEvent : Type := mkDragEnd
  { active : string; over : option string }.

(** [prev.map(c => c.id === id ? { ...c, items: arrayMove(c.items, from, to) } : c)] *)
Definition moveIn (categoryId : option string) (from to : Z)
    (prev : list Category.t) : option (list Category.t) :=
  mapM (fun c => if idIs categoryId c
                 then option_map (fun l => Category.with_items l c)
                        (arrayMove (Category.items c) from to)
                 else Some c) prev.

Definition handleDragEnd (event : DragEndEvent) (s : State) : option State :=
  match over event with
  | None => Some s
  | Some overId =>
      if String.eqb (active event) overId then Some s
      else
        (* [activeCategory] is found by its id, so [activeCategoryId] is a
           string whenever it is not null *)
        match activeCategory s, activeCategoryId s with
        | Some activeCat, Some activeId =>
            let s1 := setSelectedItemId None s in
            let oldIndex :=
              findIndex (itemIdIs (active event)) (Category.items activeCat) in
            let newIndex :=
              findIndex (itemIdIs overId) (Category.items activeCat) in
            match setCategoriesM (moveIn (activeCategoryId s) oldIndex newIndex) s1 with
            | Some s2 =>
                Some (setUndoAction (Some (ITEM_DRAG activeId oldIndex newIndex)) s2)
            | None => None
            end
        | _, _ => Some s
        end
  end.

Definition handleUndo (s : State) : option State :=
  match undoAction s with
  | None => Some s
  | Some a =>
      let s' :=
        match a with
        | ITEM_ADD categoryId itemId =>
            Some (setCategories
                    (mapItemsOf categoryId
                       (filter (fun i => negb (itemIdIs itemId i)))) s)
        | ITEM_DELETE categoryId item index =>
            Some (setCategories
                    (mapItemsOf categoryId (splice_insert index item)) s)
        | ITEM_TOGGLE categoryId itemId =>
            Some (setCategories (mapItemsOf categoryId (map (toggle itemId))) s)
        | ITEM_NOTES_UPDATE categoryId itemId prevNotes =>
            Some (setCategories
                    (mapItemsOf categoryId (map (setNotes itemId prevNotes))) s)
        | ITEM_DRAG categoryId oldIndex newIndex =>
            setCategoriesM (moveIn (Some categoryId) newIndex oldIndex) s
        | CATEGORY_ADD categoryId =>
            Some (setCategories (filter (fun c => negb (catIdIs categoryId c))) s)
        | CATEGORY_DELETE category index =>
            Some (setCategories (splice_insert index category) s)
        end in
      option_map (setUndoAction None) s'
  end.

(** The store the application starts from when the browser storage is
    empty.  The two due dates are computed from the clock at load time:
    [tomorrow] and [today] stand for the two date strings. *)
Definition INITIAL_CATEGORIES (tomorrow today : string) : list Category.t :=
  [ Category.mk "cat-1" "Achats" (Some "ShoppingCart")
      [ Item.mk "item-1" "Lait" false None (Some "Lait entier bio") None None;
        Item.mk "item-2" "Pain" false None None None None ];
    Category.mk "cat-2" "À Faire" (Some "ListTodo")
      [ Item.mk "item-3" "Appeler le médecin" false (Some tomorrow) None None None;
        Item.mk "item-4" "Finir le rapport" true (Some today) None None None ];
    Category.mk "cat-3" "Films à voir" (Some "Clapperboard") [] ].

Definition initialState (tomorrow today : string) (hasKey : bool) : State :=
  mkState (INITIAL_CATEGORIES tomorrow today) (Some "cat-1") None [] false
          None None None hasKey false.

(** ** The operations that record an [UndoAction] *)

Inductive Op : Type :=
| AddItem (categoryId content : string) (dueDate : option string) (now : N)
| DeleteItem (categoryId itemId : string)
| ToggleItem (categoryId itemId : string)
| UpdateItemNotes (categoryId itemId notes : string)
| DragEnd (event : DragEndEvent)
| AddCategory (name icon : string) (now : N)
| DeleteCategory (categoryId : string).

Definition perform (op : Op) (s : State) : option State :=
  match op with
  | AddItem categoryId content dueDate now =>
      Some (handleAddItem categoryId content dueDate now s)
  | DeleteItem categoryId itemId => Some (handleDeleteItem categoryId itemId s)
  | ToggleItem categoryId itemId => Some (handleToggleItem categoryId itemId s)
  | UpdateItemNotes categoryId itemId notes =>
      Some (handleUpdateItemNotes categoryId itemId notes s)
  | DragEnd event => handleDragEnd event s
  | AddCategory name icon now => Some (handleAddCategory name icon now s)
  | DeleteCategory categoryId => Some (handleDeleteCategory categoryId s)
  end.

Definition isSome {A : Type} (o : option A) : bool :=
  match o with Some _ => true | None => false end.

(** The guard under which the handler reaches its [setUndoAction] call. *)
Definition records (op : Op) (s : State) : bool :=
  match op with
  | AddItem _ _ _ _ | ToggleItem _ _ | UpdateItemNotes _ _ _ | AddCategory _ _ _ => true
  | DeleteItem categoryId itemId => isSome (lookupItem categoryId itemId s)
  | DeleteCategory categoryId => isSome (find (catIdIs categoryId) (categories s))
  | DragEnd event =>
      match over event with
      | Some overId =>
          negb (String.eqb (active event) overId) && isSome (activeCategory s)
      | None => false
      end
  end.

(** ** Identifier uniqueness *)

Fixpoint distinct (l : list string) : bool :=
  match l with
  | [] => true
  | x :: l' => negb (existsb (String.eqb x) l') && distinct l'
  end.

Definition categoryIds (cats : list Category.t) : list string :=
  map Category.id cats.

Definition itemIds (c : Category.t) : list string :=
  map Item.id (Category.items c).

(** Identifiers unique within their scope: category ids across the store,
    item ids within their category. *)
Definition uniqueInScope (cats : list Category.t) : bool :=
  distinct (categoryIds cats) && forallb (fun c => distinct (itemIds c)) cats.

(** Item ids pairwise distinct across the whole store. *)
Definition allItemIds (cats : list Category.t) : list string :=
  flat_map itemIds cats.

Definition uniqueIds (cats : list Category.t) : bool :=
  distinct (categoryIds cats) && distinct (allItemIds cats).

(** The active category has items: the only place a drag can start. *)
Definition draggable (s : State) : bool :=
  match activeCategory s with
  | Some activeCat => negb (Nat.eqb (List.length (Category.items activeCat)) 0)
  | None => false
  end.

Definition hasNotes (i : Item.t) : bool := isSome (Item.notes i).

(** What an operation needs, beyond unique identifiers, for its undo record
    to restore the store: a generated id that is new in its scope; for a
    notes update, a target that already carries a notes string; for a drag,
    an active category that has items. *)
Definition restorable (op : Op) (s : State) : bool :=
  match op with
  | AddItem categoryId _ _ now =>
      forallb (fun c => negb (catIdIs categoryId c)
                        || negb (existsb (String.eqb (template "item-" now)) (itemIds c)))
              (categories s)
  | AddCategory _ _ now =>
      negb (existsb (String.eqb (template "cat-" now)) (categoryIds (categories s)))
  | UpdateItemNotes categoryId itemId _ =>
      forallb (fun c => negb (catIdIs categoryId c)
                        || forallb (fun i => negb (itemIdIs itemId i) || hasNotes i)
                             (Category.items c))
              (categories s)
  | DragEnd _ => draggable s
  | DeleteItem _ _ | ToggleItem _ _ | DeleteCategory _ => true
  end.

(** What [handleUndo] is expected to achieve from the state [s1] an
    operation left, with respect to the state [s] it started from. *)
Definition undone (s s1 : State) : Prop :=
  exists s2, handleUndo s1 = Some s2 /\
             categories s2 = categories s /\ undoAction s2 = None.

(** ** The structured reply of the model ([responseSchema]) *)

Module ReplyItem.
(** [content] and [categoryName] are required by the schema. *)
Record t : Type := mk
  { content : string;
    categoryName : string;
    completed : option bool;
    dueDate : option string;
    newContent : option string;
    notes : option string }.
End ReplyItem.

Module CategoryDetails.
Record t : Type := mk
  { name : option string;
    newName : option string;
    icon : option string;
    sourceName : option string;
    destinationName : option string }.
End CategoryDetails.

Module Filter.
Record t : Type := mk
  { categoryName : option string;
    completed : option bool }.
End Filter.

Module Result.
(** [action] and [response] are required by the schema. *)
Record t : Type := mk
  { action : string;
    items : option (list ReplyItem.t);
    category_details : option CategoryDetails.t;
    filter : option Filter.t;
    response : string }.
End Result.

(** What [chatRef.current.sendMessage] resolves to: the promise rejects, or
    it yields a response whose [text] may be [undefined]. *)
Inductive Response : Type :=
| Rejected
| Answer (text : option string).

(** Clock and random readings consumed while one chat message is handled:
    [Date.now()] for the user message, for the answering message (mock,
    reply or apology), for a created category, and [Date.now()] with the printed [Math.random()] for the
    [k]-th reply item of an [add] action. *)
Record Readings : Type := mkReadings
  { now_user : N;
    now_reply : N;
    now_category : N;
    item_stamp : nat -> N * string }.

(** Result of running the [switch] of [handleSendMessage]. *)
Inductive Outcome (A : Type) : Type :=
| Done (a : A)
| Thrown            (* a TypeError reaches the [catch] block *)
| Untyped.          (* [undefined] is stored where the types want a value *)
Arguments Done {A} a.
Arguments Thrown {A}.
Arguments Untyped {A}.

(** Apply [f] to the first element that satisfies [p]: the effect of
    mutating the object that [Array.prototype.find] returned. *)
Fixpoint updFirst {A : Type} (p : A -> bool) (f : A -> A) (l : list A) : list A :=
  match l with
  | [] => []
  | x :: l' => if p x then f x :: l' else x :: updFirst p f l'
  end.

(** Keys of [ICON_MAP] ([components/icons.tsx]). *)
Definition ICON_MAP : list string :=
  ["ShoppingCart"; "ListTodo"; "Clapperboard"; "Music"; "FileText"; "Default"].

(** [getIcon(name)] is [ICON_MAP[name] || ICON_MAP.Default]; the component
    is named by its key.  It is never [undefined]. *)
Definition getIcon (name : option string) : string :=
  match name with
  | Some n => if existsb (String.eqb n) ICON_MAP then n else "Default"
  | None => "Default"
  end.

(** Truthiness of a component function. *)
Definition componentTruthy (component : string) : bool := true.

(** [v] is null or the id of a category of [cats]. *)
Definition refersTo (v : option string) (cats : list Category.t) : Prop :=
  match v with
  | None => True
  | Some i => In i (categoryIds cats)
  end.

(** ** The notes field of an item card ([components/ItemCard.tsx]) *)

(** [notesContent !== item.notes] *)
Definition notesDiffer (notesContent : string) (notes : option string) : bool :=
  match notes with
  | Some n => negb (String.eqb notesContent n)
  | None => true
  end.

(** [handleNotesBlur] of the card of [item], shown in the panel of the
    category [categoryId]; [onUpdateNotes] is wired by the item list and
    [App] to [handleUpdateItemNotes(activeCategory.id, item.id, notes)]. *)
Definition handleNotesBlur (categoryId : string) (item : Item.t)
    (notesContent : string) (s : State) : State :=
  if notesDiffer notesContent (Item.notes item)
  then handleUpdateItemNotes categoryId (Item.id item) notesContent s
  else s.

(** ** The context sent to the model ([getSystemInstruction]) *)

Module ListSummary.
Record t : Type := mk
  { categoryName : string;
    itemCount : nat;
    items : list string }.
End ListSummary.

Module PromptContext.
Record t : Type := mk
  { activeCategory : string;
    allCategories : list string;
    lists : list ListSummary.t }.
End PromptContext.

(** The [context] object of [getSystemInstruction]; the instruction text
    interpolates it into a fixed template. *)
Definition promptContext (categories : list Category.t)
    (activeCategoryId : option string) : PromptContext.t :=
  let activeCategory := find (idIs activeCategoryId) categories in
  PromptContext.mk
    (match activeCategory with
     | Some c => Category.name c
     | None => "Aucune"
     end)
    (map Category.name categories)
    (map (fun c =>
            ListSummary.mk (Category.name c)
                           (List.length (Category.items c))
                           (map Item.content (firstn 3 (Category.items c))))
         categories).

(** ** The voices of the chat panel ([useSpeech]) *)

Module Voice.
(** The two properties of a [SpeechSynthesisVoice] that the panel reads. *)
Record t : Type := mk { name : string; lang : string }.
End Voice.

Module VoiceOption.
Record t : Type := mk { voice : Voice.t; name : string; lang : string }.
End VoiceOption.

Record SpeechState : Type := mkSpeechState
  { voices : list VoiceOption.t;
    selectedVoice : option Voice.t }.

Definition isFrench (v : Voice.t) : bool := String.prefix "fr" (Voice.lang v).

(** [populateVoices], with the result of [speechSynthesis.getVoices()]. *)
Definition populateVoices (availableVoices : list Voice.t) (st : SpeechState)
    : SpeechState :=
  match availableVoices with
  | [] => st
  | _ :: _ =>
      let voiceOptions :=
        map (fun v => VoiceOption.mk v (Voice.name v) (Voice.lang v))
            (filter isFrench availableVoices) in
      let keep :=
        match selectedVoice st with
        | None => false
        | Some selected =>
            existsb (fun v => String.eqb (VoiceOption.name v) (Voice.name selected))
                    voiceOptions
        end in
      if negb keep
      then
        let defaultVoice :=
          match find (fun v => String.eqb (VoiceOption.lang v) "fr-FR") voiceOptions with
          | Some v => Some v
          | None => hd_error voiceOptions
          end in
        mkSpeechState voiceOptions (option_map VoiceOption.voice defaultVoice)
      else mkSpeechState voiceOptions (selectedVoice st)
  end.

(** ** The item list panel ([components/ItemListPanel.tsx]) *)

Record PanelState : Type := mkPanelState
  { newItemContent : string;
    newItemDueDate : string;
    searchTerm : string;
    isAdding : bool }.

(** [s.includes(t)]: [t] occurs in [s]. *)
Fixpoint includes (s t : string) : bool :=
  String.prefix t s ||
  match s with
  | EmptyString => false
  | String _ s' => includes s' t
  end.

(** [useMemo(() => compute, deps)]: the cell a render leaves holds the
    dependencies and the value; the next render keeps the cell when each
    dependency is the same by [Object.is], and computes afresh otherwise.
    [cell] is [None] on the first render of the component. *)
Record Memo (K V : Type) : Type := mkMemo
  { memoDeps : K; memoValue : V }.

Arguments mkMemo {K V} _ _.
Arguments memoDeps {K V} _.
Arguments memoValue {K V} _.

Definition useMemo {K V : Type} (same : K -> K -> bool) (compute : V)
    (deps : K) (cell : option (Memo K V)) : Memo K V :=
  match cell with
  | Some m => if same (memoDeps m) deps then m else mkMemo deps compute
  | None => mkMemo deps compute
  end.

(** The dependencies of [filteredItems]: the array [category.items], an
    object that [Object.is] compares by identity and that is named here by
    a number, and the search term, a string compared by value. *)
Definition sameDeps (a b : nat * string) : bool :=
  Nat.eqb (fst a) (fst b) && String.eqb (snd a) (snd b).

(** ** Instances for concrete runs *)

(** [toLowerCase] on the ASCII letters; other bytes are left alone, so the
    capital letters outside ASCII are not folded.  It stands for
    [toLowerCase] in the concrete runs only, whose names differ from the
    stored ones in ASCII letters alone. *)
Definition lowerAscii (c : ascii) : ascii :=
  let n := nat_of_ascii c in
  if Nat.leb 65 n && Nat.leb n 90 then ascii_of_nat (n + 32) else c.

Fixpoint asciiLower (s : string) : string :=
  match s with
  | EmptyString => EmptyString
  | String c s' => String (lowerAscii c) (asciiLower s')
  end.

(** [JSON.parse] on the texts of a finite table; any other text is a
    SyntaxError. *)
Fixpoint parseTable (table : list (string * Result.t)) (text : string)
    : option Result.t :=
  match table with
  | [] => None
  | (t, r) :: rest => if String.eqb t text then Some r else parseTable rest text
  end.

(** Texts without surrounding white space or code fence. *)
Definition noTrim (s : string) : string := s.

Definition demoState : State := initialState "2026-11-02" "2026-11-01" true.

Definition demoReadings : Readings :=
  mkReadings 1793000000000 1793000001500 1793000001400
             (fun k => (1793000001400, "0.25")%N).

Definition demoSource : Category.t :=
  Category.mk "cat-1" "Achats" (Some "ShoppingCart")
    [ Item.mk "item-1" "Lait" false None (Some "Lait entier bio") None None;
      Item.mk "item-2" "Pain" false None None None None ].

Definition demoDest : Category.t :=
  Category.mk "cat-3" "Films à voir" (Some "Clapperboard") [].

(** A reply that merges the list 'Achats' into 'Films à voir'. *)
Definition demoMerge : Result.t :=
  Result.mk "merge_categories" None
    (Some (CategoryDetails.mk None None None (Some "ACHATS") (Some "films à voir")))
    None "Les listes sont fusionnées.".

(** A reply that deletes the list 'Achats'. *)
Definition demoDeleteCategory : Result.t :=
  Result.mk "delete_category" None
    (Some (CategoryDetails.mk (Some "achats") None None None None))
    None "La liste Achats est supprimée.".

(** A [delete_category] reply whose details carry no name. *)
Definition demoNameless : Result.t :=
  Result.mk "delete_category" None
    (Some (CategoryDetails.mk None None None None None))
    None "C'est fait.".

Definition demoChat : Result.t :=
  Result.mk "chat" None None None "La liste Achats contient deux éléments.".

Definition demoAdd : Result.t :=
  Result.mk "add"
    (Some [ReplyItem.mk "Oeufs" "ACHATS" None None None None])
    None None "Oeufs ajoutés.".

(** The texts the demonstration parser knows; they stand for JSON texts. *)
Definition demoParse : string -> option Result.t :=
  parseTable [ ("<chat reply>", demoChat);
               ("<nameless delete_category reply>", demoNameless);
               ("<merge reply>", demoMerge) ].

Definition demoLait : Item.t :=
  Item.mk "item-1" "Lait" false None (Some "Lait entier bio") None None.

Definition demoPain : Item.t :=
  Item.mk "item-2" "Pain" false None None None None.

Definition demoTodo : Category.t :=
  Category.mk "cat-2" "À Faire" (Some "ListTodo")
    [ Item.mk "item-3" "Appeler le médecin" false (Some "2026-11-02") None None None;
      Item.mk "item-4" "Finir le rapport" true (Some "2026-11-01") None None None ].

(** A reply that merges the list 'Disques' into 'Achats'. *)
Definition demoMergeDisques : Result.t :=
  Result.mk "merge_categories" None
    (Some (CategoryDetails.mk None None None (Some "disques") (Some "achats")))
    None "Les listes sont fusionnées.".

(** A reply that merges the list 'Achats' into itself. *)
Definition demoSelfMerge : Result.t :=
  Result.mk "merge_categories" None
    (Some (CategoryDetails.mk None None None (Some "ACHATS") (Some "achats")))
    None "Les listes sont fusionnées.".

(** A reply that deletes the completed items of 'À Faire'. *)
Definition demoPurge : Result.t :=
  Result.mk "delete" None None (Some (Filter.mk (Some "À FAIRE") (Some true)))
    "Les tâches terminées sont supprimées.".

(** A reply that ticks 'Lait' in the list 'Achats'. *)
Definition demoUpdate : Result.t :=
  Result.mk "update"
    (Some [ReplyItem.mk "LAIT" "achats" (Some true) None None None])
    None None "Lait est coché.".

Definition demoVoices : list Voice.t :=
  [ Voice.mk "Samantha" "en-US"; Voice.mk "Amelie" "fr-CA";
    Voice.mk "Thomas" "fr-FR" ].

Definition demoPanel : PanelState := mkPanelState "Beurre" "" "pain" true.

Section Interpreter.

(** [String.prototype.toLowerCase], [String.prototype.trim], the
    replacement [.replace(/^```json\s*|```\s*$/g, '')], and [JSON.parse]
    restricted to values of the response schema ([None]: a SyntaxError). *)
Variable toLowerCase : string -> string.
Variable trim : string -> string.
Variable stripFence : string -> string.
Variable JSON_parse : string -> option Result.t.

(** [stored.toLowerCase() === given.toLowerCase()] *)
Definition sameName (stored given : string) : bool :=
  String.eqb (toLowerCase stored) (toLowerCase given).

Definition named (given : string) (c : Category.t) : bool :=
  sameName (Category.name c) given.

Definition contentIs (given : string) (i : Item.t) : bool :=
  sameName (Item.content i) given.

(** [newCategories.find(c => c.name.toLowerCase() === given.toLowerCase())]
    where [given] may be [undefined]: the callback throws on its first
    call, so an empty array yields [undefined] without throwing. *)
Definition findNamed (given : option string) (l : list Category.t)
    : Outcome (option Category.t) :=
  match l, given with
  | [], _ => Done None
  | _ :: _, None => Thrown
  | _ :: _, Some n => Done (find (named n) l)
  end.

(** [`item-${Date.now()}-${Math.random()}`] *)
Definition stampId (stamp : N * string) : string :=
  (template "item-" (fst stamp) ++ "-" ++ snd stamp)%string.

(** One turn of the [forEach] of the [add] case. *)
Definition addOne (stamp : N * string) (itemToAdd : ReplyItem.t)
    (newCategories : list Category.t) : list Category.t :=
  let newItem :=
    Item.mk (stampId stamp)
            (ReplyItem.content itemToAdd)
            false
            (ReplyItem.dueDate itemToAdd)
            (ReplyItem.notes itemToAdd)
            (Some (ReplyItem.categoryName itemToAdd))
            (ReplyItem.newContent itemToAdd) in
  updFirst (named (ReplyItem.categoryName itemToAdd))
           (fun targetCategory =>
              Category.with_items (Category.items targetCategory ++ [newItem])
                                  targetCategory)
           newCategories.

Fixpoint addAll (stamps : nat -> N * string) (k : nat)
    (items : list ReplyItem.t) (newCategories : list Category.t)
    : list Category.t :=
  match items with
  | [] => newCategories
  | itemToAdd :: rest =>
      addAll stamps (S k) rest (addOne (stamps k) itemToAdd newCategories)
  end.

Definition orElse {A : Type} (given : option A) (original : A) : A :=
  match given with Some v => v | None => original end.

Definition orKeep {A : Type} (given original : option A) : option A :=
  match given with Some v => Some v | None => original end.

Definition updatedItem (itemToUpdate : ReplyItem.t) (originalItem : Item.t) : Item.t :=
  Item.mk (Item.id originalItem)
          (orElse (ReplyItem.newContent itemToUpdate) (Item.content originalItem))
          (orElse (ReplyItem.completed itemToUpdate) (Item.completed originalItem))
          (orKeep (ReplyItem.dueDate itemToUpdate) (Item.dueDate originalItem))
          (orKeep (ReplyItem.notes itemToUpdate) (Item.notes originalItem))
          (Item.categoryName originalItem)
          (Item.newContent originalItem).

Definition updateOne (itemToUpdate : ReplyItem.t)
    (newCategories : list Category.t) : list Category.t :=
  updFirst (named (ReplyItem.categoryName itemToUpdate))
           (fun targetCategory =>
              Category.with_items
                (updFirst (contentIs (ReplyItem.content itemToUpdate))
                          (updatedItem itemToUpdate)
                          (Category.items targetCategory))
                targetCategory)
           newCategories.

Definition deleteOne (itemToDelete : ReplyItem.t)
    (newCategories : list Category.t) : list Category.t :=
  updFirst (named (ReplyItem.categoryName itemToDelete))
           (fun targetCategory =>
              Category.with_items
                (filter (fun i => negb (contentIs (ReplyItem.content itemToDelete) i))
                        (Category.items targetCategory))
                targetCategory)
           newCategories.

(** [i.completed !== filter.completed] *)
Definition completedDiffers (given : option bool) (i : Item.t) : bool :=
  match given with
  | Some b => negb (Bool.eqb (Item.completed i) b)
  | None => true
  end.

(** [name && ...]: a string that is present and not empty. *)
Definition truthyName (given : option string) : option string :=
  match given with
  | Some n => if String.eqb n "" then None else Some n
  | None => None
  end.

(** The [switch (result.action)] of [handleSendMessage], run on
    [newCategories = [...categories]].  It yields the final
    [newCategories] and the argument of the [setActiveCategoryId] call,
    when the taken branch makes one. *)
Definition unchanged (s : State)
    : Outcome (list Category.t * option (option string)) :=
  Done (categories s, None).

Definition runAdd (result : Result.t) (rd : Readings) (s : State) :=
  match Result.items result with
  | Some items => Done (addAll (item_stamp rd) 0 items (categories s), @None (option string))
  | None => unchanged s
  end.

Definition runUpdate (result : Result.t) (s : State) :=
  match Result.items result with
  | Some items =>
      Done (fold_left (fun acc itemToUpdate => updateOne itemToUpdate acc)
                      items (categories s), @None (option string))
  | None => unchanged s
  end.

Definition runCreateCategory (result : Result.t) (rd : Readings) (s : State) :=
  match Result.category_details result with
  | Some details =>
      match truthyName (CategoryDetails.name details) with
      | Some name =>
          if negb (existsb (named name) (categories s))
          then
            let icon := CategoryDetails.icon details in
            let newCategory :=
              Category.mk (template "cat-" (now_category rd)) name
                          (if componentTruthy (getIcon icon) then icon
                           else Some "Default")
                          [] in
            Done (categories s ++ [newCategory], Some (Some (Category.id newCategory)))
          else unchanged s
      | None => unchanged s
      end
  | None => unchanged s
  end.

Definition runRenameCategory (result : Result.t) (s : State) :=
  match Result.category_details result with
  | Some details =>
      match categories s, CategoryDetails.name details with
      | [], _ => unchanged s
      | _ :: _, None => Thrown
      | _ :: _, Some name =>
          match CategoryDetails.newName details with
          | Some newName =>
              Done (map (fun c => if named name c
                                  then Category.with_name newName c else c)
                        (categories s), @None (option string))
          | None =>
              if existsb (named name) (categories s) then Untyped
              else unchanged s
          end
      end
  | None => unchanged s
  end.

Definition runDeleteCategory (result : Result.t) (s : State) :=
  match Result.category_details result with
  | Some details =>
      match CategoryDetails.name details with
      | None => Thrown
      | Some name =>
          let newCategories :=
            filter (fun c => negb (named name c)) (categories s) in
          match activeCategory s with
          | Some activeCat =>
              if named name activeCat
              then Done (newCategories, Some (firstId newCategories))
              else Done (newCategories, None)
          | None => Done (newCategories, None)
          end
      end
  | None => unchanged s
  end.

Definition runMergeCategories (result : Result.t) (s : State) :=
  match Result.category_details result with
  | Some details =>
      match findNamed (CategoryDetails.sourceName details) (categories s) with
      | Done sourceCat =>
          match findNamed (CategoryDetails.destinationName details) (categories s) with
          | Done destCat =>
              match sourceCat, destCat with
              | Some sourceCat, Some destCat =>
                  let itemsToMove := Category.items sourceCat in
                  Done (filter (fun c => negb (catIdIs (Category.id sourceCat) c))
                          (map (fun c =>
                                  if catIdIs (Category.id destCat) c
                                  then Category.with_items
                                         (Category.items c ++ itemsToMove) c
                                  else c)
                               (categories s)),
                        @None (option string))
              | _, _ => unchanged s
              end
          | Thrown => Thrown
          | Untyped => Untyped
          end
      | Thrown => Thrown
      | Untyped => Untyped
      end
  | None => unchanged s
  end.

Definition runDelete (result : Result.t) (s : State) :=
  match Result.filter result with
  | Some filter_ =>
      match categories s, Filter.categoryName filter_ with
      | [], _ => unchanged s
      | _ :: _, None => Thrown
      | _ :: _, Some categoryName =>
          Done (updFirst (named categoryName)
                  (fun targetCategory =>
                     Category.with_items
                       (filter (completedDiffers (Filter.completed filter_))
                               (Category.items targetCategory))
                       targetCategory)
                  (categories s), @None (option string))
      end
  | None =>
      match Result.items result with
      | Some items =>
          Done (fold_left (fun acc itemToDelete => deleteOne itemToDelete acc)
                          items (categories s), @None (option string))
      | None => unchanged s
      end
  end.

Definition runAction (result : Result.t) (rd : Readings) (s : State)
    : Outcome (list Category.t * option (option string)) :=
  let action := Result.action result in
  if String.eqb action "add" then runAdd result rd s
  else if String.eqb action "update" then runUpdate result s
  else if String.eqb action "create_category" then runCreateCategory result rd s
  else if String.eqb action "rename_category" then runRenameCategory result s
  else if String.eqb action "delete_category" then runDeleteCategory result s
  else if String.eqb action "merge_categories" then runMergeCategories result s
  else if String.eqb action "delete" then runDelete result s
  else unchanged s.

Definition append {A : Type} (x : A) (prev : list A) : list A := prev ++ [x].

(** The [catch] and [finally] blocks. *)
Definition catchBlock (rd : Readings) (s : State) : State :=
  let errorMessage :=
    mkChatMessage (template "msg-" (now_reply rd + 1))
                  "Désolé, une erreur est survenue." ai in
  setIsLoadingAI false (setMessages (append errorMessage) s).

(** The rest of the [try] block once [JSON.parse] has returned [result],
    when the store is still the one of the render that sent the message:
    [s] is both what the [switch] reads and what the setters update.
    [applyResultFrom] below tells the two apart. *)
Definition applyResult (result : Result.t) (rd : Readings) (s : State)
    : option State :=
  let s := setUndoAction None s in
  match runAction result rd s with
  | Thrown => Some (catchBlock rd s)
  | Untyped => None
  | Done (newCategories, activeCall) =>
      let s := match activeCall with
               | Some v => setActiveCategoryId v s
               | None => s
               end in
      let s := setCategories (fun _ => newCategories) s in
      let aiMessage :=
        mkChatMessage (template "msg-" (now_reply rd + 1))
                      (Result.response result) ai in
      Some (setIsLoadingAI false (setMessages (append aiMessage) s))
  end.

(** [handleSendMessage(text)], with the outcome of the request to the
    model as [response], when no other update of the store takes place
    between the call and the end of the handler. *)
Definition handleSendMessage (text : string) (response : Response)
    (rd : Readings) (s : State) : option State :=
  if String.eqb (trim text) "" || isLoadingAI s then Some s
  else
    let userMessage := mkChatMessage (template "msg-" (now_user rd)) text user in
    let s := setIsLoadingAI true (setMessages (append userMessage) s) in
    if negb (aiRef s)
    then
      let mockResponse :=
        mkChatMessage (template "msg-" (now_reply rd + 1))
                      "Clé API non configurée. Ceci est une réponse factice." ai in
      Some (setIsLoadingAI false (setMessages (append mockResponse) s))
    else
      let s := setChatRef true s in
      match response with
      | Rejected => Some (catchBlock rd s)
      | Answer None => Some (catchBlock rd s)
      | Answer (Some replyText) =>
          let jsonStr := stripFence (trim replyText) in
          match JSON_parse jsonStr with
          | None => Some (catchBlock rd s)
          | Some result => applyResult result rd s
          end
      end.

(** ** The request in flight

    [handleSendMessage] is asynchronous.  Past its [await] it still reads
    [categories] and [activeCategory] from the render it was created in,
    while its setters act on the store as it is when they are called.
    [beforeAwait] is the handler up to the [await], or to the [return] in
    front of it; [afterAwait snapshot] is the rest, run on the store of that
    later moment, [snapshot] being the state of the render in which the
    message was sent.  [handleSendMessage] above is the two parts run one
    after the other, with no other update of the store in between. *)

(** The handler reaches [chatRef.current.sendMessage]. *)
Definition awaits (text : string) (s : State) : bool :=
  negb (String.eqb (trim text) "" || isLoadingAI s) && aiRef s.

Definition beforeAwait (text : string) (rd : Readings) (s : State) : State :=
  if String.eqb (trim text) "" || isLoadingAI s then s
  else
    let userMessage := mkChatMessage (template "msg-" (now_user rd)) text user in
    let s := setIsLoadingAI true (setMessages (append userMessage) s) in
    if negb (aiRef s)
    then
      let mockResponse :=
        mkChatMessage (template "msg-" (now_reply rd + 1))
                      "Clé API non configurée. Ceci est une réponse factice." ai in
      setIsLoadingAI false (setMessages (append mockResponse) s)
    else setChatRef true s.

(** The rest of the [try] block once [JSON.parse] has returned [result]:
    the [switch] runs on [newCategories = [...categories]] and on
    [activeCategory] as the render [snapshot] had them, and
    [setCategories(newCategories)] replaces the categories of the store [s]
    by its outcome. *)
Definition applyResultFrom (snapshot : State) (result : Result.t) (rd : Readings)
    (s : State) : option State :=
  let s := setUndoAction None s in
  match runAction result rd snapshot with
  | Thrown => Some (catchBlock rd s)
  | Untyped => None
  | Done (newCategories, activeCall) =>
      let s := match activeCall with
               | Some v => setActiveCategoryId v s
               | None => s
               end in
      let s := setCategories (fun _ => newCategories) s in
      let aiMessage :=
        mkChatMessage (template "msg-" (now_reply rd + 1))
                      (Result.response result) ai in
      Some (setIsLoadingAI false (setMessages (append aiMessage) s))
  end.

Definition afterAwait (snapshot : State) (response : Response) (rd : Readings)
    (s : State) : option State :=
  match response with
  | Rejected => Some (catchBlock rd s)
  | Answer None => Some (catchBlock rd s)
  | Answer (Some replyText) =>
      let jsonStr := stripFence (trim replyText) in
      match JSON_parse jsonStr with
      | None => Some (catchBlock rd s)
      | Some result => applyResultFrom snapshot result rd s
      end
  end.

(** ** Events of the store *)

(** The operations that create or remove categories and items or move the
    active-category reference: the two category handlers, [handleAddItem],
    a parsed reply of the model that reaches the store it was computed
    from, and the reselection effect. *)
Inductive Event : Type :=
| EvAddCategory (name icon : string) (now : N)
| EvDeleteCategory (categoryId : string)
| EvAddItem (categoryId content : string) (dueDate : option string) (now : N)
| EvReply (result : Result.t) (rd : Readings)
| EvReselect.

Definition step (ev : Event) (s : State) : option State :=
  match ev with
  | EvAddCategory name icon now => Some (handleAddCategory name icon now s)
  | EvDeleteCategory categoryId => Some (handleDeleteCategory categoryId s)
  | EvAddItem categoryId content dueDate now =>
      Some (handleAddItem categoryId content dueDate now s)
  | EvReply result rd => applyResult result rd s
  | EvReselect => Some (reselectEffect s)
  end.

Fixpoint run (evs : list Event) (s : State) : option State :=
  match evs with
  | [] => Some s
  | ev :: rest =>
      match step ev s with
      | Some s1 => run rest s1
      | None => None
      end
  end.

Definition actionIs (a : string) (result : Result.t) : bool :=
  String.eqb (Result.action result) a.

(** The events that create identifiers. *)
Definition creates (ev : Event) : bool :=
  match ev with
  | EvAddCategory _ _ _ | EvAddItem _ _ _ _ => true
  | EvReply result _ => actionIs "add" result || actionIs "create_category" result
  | EvDeleteCategory _ | EvReselect => false
  end.

Definition unused (i : string) (ids : list string) : bool :=
  negb (existsb (String.eqb i) ids).

(** Every id the [add] loop generates is unused when it is generated. *)
Fixpoint addAllFresh (stamps : nat -> N * string) (k : nat)
    (items : list ReplyItem.t) (newCategories : list Category.t) : bool :=
  match items with
  | [] => true
  | itemToAdd :: rest =>
      (negb (existsb (named (ReplyItem.categoryName itemToAdd)) newCategories)
       || unused (stampId (stamps k)) (allItemIds newCategories))
      && addAllFresh stamps (S k) rest (addOne (stamps k) itemToAdd newCategories)
  end.

(** The id an event derives from the clock is unused in the store. *)
Definition freshFor (ev : Event) (s : State) : bool :=
  match ev with
  | EvAddCategory _ _ now =>
      unused (template "cat-" now) (categoryIds (categories s))
  | EvAddItem _ _ _ now =>
      unused (template "item-" now) (allItemIds (categories s))
  | EvReply result rd =>
      if actionIs "add" result
      then match Result.items result with
           | Some items => addAllFresh (item_stamp rd) 0 items (categories s)
           | None => true
           end
      else if actionIs "create_category" result
      then unused (template "cat-" (now_category rd)) (categoryIds (categories s))
      else true
  | EvDeleteCategory _ | EvReselect => true
  end.

Fixpoint freshAlong (evs : list Event) (s : State) : bool :=
  match evs with
  | [] => true
  | ev :: rest =>
      freshFor ev s &&
      match step ev s with
      | Some s1 => freshAlong rest s1
      | None => true
      end
  end.

(** The active-category reference is null or names a stored category. *)
Definition validActive (s : State) : bool :=
  match activeCategoryId s with
  | None => true
  | Some i => existsb (catIdIs i) (categories s)
  end.

(** [onSelectCategory] as [App] passes it to the category panel:
    [(id) => { setActiveCategoryId(id); setSelectedItemId(null); }] *)
Definition selectCategory (id : string) (s : State) : State :=
  setSelectedItemId None (setActiveCategoryId (Some id) s).

(** Everything that updates the categories or the active-category
    reference: the seven recording handlers, the choice of a category,
    [handleUndo], the arrival of the reply to a message sent from the render
    [snapshot], and the reselection effect. *)
Inductive Operation : Type :=
| OpPerform (op : Op)
| OpSelectCategory (id : string)
| OpUndo
| OpReply (snapshot : State) (result : Result.t) (rd : Readings)
| OpReselect.

Definition operate (o : Operation) (s : State) : option State :=
  match o with
  | OpPerform op => perform op s
  | OpSelectCategory id => Some (selectCategory id s)
  | OpUndo => handleUndo s
  | OpReply snapshot result rd => applyResultFrom snapshot result rd s
  | OpReselect => Some (reselectEffect s)
  end.

(** Nothing has changed the categories or the active category since the
    render [snapshot]. *)
Definition sameStore (snapshot s : State) : Prop :=
  categories s = categories snapshot /\
  activeCategoryId s = activeCategoryId snapshot.

(** The operations that leave a resolving reference resolving without the
    help of the reselection effect: the two category handlers, the effect
    itself, and a reply other than [merge_categories] that reaches the
    store it was computed from. *)
Definition keepsReference (o : Operation) (s : State) : Prop :=
  match o with
  | OpPerform (AddCategory _ _ _) | OpPerform (DeleteCategory _) | OpReselect => True
  | OpReply snapshot result _ =>
      actionIs "merge_categories" result = false /\ sameStore snapshot s
  | _ => False
  end.

(** The names that compare equal without regard to letter case. *)
Definition ciEq (a b : string) : Prop := toLowerCase a = toLowerCase b.

(** [c] is the first category of [l1 ++ c :: l2] whose name is [given] up
    to letter case. *)
Definition firstNamed (given : string) (l1 : list Category.t) (c : Category.t)
    : Prop :=
  ciEq (Category.name c) given /\
  forall y, In y l1 -> ~ ciEq (Category.name y) given.

Definition noneNamed (given : string) (l : list Category.t) : Prop :=
  forall y, In y l -> ~ ciEq (Category.name y) given.

Definition firstWithContent (given : string) (l1 : list Item.t) (i : Item.t)
    : Prop :=
  ciEq (Item.content i) given /\
  forall y, In y l1 -> ~ ciEq (Item.content y) given.

Definition noneWithContent (given : string) (l : list Item.t) : Prop :=
  forall y, In y l -> ~ ciEq (Item.content y) given.

(** The category a lookup by name resolves to. *)
Definition resolvesTo (given : string) (cats : list Category.t) (c : Category.t)
    : Prop :=
  exists l1 l2, cats = l1 ++ c :: l2 /\ firstNamed given l1 c.

(** ** Resolution of the names of a reply, stated on letter-case equality

    One clause per action that targets a category or an item by name, each
    stated on the [switch] as [result.action] selects its case. *)

(** The item the [add] loop stores for [itemToAdd]. *)
Definition addedItem (stamp : N * string) (itemToAdd : ReplyItem.t) : Item.t :=
  Item.mk (stampId stamp) (ReplyItem.content itemToAdd) false
          (ReplyItem.dueDate itemToAdd) (ReplyItem.notes itemToAdd)
          (Some (ReplyItem.categoryName itemToAdd)) (ReplyItem.newContent itemToAdd).

(** [add]: the [switch] runs one turn per item of [result.items], in
    order; in its turn the item goes to the first category named like its
    [categoryName], and with no such category the turn leaves the store
    alone. *)
Definition addResolves : Prop :=
  (forall result items rd s,
      Result.action result = "add" ->
      Result.items result = Some items ->
      runAction result rd s
      = Done (addAll (item_stamp rd) 0 items (categories s), None)) /\
  (forall stamps k itemToAdd rest cats,
      addAll stamps k [] cats = cats /\
      addAll stamps k (itemToAdd :: rest) cats
      = addAll stamps (S k) rest (addOne (stamps k) itemToAdd cats)) /\
  forall stamp itemToAdd cats,
    (noneNamed (ReplyItem.categoryName itemToAdd) cats ->
     addOne stamp itemToAdd cats = cats) /\
    (forall l1 c l2,
        cats = l1 ++ c :: l2 ->
        firstNamed (ReplyItem.categoryName itemToAdd) l1 c ->
        addOne stamp itemToAdd cats
        = l1 ++ Category.with_items
                  (Category.items c ++ [addedItem stamp itemToAdd]) c :: l2).

(** [update]: the [switch] runs one turn per item of [result.items], in
    order; in its turn the first item with the given content, in the first
    category with the given name, is replaced. *)
Definition updateResolves : Prop :=
  (forall result items rd s,
      Result.action result = "update" ->
      Result.items result = Some items ->
      runAction result rd s
      = Done (fold_left (fun acc itemToUpdate => updateOne itemToUpdate acc)
                        items (categories s), None)) /\
  forall itemToUpdate cats,
    (noneNamed (ReplyItem.categoryName itemToUpdate) cats ->
     updateOne itemToUpdate cats = cats) /\
    (forall l1 c l2,
        cats = l1 ++ c :: l2 ->
        firstNamed (ReplyItem.categoryName itemToUpdate) l1 c ->
        (noneWithContent (ReplyItem.content itemToUpdate) (Category.items c) ->
         updateOne itemToUpdate cats = cats) /\
        (forall i1 x i2,
            Category.items c = i1 ++ x :: i2 ->
            firstWithContent (ReplyItem.content itemToUpdate) i1 x ->
            updateOne itemToUpdate cats
            = l1 ++ Category.with_items (i1 ++ updatedItem itemToUpdate x :: i2) c
                 :: l2)).

(** [delete] with [items] and no [filter]: the [switch] runs one turn per
    item of [result.items], in order; in its turn the first category with
    the given name loses exactly the items with the given content. *)
Definition deleteResolves : Prop :=
  (forall result items rd s,
      Result.action result = "delete" ->
      Result.filter result = None ->
      Result.items result = Some items ->
      runAction result rd s
      = Done (fold_left (fun acc itemToDelete => deleteOne itemToDelete acc)
                        items (categories s), None)) /\
  forall itemToDelete cats,
    (noneNamed (ReplyItem.categoryName itemToDelete) cats ->
     deleteOne itemToDelete cats = cats) /\
    (forall l1 c l2,
        cats = l1 ++ c :: l2 ->
        firstNamed (ReplyItem.categoryName itemToDelete) l1 c ->
        exists kept,
          deleteOne itemToDelete cats = l1 ++ Category.with_items kept c :: l2 /\
          forall i, In i kept <->
                    In i (Category.items c) /\
                    ~ ciEq (Item.content i) (ReplyItem.content itemToDelete)).

(** [delete] with a [filter]: the first category with the given name loses
    the items whose completion status is the given one. *)
Definition filterResolves : Prop :=
  forall result filter_ categoryName rd s,
    Result.action result = "delete" ->
    Result.filter result = Some filter_ ->
    Filter.categoryName filter_ = Some categoryName ->
    (noneNamed categoryName (categories s) ->
     runAction result rd s = unchanged s) /\
    (forall l1 c l2,
        categories s = l1 ++ c :: l2 ->
        firstNamed categoryName l1 c ->
        runAction result rd s
        = Done (l1 ++ Category.with_items
                        (filter (completedDiffers (Filter.completed filter_))
                                (Category.items c)) c :: l2,
                None)).

(** [rename_category]: exactly the categories with the given name get the
    new name. *)
Definition renameResolves : Prop :=
  forall result details name newName rd s,
    Result.action result = "rename_category" ->
    Result.category_details result = Some details ->
    CategoryDetails.name details = Some name ->
    CategoryDetails.newName details = Some newName ->
    exists newCategories,
      runAction result rd s = Done (newCategories, None) /\
      Forall2 (fun c c' =>
                 (ciEq (Category.name c) name -> c' = Category.with_name newName c) /\
                 (~ ciEq (Category.name c) name -> c' = c))
              (categories s) newCategories.

(** [delete_category]: exactly the categories with the given name go, and
    the active category is reselected exactly when it has the given name. *)
Definition deleteCategoryResolves : Prop :=
  forall result details name rd s,
    Result.action result = "delete_category" ->
    Result.category_details result = Some details ->
    CategoryDetails.name details = Some name ->
    exists newCategories call,
      runAction result rd s = Done (newCategories, call) /\
      (forall c, In c newCategories <->
                 In c (categories s) /\ ~ ciEq (Category.name c) name) /\
      (call <> None <->
       exists activeCat,
         activeCategory s = Some activeCat /\ ciEq (Category.name activeCat) name).

(** [merge_categories]: source and destination are the first categories with
    the two given names; when either name has no category the store is left
    alone. *)
Definition mergeResolves : Prop :=
  forall result details sourceName destinationName rd s,
    Result.action result = "merge_categories" ->
    Result.category_details result = Some details ->
    CategoryDetails.sourceName details = Some sourceName ->
    CategoryDetails.destinationName details = Some destinationName ->
    (noneNamed sourceName (categories s) \/ noneNamed destinationName (categories s) ->
     runAction result rd s = unchanged s) /\
    (forall source dest,
        resolvesTo sourceName (categories s) source ->
        resolvesTo destinationName (categories s) dest ->
        runAction result rd s
        = Done (filter (fun c => negb (catIdIs (Category.id source) c))
                  (map (fun c =>
                          if catIdIs (Category.id dest) c
                          then Category.with_items
                                 (Category.items c ++ Category.items source) c
                          else c)
                       (categories s)),
                None)).

(** [create_category]: a category is created exactly when no stored
    category has the given name. *)
Definition createResolves : Prop :=
  forall result details name rd s,
    Result.action result = "create_category" ->
    Result.category_details result = Some details ->
    CategoryDetails.name details = Some name ->
    name <> "" ->
    (noneNamed name (categories s) ->
     runAction result rd s
     = Done (categories s ++
             [Category.mk (template "cat-" (now_category rd)) name
                          (CategoryDetails.icon details) []],
             Some (Some (template "cat-" (now_category rd))))) /\
    ((exists c, In c (categories s) /\ ciEq (Category.name c) name) ->
     runAction result rd s = unchanged s).

(** What the [switch] computes from the render [snapshot] is what
    [setCategories] stores, whatever the store holds by then. *)
Definition outcomeStored : Prop :=
  forall snapshot result rd s newCategories call,
    runAction result rd snapshot = Done (newCategories, call) ->
    exists s1,
      applyResultFrom snapshot result rd s = Some s1 /\
      categories s1 = newCategories /\
      activeCategoryId s1
      = match call with Some v => v | None => activeCategoryId s end.

(** The values of [result.action] that have a [case] in the [switch]. *)
Definition handledActions : list string :=
  ["add"; "update"; "create_category"; "rename_category"; "delete_category";
   "merge_categories"; "delete"].

(** The messages [handleSendMessage] appends. *)
Definition userMessageOf (text : string) (rd : Readings) : ChatMessage :=
  mkChatMessage (template "msg-" (now_user rd)) text user.

Definition apologyOf (rd : Readings) : ChatMessage :=
  mkChatMessage (template "msg-" (now_reply rd + 1))
                "Désolé, une erreur est survenue." ai.

Definition aiMessageOf (result : Result.t) (rd : Readings) : ChatMessage :=
  mkChatMessage (template "msg-" (now_reply rd + 1)) (Result.response result) ai.

(** The request fails inside the [try] block: the promise rejects, the
    response has no text, the text does not parse, or applying the parsed
    action throws. *)
Definition replyFails (response : Response) (rd : Readings) (s : State) : Prop :=
  match response with
  | Rejected => True
  | Answer None => True
  | Answer (Some replyText) =>
      match JSON_parse (stripFence (trim replyText)) with
      | None => True
      | Some result => runAction result rd s = Thrown
      end
  end.

(** The guards in front of the [try] block: a message that is not blank, no
    request in flight, and a configured client. *)
Definition sendable (text : string) (s : State) : Prop :=
  String.eqb (trim text) "" = false /\ isLoadingAI s = false /\ aiRef s = true.

(** ** The item list panel, continued *)

(** The callback of the [useMemo] of [filteredItems]: the items whose
    content includes the search term, both in lower case. *)
Definition matchingItems (items : list Item.t) (searchTerm : string)
    : list Item.t :=
  filter (fun item => includes (toLowerCase (Item.content item))
                               (toLowerCase searchTerm))
         items.

(** [filteredItems], memoised on [[category.items, searchTerm]]: [itemsRef]
    names the array object [category.items] of this render, and [cell] is
    what the previous render of the panel left ([None] on its first
    render, also after [App] has remounted the panel under another
    [key]). *)
Definition filteredItems (cell : option (Memo (nat * string) (list Item.t)))
    (itemsRef : nat) (category : Category.t) (searchTerm : string)
    : Memo (nat * string) (list Item.t) :=
  useMemo sameDeps (matchingItems (Category.items category) searchTerm)
          (itemsRef, searchTerm) cell.

(** [handleAddClick] in the panel of [category]; [onAddItem] is wired by
    [App] to [handleAddItem(activeCategory.id, content, dueDate)]. *)
Definition handleAddClick (category : Category.t) (now : N)
    (panel : PanelState) (s : State) : PanelState * State :=
  if negb (String.eqb (trim (newItemContent panel)) "")
  then
    let dueDate := if String.eqb (newItemDueDate panel) "" then None
                   else Some (newItemDueDate panel) in
    (mkPanelState "" "" (searchTerm panel) false,
     handleAddItem (Category.id category) (trim (newItemContent panel)) dueDate now s)
  else (panel, s).

End Interpreter.

(** * Facts about the array primitives *)

Section ArrayFacts.
Context {A : Type}.
Implicit Types (l : list A) (p : A -> bool).

Lemma findIndex_from_shift p l k :
  findIndex_from p l k = (-1)%Z \/
  (exists n, findIndex_from p l k = (k + Z.of_nat n)%Z /\ (n < List.length l)%nat).
Proof.
  revert k; induction l as [|x l IH]; intros k; simpl.
  - now left.
  - destruct (p x).
    + right. exists 0%nat. split; [lia | simpl; lia].
    + destruct (IH (k + 1)%Z) as [E | [n [E Hn]]].
      * now left.
      * right. exists (S n). split; [rewrite E; lia | simpl; lia].
Qed.

(** [findIndex] answers [-1] or a position of the array. *)
Lemma findIndex_range p l :
  (-1 <= findIndex p l < Z.of_nat (List.length l))%Z.
Proof.
  unfold findIndex.
  destruct (findIndex_from_shift p l 0) as [E | [n [E Hn]]]; rewrite E; lia.
Qed.

Lemma findIndex_from_split p l x k :
  find p l = Some x ->
  exists l1 l2,
    l = l1 ++ x :: l2 /\ p x = true /\
    (forall y, In y l1 -> p y = false) /\
    findIndex_from p l k = (k + Z.of_nat (List.length l1))%Z.
Proof.
  revert k; induction l as [|a l IH]; intros k Hf; simpl in *; [discriminate|].
  destruct (p a) eqn:Ea.
  - inversion Hf; subst a. exists [], l. simpl.
    repeat split; auto; solve [lia | intros y []].
  - destruct (IH (k + 1)%Z Hf) as (l1 & l2 & -> & Hx & Hl1 & E).
    exists (a :: l1), l2. simpl. repeat split; auto.
    + intros y [<- | Hy]; auto.
    + rewrite E. lia.
Qed.

(** [find] and [findIndex] agree on the first match. *)
Lemma find_split p l x :
  find p l = Some x ->
  exists l1 l2,
    l = l1 ++ x :: l2 /\ p x = true /\
    (forall y, In y l1 -> p y = false) /\
    findIndex p l = Z.of_nat (List.length l1).
Proof.
  intros Hf. destruct (findIndex_from_split p l x 0 Hf) as (l1 & l2 & H).
  exists l1, l2. unfold findIndex. intuition.
Qed.

Lemma findIndex_none p l :
  find p l = None -> findIndex p l = (-1)%Z.
Proof.
  unfold findIndex. generalize 0%Z.
  induction l as [|a l IH]; intros k Hf; simpl in *; auto.
  destruct (p a); [discriminate | auto].
Qed.

Lemma relIndex_nat len (k : nat) :
  (k <= len)%nat -> relIndex len (Z.of_nat k) = k.
Proof.
  intros H. unfold relIndex.
  destruct (Z.ltb_spec (Z.of_nat k) 0); lia.
Qed.

Lemma splice_insert_at l1 l2 x start :
  relIndex (List.length (l1 ++ l2)) start = List.length l1 ->
  splice_insert start x (l1 ++ l2) = l1 ++ x :: l2.
Proof.
  intros H. unfold splice_insert. rewrite H.
  rewrite firstn_app, skipn_app, Nat.sub_diag, firstn_all, skipn_all. simpl.
  now rewrite app_nil_r.
Qed.

Lemma splice_remove_at l1 l2 x start :
  relIndex (List.length (l1 ++ x :: l2)) start = List.length l1 ->
  splice_remove start (l1 ++ x :: l2) = (Some x, l1 ++ l2).
Proof.
  intros H. unfold splice_remove. rewrite H. f_equal.
  - rewrite nth_error_app2, Nat.sub_diag by lia. reflexivity.
  - rewrite firstn_app, skipn_app, Nat.sub_diag, firstn_all.
    rewrite (skipn_all2 l1) by lia.
    replace (S (List.length l1) - List.length l1)%nat with 1%nat by lia.
    simpl. now rewrite app_nil_r.
Qed.

(** Filtering out the only element that satisfies [p]. *)
Lemma filter_out_single p l1 l2 x :
  p x = true ->
  (forall y, In y l1 -> p y = false) ->
  (forall y, In y l2 -> p y = false) ->
  filter (fun y => negb (p y)) (l1 ++ x :: l2) = l1 ++ l2.
Proof.
  intros Hx H1 H2. rewrite filter_app. simpl. rewrite Hx. simpl.
  f_equal; apply forallb_filter_id; apply forallb_forall; intros y Hy.
  - now rewrite H1.
  - now rewrite H2.
Qed.

Lemma filter_out_none p l :
  (forall y, In y l -> p y = false) ->
  filter (fun y => negb (p y)) l = l.
Proof.
  intros H. apply forallb_filter_id, forallb_forall. intros y Hy. now rewrite H.
Qed.

Lemma map_fixed (f : A -> A) l :
  (forall x, In x l -> f x = x) -> map f l = l.
Proof.
  intros H. rewrite <- (map_id l) at 2. now apply map_ext_in.
Qed.
End ArrayFacts.

(** ** [arrayMove] on positions that [findIndex] can return *)

Section ArrayMove.
Context {A : Type}.
Implicit Types (l : list A).

Lemma relIndex_position len i :
  (0 < len)%nat ->
  position len i -> Z.of_nat (relIndex len i) = wrapIndex len i.
Proof.
  unfold position, relIndex, wrapIndex. intros H0 H.
  destruct (Z.ltb_spec i 0); lia.
Qed.

Lemma wrapIndex_range len i :
  (0 < len)%nat ->
  position len i -> (0 <= wrapIndex len i < Z.of_nat len)%Z.
Proof.
  unfold position, wrapIndex. intros H0 H. destruct (Z.ltb_spec i 0); lia.
Qed.

Lemma arrayMove_nil from to : arrayMove (@nil A) from to = None.
Proof.
  unfold arrayMove, splice_remove. simpl.
  now destruct (relIndex 0 from).
Qed.

(** The element at the wrapped [from] is taken out and put back so that it
    sits at the wrapped [to]. *)
Lemma arrayMove_shape l from to :
  l <> [] ->
  position (List.length l) from ->
  position (List.length l) to ->
  exists l1 x l2 r1 r2,
    l = l1 ++ x :: l2 /\
    r1 ++ r2 = l1 ++ l2 /\
    Z.of_nat (List.length l1) = wrapIndex (List.length l) from /\
    Z.of_nat (List.length r1) = wrapIndex (List.length l) to /\
    arrayMove l from to = Some (r1 ++ x :: r2).
Proof.
  intros Hne Hf Ht.
  assert (Hpos : (0 < List.length l)%nat) by (destruct l; [congruence | simpl; lia]).
  pose proof (relIndex_position _ _ Hpos Hf) as Ek.
  pose proof (wrapIndex_range _ _ Hpos Hf) as Rk.
  pose proof (wrapIndex_range _ _ Hpos Ht) as Rt.
  destruct (nth_error l (relIndex (List.length l) from)) as [x|] eqn:En.
  2: { apply nth_error_None in En. lia. }
  destruct (nth_error_split _ _ En) as (l1 & l2 & El & Hl1).
  set (target := wrapIndex (List.length l) to) in *.
  set (k2 := relIndex (List.length (l1 ++ l2)) target).
  assert (Hlen : List.length l = S (List.length (l1 ++ l2))).
  { rewrite El. rewrite !length_app. simpl. lia. }
  assert (Hk2 : Z.of_nat k2 = target).
  { unfold k2, relIndex. destruct (Z.ltb_spec target 0); lia. }
  exists l1, x, l2, (firstn k2 (l1 ++ l2)), (skipn k2 (l1 ++ l2)).
  split; [exact El|]. split; [apply firstn_skipn|].
  split; [lia|]. split.
  - rewrite length_firstn. lia.
  - assert (Er : splice_remove from l = (Some x, l1 ++ l2)).
    { rewrite El. apply splice_remove_at. rewrite <- El. lia. }
    unfold arrayMove. rewrite Er. reflexivity.
Qed.

(** Moving back restores the array. *)
Lemma arrayMove_inverse l from to l' :
  position (List.length l) from ->
  position (List.length l) to ->
  arrayMove l from to = Some l' ->
  arrayMove l' to from = Some l.
Proof.
  intros Hf Ht E.
  assert (Hne : l <> []) by (intros ->; now rewrite arrayMove_nil in E).
  assert (Hpos : (0 < List.length l)%nat) by (destruct l; [congruence | simpl; lia]).
  destruct (arrayMove_shape l from to Hne Hf Ht)
    as (l1 & x & l2 & r1 & r2 & El & Er & H1 & H2 & E').
  rewrite E' in E. inversion E; subst l'; clear E.
  assert (Hlen : List.length (r1 ++ x :: r2) = List.length l).
  { rewrite El, !length_app. simpl.
    apply (f_equal (@List.length A)) in Er. rewrite !length_app in Er. lia. }
  unfold arrayMove. rewrite splice_remove_at.
  - rewrite Hlen.
    rewrite Er, splice_insert_at; [now rewrite El|].
    pose proof (wrapIndex_range _ _ Hpos Hf).
    assert (List.length l = S (List.length (l1 ++ l2))).
    { rewrite El, !length_app. simpl. lia. }
    unfold relIndex.
    destruct (Z.ltb_spec (wrapIndex (List.length l) from) 0); lia.
  - rewrite Hlen. pose proof (relIndex_position _ _ Hpos Ht). lia.
Qed.

Lemma arrayMove_Permutation l from to l' :
  position (List.length l) from ->
  position (List.length l) to ->
  arrayMove l from to = Some l' ->
  Permutation l l'.
Proof.
  intros Hf Ht E.
  assert (Hne : l <> []) by (intros ->; now rewrite arrayMove_nil in E).
  destruct (arrayMove_shape l from to Hne Hf Ht)
    as (l1 & x & l2 & r1 & r2 & El & Er & _ & _ & E').
  rewrite E' in E. inversion E; subst l' l.
  rewrite <- !Permutation_middle. now rewrite Er.
Qed.

Lemma arrayMove_defined l from to :
  l <> [] ->
  position (List.length l) from ->
  position (List.length l) to ->
  exists l', arrayMove l from to = Some l'.
Proof.
  intros Hne Hf Ht.
  destruct (arrayMove_shape l from to Hne Hf Ht)
    as (l1 & x & l2 & r1 & r2 & _ & _ & _ & _ & E').
  eauto.
Qed.
End ArrayMove.

(** * Identifiers *)

Lemma existsb_eqb_In (x : string) (l : list string) :
  existsb (String.eqb x) l = true <-> In x l.
Proof.
  rewrite existsb_exists. split.
  - intros (y & Hy & E). apply String.eqb_eq in E. now subst.
  - intros H. exists x. split; [assumption | apply String.eqb_refl].
Qed.

Lemma existsb_eqb_notIn (x : string) (l : list string) :
  existsb (String.eqb x) l = false <-> ~ In x l.
Proof.
  rewrite <- existsb_eqb_In. destruct (existsb _ l); intuition congruence.
Qed.

Lemma distinct_NoDup (l : list string) : distinct l = true <-> NoDup l.
Proof.
  induction l as [|x l IH]; simpl.
  - split; [constructor | reflexivity].
  - rewrite andb_true_iff, negb_true_iff, existsb_eqb_notIn, IH. split.
    + intros [H1 H2]. now constructor.
    + intros H. inversion H; auto.
Qed.

Section Keys.
Context {A : Type} (key : A -> string).

Lemma key_unique (l : list A) (a b : A) :
  NoDup (map key l) -> In a l -> In b l -> key a = key b -> a = b.
Proof.
  induction l as [|x l IH]; simpl; [tauto|].
  intros Hnd [<- | Ha] [<- | Hb] E; auto.
  - inversion Hnd; subst. exfalso. apply H1. rewrite E. now apply in_map.
  - inversion Hnd; subst. exfalso. apply H1. rewrite <- E. now apply in_map.
  - inversion Hnd; auto.
Qed.

(** In an array with distinct keys, the element that carries a key is the
    only one that does. *)
Lemma key_split_others (l1 l2 : list A) (x y : A) :
  NoDup (map key (l1 ++ x :: l2)) ->
  In y (l1 ++ l2) -> String.eqb (key y) (key x) = false.
Proof.
  intros Hnd Hy. apply String.eqb_neq. intros E.
  assert (Hx : In x (l1 ++ x :: l2)) by (apply in_elt).
  assert (Hy' : In y (l1 ++ x :: l2)).
  { apply in_app_or in Hy. apply in_or_app. simpl. tauto. }
  pose proof (key_unique _ _ _ Hnd Hy' Hx E) as ->.
  rewrite map_app in Hnd. simpl in Hnd. apply NoDup_remove_2 in Hnd.
  apply Hnd. rewrite <- map_app. now apply in_map.
Qed.

(** Deleting by key and inserting back at the recorded index. *)
Lemma delete_then_insert (k : string) (l : list A) (x : A) :
  NoDup (map key l) ->
  find (fun y => String.eqb (key y) k) l = Some x ->
  splice_insert (findIndex (fun y => String.eqb (key y) k) l) x
    (filter (fun y => negb (String.eqb (key y) k)) l) = l
  /\ nth_error l (Z.to_nat (findIndex (fun y => String.eqb (key y) k) l)) = Some x
  /\ findIndex (fun y => String.eqb (key y) k) l <> (-1)%Z.
Proof.
  intros Hnd Hf.
  destruct (find_split _ _ _ Hf) as (l1 & l2 & -> & Hx & Hl1 & Ei).
  apply String.eqb_eq in Hx. subst k. rewrite Ei.
  assert (Ho : forall y, In y (l1 ++ l2) -> String.eqb (key y) (key x) = false)
    by (intros y; now apply key_split_others).
  rewrite filter_out_single.
  - split; [|split].
    + apply splice_insert_at. rewrite relIndex_nat; [reflexivity|].
      rewrite length_app. lia.
    + rewrite Nat2Z.id, nth_error_app2, Nat.sub_diag by lia. reflexivity.
    + lia.
  - apply String.eqb_refl.
  - intros y Hy. apply Ho, in_or_app. now left.
  - intros y Hy. apply Ho, in_or_app. now right.
Qed.
End Keys.

Lemma uniqueInScope_spec (cats : list Category.t) :
  uniqueInScope cats = true ->
  NoDup (map Category.id cats) /\
  forall c, In c cats -> NoDup (map Item.id (Category.items c)).
Proof.
  unfold uniqueInScope. rewrite andb_true_iff, forallb_forall. intros [H1 H2].
  split.
  - now apply distinct_NoDup.
  - intros c Hc. apply distinct_NoDup. now apply H2.
Qed.

(** * Updates of one category's items *)

Lemma with_items_same (c : Category.t) :
  Category.with_items (Category.items c) c = c.
Proof. now destruct c. Qed.

Lemma mapItemsOf_compose (categoryId : string) (f g : list Item.t -> list Item.t)
    (l : list Category.t) :
  mapItemsOf categoryId g (mapItemsOf categoryId f l)
  = mapItemsOf categoryId (fun items => g (f items)) l.
Proof.
  unfold mapItemsOf. rewrite map_map. apply map_ext. intros c.
  destruct (catIdIs categoryId c) eqn:E.
  - unfold catIdIs in *. simpl. rewrite E. reflexivity.
  - now rewrite E.
Qed.

Lemma mapItemsOf_fixed (categoryId : string) (f : list Item.t -> list Item.t)
    (l : list Category.t) :
  (forall c, In c l -> catIdIs categoryId c = true ->
             f (Category.items c) = Category.items c) ->
  mapItemsOf categoryId f l = l.
Proof.
  intros H. apply map_fixed. intros c Hc.
  destruct (catIdIs categoryId c) eqn:E; [|reflexivity].
  rewrite (H c Hc E). apply with_items_same.
Qed.

Lemma mapItemsOf_In (categoryId : string) (f : list Item.t -> list Item.t)
    (l : list Category.t) (c' : Category.t) :
  In c' (mapItemsOf categoryId f l) ->
  exists c, In c l /\
    c' = if catIdIs categoryId c
         then Category.with_items (f (Category.items c)) c else c.
Proof.
  unfold mapItemsOf. rewrite in_map_iff. intros (c & E & Hc). eauto.
Qed.

Lemma moveIn_spec (categoryId : string) (from to : Z) (l' : list Item.t)
    (cats : list Category.t) :
  (forall c, In c cats -> catIdIs categoryId c = true ->
             arrayMove (Category.items c) from to = Some l') ->
  moveIn (Some categoryId) from to cats
  = Some (mapItemsOf categoryId (fun _ => l') cats).
Proof.
  unfold moveIn, mapItemsOf.
  induction cats as [|c cats IH]; intros H; cbn [mapM map]; [reflexivity|].
  rewrite IH by (intros; apply H; simpl; auto).
  change (idIs (Some categoryId) c) with (catIdIs categoryId c).
  destruct (catIdIs categoryId c) eqn:E; [|reflexivity].
  rewrite (H c (or_introl eq_refl) E). reflexivity.
Qed.

Lemma activeCategory_Some (s : State) (c : Category.t) :
  activeCategory s = Some c ->
  In c (categories s) /\ activeCategoryId s = Some (Category.id c).
Proof.
  unfold activeCategory. intros H. apply find_some in H. destruct H as [Hin Hid].
  split; [assumption|]. unfold idIs in Hid.
  destruct (activeCategoryId s); [|discriminate].
  apply String.eqb_eq in Hid. now subst.
Qed.

(** * Undo of each recorded operation *)

Lemma undo_handleAddItem categoryId content dueDate now s :
  restorable (AddItem categoryId content dueDate now) s = true ->
  undone s (handleAddItem categoryId content dueDate now s).
Proof.
  intros H. eexists. split; [reflexivity|]. split; [|reflexivity].
  cbn -[mapItemsOf]. rewrite mapItemsOf_compose. apply mapItemsOf_fixed. intros c Hc E.
  rewrite filter_app. cbn. rewrite String.eqb_refl. cbn. rewrite app_nil_r.
  apply filter_out_none. intros y Hy.
  cbn in H. rewrite forallb_forall in H. specialize (H c Hc).
  rewrite E in H. cbn in H. apply negb_true_iff, existsb_eqb_notIn in H.
  unfold itemIdIs. apply String.eqb_neq. intros Ey. apply H.
  rewrite <- Ey. unfold itemIds. now apply in_map.
Qed.

Lemma undo_handleAddCategory name icon now s :
  restorable (AddCategory name icon now) s = true ->
  undone s (handleAddCategory name icon now s).
Proof.
  intros H. eexists. split; [reflexivity|]. split; [|reflexivity].
  cbn. rewrite filter_app. cbn. rewrite String.eqb_refl. cbn. rewrite app_nil_r.
  apply filter_out_none. intros c Hc.
  cbn in H. apply negb_true_iff, existsb_eqb_notIn in H.
  unfold catIdIs. apply String.eqb_neq. intros Ec. apply H.
  rewrite <- Ec. unfold categoryIds. now apply in_map.
Qed.

Lemma toggle_toggle itemId i : toggle itemId (toggle itemId i) = i.
Proof.
  unfold toggle. destruct (itemIdIs itemId i) eqn:E.
  - unfold itemIdIs in *. cbn. rewrite E. destruct i; cbn.
    now rewrite negb_involutive.
  - now rewrite E.
Qed.

Lemma undo_handleToggleItem categoryId itemId s :
  undone s (handleToggleItem categoryId itemId s).
Proof.
  eexists. split; [reflexivity|]. split; [|reflexivity].
  cbn -[mapItemsOf]. rewrite mapItemsOf_compose. apply mapItemsOf_fixed. intros c _ _.
  rewrite map_map. apply map_fixed. intros i _. apply toggle_toggle.
Qed.

Lemma undo_handleDeleteCategory categoryId s :
  uniqueInScope (categories s) = true ->
  records (DeleteCategory categoryId) s = true ->
  undone s (handleDeleteCategory categoryId s).
Proof.
  intros Hu Hr. apply uniqueInScope_spec in Hu. destruct Hu as [Hnd _].
  cbn in Hr. unfold handleDeleteCategory.
  destruct (find (catIdIs categoryId) (categories s)) as [c|] eqn:Hf; [|discriminate].
  destruct (delete_then_insert Category.id categoryId _ c Hnd Hf) as (E & _ & _).
  eexists. split; [reflexivity|]. split.
  - destruct (strictEq (activeCategoryId s) categoryId); cbn; exact E.
  - destruct (strictEq (activeCategoryId s) categoryId); reflexivity.
Qed.

Lemma lookupItem_Some categoryId itemId s item index :
  lookupItem categoryId itemId s = Some (item, index) ->
  exists category,
    find (catIdIs categoryId) (categories s) = Some category /\
    find (itemIdIs itemId) (Category.items category) = Some item /\
    index = findIndex (itemIdIs itemId) (Category.items category).
Proof.
  unfold lookupItem.
  destruct (find (catIdIs categoryId) (categories s)) as [category|]; [|discriminate].
  destruct (Z.eqb_spec (findIndex (itemIdIs itemId) (Category.items category)) (-1));
    [discriminate|].
  destruct (find (itemIdIs itemId) (Category.items category)) as [it|] eqn:Hf.
  2: { apply findIndex_none in Hf. contradiction. }
  destruct (find_split _ _ _ Hf) as (l1 & l2 & El & _ & _ & Ei).
  assert (En : nth_error (Category.items category) (List.length l1) = Some it).
  { rewrite El, nth_error_app2, Nat.sub_diag by lia. reflexivity. }
  rewrite Ei, Nat2Z.id, En.
  intros H. inversion H; subst. exists category. repeat split; auto.
Qed.

Lemma undo_handleDeleteItem categoryId itemId s :
  uniqueInScope (categories s) = true ->
  records (DeleteItem categoryId itemId) s = true ->
  undone s (handleDeleteItem categoryId itemId s).
Proof.
  intros Hu Hr. apply uniqueInScope_spec in Hu. destruct Hu as [Hnd Hitems].
  cbn in Hr. unfold handleDeleteItem.
  destruct (lookupItem categoryId itemId s) as [[item index]|] eqn:Hl; [|discriminate].
  destruct (lookupItem_Some _ _ _ _ _ Hl) as (category & Hc & Hi & ->).
  eexists. split; [reflexivity|]. split; [|reflexivity].
  cbn -[mapItemsOf]. rewrite mapItemsOf_compose. apply mapItemsOf_fixed. intros c Hin E.
  assert (c = category) as ->.
  { apply find_some in Hc. destruct Hc as [Hin' E'].
    apply (key_unique Category.id (categories s)); auto.
    unfold catIdIs in *. apply String.eqb_eq in E, E'. congruence. }
  apply (delete_then_insert Item.id itemId); auto.
Qed.

Lemma find_unique {A : Type} (key : A -> string) (k : string) (l : list A) (x : A) :
  NoDup (map key l) -> In x l -> String.eqb (key x) k = true ->
  find (fun y => String.eqb (key y) k) l = Some x.
Proof.
  intros Hnd Hin E.
  destruct (find (fun y => String.eqb (key y) k) l) as [y|] eqn:Hf.
  - apply find_some in Hf. destruct Hf as [Hy Ey]. f_equal.
    apply (key_unique key l); auto.
    apply String.eqb_eq in E, Ey. congruence.
  - apply (find_none _ _ Hf) in Hin. cbn in Hin. congruence.
Qed.

Lemma find_category_unique categoryId (l : list Category.t) c :
  NoDup (map Category.id l) -> In c l -> catIdIs categoryId c = true ->
  find (catIdIs categoryId) l = Some c.
Proof. apply (find_unique Category.id). Qed.

Lemma find_item_unique itemId (l : list Item.t) i :
  NoDup (map Item.id l) -> In i l -> itemIdIs itemId i = true ->
  find (itemIdIs itemId) l = Some i.
Proof. apply (find_unique Item.id). Qed.

Lemma setNotes_restore itemId notes i :
  itemIdIs itemId i = false \/ hasNotes i = true ->
  setNotes itemId (orEmpty (Item.notes i)) (setNotes itemId notes i) = i.
Proof.
  unfold setNotes, hasNotes. intros [E | E].
  - now rewrite E, E.
  - destruct (itemIdIs itemId i) eqn:Ei.
    + unfold itemIdIs in *. cbn. rewrite Ei. destruct i as [? ? ? ? [n|] ? ?]; cbn in *.
      * reflexivity.
      * discriminate.
    + now rewrite Ei.
Qed.

Lemma undo_handleUpdateItemNotes categoryId itemId notes s :
  uniqueInScope (categories s) = true ->
  restorable (UpdateItemNotes categoryId itemId notes) s = true ->
  undone s (handleUpdateItemNotes categoryId itemId notes s).
Proof.
  intros Hu Hr. apply uniqueInScope_spec in Hu. destruct Hu as [Hnd Hitems].
  eexists. split; [reflexivity|]. split; [|reflexivity].
  cbn -[mapItemsOf]. rewrite mapItemsOf_compose.
  apply mapItemsOf_fixed. intros c Hc E.
  rewrite (find_category_unique categoryId _ c Hnd Hc E).
  rewrite map_map. apply map_fixed. intros i Hi.
  cbn in Hr. rewrite forallb_forall in Hr. specialize (Hr c Hc).
  rewrite E in Hr. cbn in Hr. rewrite forallb_forall in Hr. specialize (Hr i Hi).
  destruct (itemIdIs itemId i) eqn:Ei.
  - rewrite (find_item_unique itemId _ i (Hitems c Hc) Hi Ei).
    apply setNotes_restore. right. exact Hr.
  - unfold setNotes. now rewrite Ei, Ei.
Qed.

Lemma handleDragEnd_moves event s overId activeCat :
  NoDup (map Category.id (categories s)) ->
  over event = Some overId ->
  String.eqb (active event) overId = false ->
  activeCategory s = Some activeCat ->
  Category.items activeCat <> [] ->
  let oldIndex := findIndex (itemIdIs (active event)) (Category.items activeCat) in
  let newIndex := findIndex (itemIdIs overId) (Category.items activeCat) in
  exists items',
    arrayMove (Category.items activeCat) oldIndex newIndex = Some items' /\
    handleDragEnd event s
    = Some (setUndoAction
              (Some (ITEM_DRAG (Category.id activeCat) oldIndex newIndex))
              (setCategories
                 (fun _ => mapItemsOf (Category.id activeCat) (fun _ => items')
                             (categories s))
                 (setSelectedItemId None s))).
Proof.
  intros Hnd Ho Hne Ha Hitems oldIndex newIndex.
  destruct (activeCategory_Some _ _ Ha) as [Hin Hid].
  destruct (arrayMove_defined (Category.items activeCat) oldIndex newIndex Hitems)
    as [items' Hm]; try apply findIndex_range.
  exists items'. split; [exact Hm|].
  unfold handleDragEnd. rewrite Ho, Hne, Ha, Hid.
  unfold setCategoriesM. cbn [categories setSelectedItemId].
  rewrite (moveIn_spec _ _ _ items'); [reflexivity|].
  intros c Hc E. assert (c = activeCat) as ->; [|exact Hm].
  apply (key_unique Category.id (categories s)); auto.
  unfold catIdIs in E. now apply String.eqb_eq in E.
Qed.

Lemma undo_handleDragEnd event s :
  uniqueInScope (categories s) = true ->
  records (DragEnd event) s = true ->
  draggable s = true ->
  exists s1, handleDragEnd event s = Some s1 /\ undoAction s1 <> None /\ undone s s1.
Proof.
  intros Hu Hr Hd. apply uniqueInScope_spec in Hu. destruct Hu as [Hnd _].
  cbn in Hr. destruct (over event) as [overId|] eqn:Ho; [|discriminate].
  apply andb_true_iff in Hr. destruct Hr as [Hne Ha].
  apply negb_true_iff in Hne. unfold draggable in Hd.
  destruct (activeCategory s) as [activeCat|] eqn:Hac; [|discriminate].
  assert (Hitems : Category.items activeCat <> []).
  { intros E. rewrite E in Hd. discriminate. }
  destruct (handleDragEnd_moves event s overId activeCat Hnd Ho Hne Hac Hitems)
    as (items' & Hm & ->).
  destruct (activeCategory_Some _ _ Hac) as [Hin Hid].
  eexists. split; [reflexivity|]. split; [discriminate|].
  unfold undone, handleUndo. cbn -[mapItemsOf moveIn].
  unfold setCategoriesM. cbn -[mapItemsOf moveIn].
  rewrite (moveIn_spec _ _ _ (Category.items activeCat)).
  - eexists. split; [reflexivity|]. split; [|reflexivity].
    cbn -[mapItemsOf]. rewrite mapItemsOf_compose. apply mapItemsOf_fixed.
    intros c Hc E. f_equal. symmetry.
    apply (key_unique Category.id (categories s)); auto.
    unfold catIdIs in E. now apply String.eqb_eq in E.
  - intros c' Hc' E'.
    apply mapItemsOf_In in Hc'. destruct Hc' as (c & Hc & ->).
    assert (E : catIdIs (Category.id activeCat) c = true).
    { destruct (catIdIs (Category.id activeCat) c) eqn:E; [reflexivity|].
      congruence. }
    rewrite E. cbn.
    apply arrayMove_inverse; auto; apply findIndex_range.
Qed.

Lemma perform_records (op : Op) (s s1 : State) :
  records op s = true -> perform op s = Some s1 -> undoAction s1 <> None.
Proof.
  destruct op; cbn; intros Hr Hp.
  - inversion Hp. discriminate.
  - unfold handleDeleteItem in Hp.
    destruct (lookupItem categoryId itemId s) as [[? ?]|]; [|discriminate].
    inversion Hp. discriminate.
  - inversion Hp. discriminate.
  - inversion Hp. discriminate.
  - unfold handleDragEnd in Hp.
    destruct (over event) as [overId|]; [|discriminate].
    apply andb_true_iff in Hr. destruct Hr as [Hne Ha].
    apply negb_true_iff in Hne. rewrite Hne in Hp.
    destruct (activeCategory s) as [c|] eqn:Hc; [|discriminate].
    destruct (activeCategory_Some _ _ Hc) as [_ Hid]. rewrite Hid in Hp.
    destruct (setCategoriesM _ _); [|discriminate].
    inversion Hp. discriminate.
  - inversion Hp. discriminate.
  - unfold handleDeleteCategory in Hp.
    destruct (find (catIdIs categoryId) (categories s)); [|discriminate].
    inversion Hp. discriminate.
Qed.

(** An operation whose guard fails leaves the whole state as it was. *)
Lemma perform_unrecorded (op : Op) (s : State) :
  records op s = false -> perform op s = Some s.
Proof.
  destruct op; cbn; try discriminate; intros Hr.
  - unfold handleDeleteItem.
    now destruct (lookupItem categoryId itemId s) as [[? ?]|].
  - unfold handleDragEnd. destruct (over event) as [overId|]; [|reflexivity].
    destruct (String.eqb (active event) overId); [reflexivity|].
    cbn in Hr. now destruct (activeCategory s).
  - unfold handleDeleteCategory.
    now destruct (find (catIdIs categoryId) (categories s)).
Qed.

(** C1 (amended).  In a store whose identifiers are unique within their
    scope, every operation among [handleAddItem], [handleDeleteItem],
    [handleToggleItem], [handleUpdateItemNotes], [handleDragEnd],
    [handleAddCategory] and [handleDeleteCategory] that reaches its
    [setUndoAction] call, with a generated id that is new in its scope, a
    notes target that already has a notes string and a drag inside a
    category that has items, records an [UndoAction]; [handleUndo] on the
    state it leaves yields the categories collection the operation started
    from and clears the [UndoAction]. *)
Theorem undo_restores_categories (op : Op) (s : State) :
  uniqueInScope (categories s) = true ->
  records op s = true ->
  restorable op s = true ->
  exists s1,
    perform op s = Some s1 /\ undoAction s1 <> None /\
    exists s2,
      handleUndo s1 = Some s2 /\
      categories s2 = categories s /\ undoAction s2 = None.
Proof.
  intros Hu Hr Hx.
  assert (H : exists s1, perform op s = Some s1 /\ undone s s1).
  { destruct op; cbn [perform].
    - eexists; split; [reflexivity|]. now apply undo_handleAddItem.
    - eexists; split; [reflexivity|]. now apply undo_handleDeleteItem.
    - eexists; split; [reflexivity|]. apply undo_handleToggleItem.
    - eexists; split; [reflexivity|]. now apply undo_handleUpdateItemNotes.
    - destruct (undo_handleDragEnd event s Hu Hr Hx) as (s1 & E & _ & U). eauto.
    - eexists; split; [reflexivity|]. now apply undo_handleAddCategory.
    - eexists; split; [reflexivity|]. now apply undo_handleDeleteCategory. }
  destruct H as (s1 & Hp & U). exists s1. split; [exact Hp|]. split.
  - now apply (perform_records op s).
  - exact U.
Qed.

Lemma undo_restores_categories_witness :
  uniqueInScope (categories demoState) = true /\
  records (DeleteItem "cat-1" "item-1") demoState = true /\
  restorable (DeleteItem "cat-1" "item-1") demoState = true /\
  exists s1,
    perform (DeleteItem "cat-1" "item-1") demoState = Some s1 /\
    undoAction s1 <> None /\
    exists s2,
      handleUndo s1 = Some s2 /\
      categories s2 = categories demoState /\ undoAction s2 = None.
Proof.
  split; [reflexivity|]. split; [reflexivity|]. split; [reflexivity|].
  apply (undo_restores_categories (DeleteItem "cat-1" "item-1") demoState);
    reflexivity.
Defined.

(** C1 as stated fails: 'item-2' of the initial store has no notes; after
    [handleUpdateItemNotes] and [handleUndo] it carries the empty string. *)
Lemma undo_notes_not_restored :
  let op := UpdateItemNotes "cat-1" "item-2" "sans sel" in
  records op demoState = true /\
  exists s1 s2,
    perform op demoState = Some s1 /\
    handleUndo s1 = Some s2 /\
    undoAction s2 = None /\
    categories s2 <> categories demoState.
Proof.
  split; [reflexivity|]. eexists. eexists.
  split; [reflexivity|]. split; [reflexivity|]. split; [reflexivity|].
  cbv. intros H. discriminate H.
Qed.

(** Two items added in the same millisecond share their id, and undoing the
    second addition removes both. *)
Lemma undo_add_same_millisecond :
  let s := handleAddItem "cat-3" "Amélie" None 1793000004000 demoState in
  let op := AddItem "cat-3" "Ponette" None 1793000004000 in
  records op s = true /\
  exists s1 s2,
    perform op s = Some s1 /\
    handleUndo s1 = Some s2 /\
    List.length (allItemIds (categories s)) = 5%nat /\
    List.length (allItemIds (categories s2)) = 4%nat.
Proof.
  split; [reflexivity|]. eexists. eexists.
  split; [reflexivity|]. split; [reflexivity|]. split; reflexivity.
Qed.

(** None of the recorded operations, nor [handleUndo], touches the pending
    confirmation. *)
Lemma perform_keeps_confirmAction (op : Op) (s s1 : State) :
  perform op s = Some s1 -> confirmAction s1 = confirmAction s.
Proof.
  destruct op; cbn [perform].
  - intros [= <-]. reflexivity.
  - unfold handleDeleteItem.
    destruct (lookupItem categoryId itemId s) as [[? ?]|]; intros [= <-]; reflexivity.
  - intros [= <-]. reflexivity.
  - intros [= <-]. reflexivity.
  - unfold handleDragEnd. destruct (over event); [|now intros [= <-]].
    destruct (String.eqb (active event) s0); [now intros [= <-]|].
    destruct (activeCategory s); [|now intros [= <-]].
    destruct (activeCategoryId s); [|now intros [= <-]].
    unfold setCategoriesM. cbn [categories setSelectedItemId].
    destruct (moveIn _ _ _ _); [|discriminate]. intros [= <-]. reflexivity.
  - intros [= <-]. reflexivity.
  - unfold handleDeleteCategory.
    destruct (find (catIdIs categoryId) (categories s)); [|now intros [= <-]].
    destruct (strictEq (activeCategoryId s) categoryId); intros [= <-]; reflexivity.
Qed.

(** [handleDeleteCategory] removes every category with the given id in one
    step, whatever items it holds, and opens no confirmation. *)
Lemma handleDeleteCategory_removes (categoryId : string) (s : State) (c : Category.t) :
  find (catIdIs categoryId) (categories s) = Some c ->
  ~ In categoryId (categoryIds (categories (handleDeleteCategory categoryId s))) /\
  confirmAction (handleDeleteCategory categoryId s) = confirmAction s /\
  undoAction (handleDeleteCategory categoryId s)
  = Some (CATEGORY_DELETE c (findIndex (catIdIs categoryId) (categories s))).
Proof.
  intros Hf. unfold handleDeleteCategory. rewrite Hf.
  assert (Hout : ~ In categoryId
                     (categoryIds
                        (filter (fun c => negb (catIdIs categoryId c)) (categories s)))).
  { unfold categoryIds. rewrite in_map_iff. intros (y & Ey & Hy).
    apply filter_In in Hy. destruct Hy as [_ Hy].
    unfold catIdIs in Hy. rewrite Ey, String.eqb_refl in Hy. discriminate. }
  destruct (strictEq (activeCategoryId s) categoryId); cbn; auto.
Qed.

Lemma handleUndo_keeps_confirmAction (s s1 : State) :
  handleUndo s = Some s1 -> confirmAction s1 = confirmAction s.
Proof.
  unfold handleUndo. destruct (undoAction s) as [a|]; [|now intros [= <-]].
  destruct a; cbn [option_map]; try (intros [= <-]; reflexivity).
  unfold setCategoriesM. destruct (moveIn _ _ _ _); cbn; [|discriminate].
  intros [= <-]. reflexivity.
Qed.

(** * Drag-and-drop reordering *)

Lemma mapItemsOf_split (l1 l2 : list Category.t) (c : Category.t)
    (f : list Item.t -> list Item.t) :
  NoDup (map Category.id (l1 ++ c :: l2)) ->
  mapItemsOf (Category.id c) f (l1 ++ c :: l2)
  = l1 ++ Category.with_items (f (Category.items c)) c :: l2.
Proof.
  intros Hnd. unfold mapItemsOf. rewrite map_app. cbn [map].
  unfold catIdIs at 2. rewrite String.eqb_refl.
  assert (Ho : forall y, In y (l1 ++ l2) -> catIdIs (Category.id c) y = false).
  { intros y Hy. apply (key_split_others Category.id l1 l2 c y Hnd Hy). }
  f_equal; [|f_equal]; apply map_fixed; intros y Hy; rewrite Ho; auto;
    apply in_or_app; auto.
Qed.

Lemma wrapIndex_nat (len k : nat) : wrapIndex len (Z.of_nat k) = Z.of_nat k.
Proof. unfold wrapIndex. destruct (Z.ltb_spec (Z.of_nat k) 0); [lia | reflexivity]. Qed.

(** Moving the element at [k] to [j]: it sits at [j] afterwards and the
    other elements keep their relative order. *)
Lemma arrayMove_places {A : Type} (l : list A) (k j : nat) (x : A) :
  nth_error l k = Some x ->
  (j < List.length l)%nat ->
  exists l1 l2 r1 r2,
    l = l1 ++ x :: l2 /\ List.length l1 = k /\
    r1 ++ r2 = l1 ++ l2 /\ List.length r1 = j /\
    arrayMove l (Z.of_nat k) (Z.of_nat j) = Some (r1 ++ x :: r2).
Proof.
  intros Hk Hj.
  assert (Hkl : (k < List.length l)%nat) by (apply nth_error_Some; congruence).
  assert (Hne : l <> []) by (intros ->; cbn in Hj; lia).
  destruct (arrayMove_shape l (Z.of_nat k) (Z.of_nat j) Hne)
    as (l1 & x0 & l2 & r1 & r2 & El & Er & H1 & H2 & E);
    try (unfold position; lia).
  rewrite wrapIndex_nat in H1, H2.
  assert (x0 = x) as ->.
  { rewrite El in Hk. rewrite nth_error_app2 in Hk by lia.
    replace (k - List.length l1)%nat with 0%nat in Hk by lia. cbn in Hk. congruence. }
  exists l1, l2, r1, r2. repeat split; auto; lia.
Qed.

Lemma find_by_id (itemId : string) (l : list Item.t) :
  In itemId (map Item.id l) -> exists x, find (itemIdIs itemId) l = Some x.
Proof.
  intros Hin. destruct (find (itemIdIs itemId) l) as [x|] eqn:E; [now exists x|].
  apply in_map_iff in Hin. destruct Hin as (y & Ey & Hy).
  apply (find_none _ _ E) in Hy. unfold itemIdIs in Hy.
  rewrite Ey, String.eqb_refl in Hy. discriminate.
Qed.

(** C4 (amended).  In a store with pairwise distinct category ids, a drag
    whose [active] and [over] ids are distinct ids of items of the active
    category replaces the items of the active category by a permutation of
    them, of the same length, in which the dragged item sits at the index
    the drop target had, and leaves every other category as it was. *)
Theorem drag_reorder_is_permutation (event : DragEndEvent) (s : State)
    (overId : string) (activeCat : Category.t) :
  distinct (categoryIds (categories s)) = true ->
  over event = Some overId ->
  active event <> overId ->
  activeCategory s = Some activeCat ->
  In (active event) (itemIds activeCat) ->
  In overId (itemIds activeCat) ->
  exists s1 items' before after dragged,
    handleDragEnd event s = Some s1 /\
    categories s = before ++ activeCat :: after /\
    categories s1 = before ++ Category.with_items items' activeCat :: after /\
    Permutation (Category.items activeCat) items' /\
    List.length items' = List.length (Category.items activeCat) /\
    find (itemIdIs (active event)) (Category.items activeCat) = Some dragged /\
    nth_error items'
      (Z.to_nat (findIndex (itemIdIs overId) (Category.items activeCat)))
    = Some dragged.
Proof.
  intros Hd Ho Hne Ha Hin1 Hin2.
  apply distinct_NoDup in Hd. unfold categoryIds in Hd.
  apply String.eqb_neq in Hne.
  destruct (find_by_id _ _ Hin1) as [dragged Hfa].
  destruct (find_by_id _ _ Hin2) as [target Hfo].
  destruct (find_split _ _ _ Hfa) as (a1 & a2 & Ea & _ & _ & Eia).
  destruct (find_split _ _ _ Hfo) as (o1 & o2 & Eo & _ & _ & Eio).
  assert (Hitems : Category.items activeCat <> []).
  { rewrite Ea. now destruct a1. }
  destruct (handleDragEnd_moves event s overId activeCat Hd Ho Hne Ha Hitems)
    as (items' & Hm & E).
  destruct (activeCategory_Some _ _ Ha) as [Hin _].
  destruct (in_split _ _ Hin) as (before & after & Ec).
  exists (setUndoAction
            (Some (ITEM_DRAG (Category.id activeCat)
                     (findIndex (itemIdIs (active event)) (Category.items activeCat))
                     (findIndex (itemIdIs overId) (Category.items activeCat))))
            (setCategories
               (fun _ => mapItemsOf (Category.id activeCat) (fun _ => items')
                           (categories s))
               (setSelectedItemId None s))),
    items', before, after, dragged.
  split; [exact E|]. split; [exact Ec|]. split.
  { cbn -[mapItemsOf]. rewrite Ec. apply mapItemsOf_split. now rewrite <- Ec. }
  assert (P : Permutation (Category.items activeCat) items').
  { apply (arrayMove_Permutation _ _ _ _ (findIndex_range _ _)
             (findIndex_range _ _) Hm). }
  split; [exact P|]. split; [symmetry; now apply Permutation_length|].
  split; [exact Hfa|].
  rewrite Eia, Eio in Hm.
  assert (Hk : nth_error (Category.items activeCat) (List.length a1) = Some dragged).
  { rewrite Ea, nth_error_app2, Nat.sub_diag by lia. reflexivity. }
  assert (Hj : (List.length o1 < List.length (Category.items activeCat))%nat).
  { rewrite Eo, length_app. cbn. lia. }
  destruct (arrayMove_places _ _ _ _ Hk Hj)
    as (l1 & l2 & r1 & r2 & El & Hl1 & Er & Hr1 & Hm').
  rewrite Hm' in Hm. injection Hm as <-.
  rewrite Eio, Nat2Z.id, <- Hr1, nth_error_app2, Nat.sub_diag by lia. reflexivity.
Qed.

Lemma drag_reorder_is_permutation_witness :
  exists s1 items' before after dragged,
    handleDragEnd (mkDragEnd "item-1" (Some "item-2")) demoState = Some s1 /\
    categories demoState = before ++ demoSource :: after /\
    categories s1 = before ++ Category.with_items items' demoSource :: after /\
    Permutation (Category.items demoSource) items' /\
    List.length items' = List.length (Category.items demoSource) /\
    find (itemIdIs "item-1") (Category.items demoSource) = Some dragged /\
    nth_error items'
      (Z.to_nat (findIndex (itemIdIs "item-2") (Category.items demoSource)))
    = Some dragged.
Proof.
  apply (drag_reorder_is_permutation (mkDragEnd "item-1" (Some "item-2"))
           demoState "item-2").
  - reflexivity.
  - reflexivity.
  - discriminate.
  - reflexivity.
  - cbn. auto.
  - cbn. auto.
Defined.

(** C4 as stated fails: two [handleAddCategory] calls that read the same
    millisecond give the lists 'Disques' and 'Livres' the same id, and a drag
    in the active list 'Disques' reorders 'Livres' as well. *)
Lemma drag_reorders_list_sharing_an_id :
  let s := handleAddItem "cat-1793000002000" "B" None 1793000002002
             (handleAddItem "cat-1793000002000" "A" None 1793000002001
                (handleAddCategory "Livres" "FileText" 1793000002000
                   (handleAddCategory "Disques" "Music" 1793000002000 demoState))) in
  let event := mkDragEnd "item-1793000002001" (Some "item-1793000002002") in
  option_map Category.name (activeCategory s) = Some "Disques" /\
  option_map itemIds (activeCategory s)
  = Some ["item-1793000002001"; "item-1793000002002"] /\
  option_map Category.name (nth_error (categories s) 4) = Some "Livres" /\
  option_map itemIds (nth_error (categories s) 4)
  = Some ["item-1793000002001"; "item-1793000002002"] /\
  exists s1,
    handleDragEnd event s = Some s1 /\
    option_map Category.name (nth_error (categories s1) 4) = Some "Livres" /\
    option_map itemIds (nth_error (categories s1) 4)
    = Some ["item-1793000002002"; "item-1793000002001"].
Proof.
  vm_compute. repeat split. eexists. repeat split.
Qed.

(** * The single undo record and its expiry *)





(** Waiting in two stretches is waiting once for their sum. *)
Lemma elapse_add (a b : N) (s : State) :
  elapse b (elapse a s) = elapse (a + b) s.
Proof.
  unfold elapse at 2 3. destruct (undoTimer s) as [r|] eqn:Hr.
  - destruct (N.leb_spec r a); destruct (N.leb_spec r (a + b)); try lia.
    + reflexivity.
    + unfold elapse. cbn [undoTimer].
      destruct (N.leb_spec (r - a) b); [reflexivity | lia].
    + unfold elapse. cbn [undoTimer].
      destruct (N.leb_spec (r - a) b); [lia|]. cbn. do 2 f_equal. lia.
  - unfold elapse. now rewrite Hr.
Qed.



(** * Further properties of the panel handlers *)

(** X1.  A drag between two distinct items of the active category, in a
    store with distinct category ids, puts the dragged item at the index
    the drop target had, and keeps the other items of the category in
    their relative order. *)
Theorem drag_lands_on_target (event : DragEndEvent) (s : State)
    (overId : string) (activeCat : Category.t) (dragged target : Item.t) :
  distinct (categoryIds (categories s)) = true ->
  over event = Some overId ->
  active event <> overId ->
  activeCategory s = Some activeCat ->
  find (itemIdIs (active event)) (Category.items activeCat) = Some dragged ->
  find (itemIdIs overId) (Category.items activeCat) = Some target ->
  exists s1 items' l1 l2 r1 r2,
    handleDragEnd event s = Some s1 /\
    activeCategory s1 = Some (Category.with_items items' activeCat) /\
    nth_error items'
      (Z.to_nat (findIndex (itemIdIs overId) (Category.items activeCat)))
    = Some dragged /\
    Category.items activeCat = l1 ++ dragged :: l2 /\
    items' = r1 ++ dragged :: r2 /\
    r1 ++ r2 = l1 ++ l2.
Proof.
  intros Hd Ho Hne Ha Hfa Hfo.
  apply distinct_NoDup in Hd. unfold categoryIds in Hd.
  apply String.eqb_neq in Hne.
  destruct (find_split _ _ _ Hfa) as (a1 & a2 & Ea & _ & _ & Eia).
  destruct (find_split _ _ _ Hfo) as (o1 & o2 & Eo & _ & _ & Eio).
  assert (Hitems : Category.items activeCat <> []).
  { rewrite Ea. now destruct a1. }
  destruct (handleDragEnd_moves event s overId activeCat Hd Ho Hne Ha Hitems)
    as (items' & Hm & E).
  rewrite Eia, Eio in Hm.
  assert (Hk : nth_error (Category.items activeCat) (List.length a1) = Some dragged).
  { rewrite Ea, nth_error_app2, Nat.sub_diag by lia. reflexivity. }
  assert (Hj : (List.length o1 < List.length (Category.items activeCat))%nat).
  { rewrite Eo, length_app. cbn. lia. }
  destruct (arrayMove_places _ _ _ _ Hk Hj)
    as (l1 & l2 & r1 & r2 & El & Hl1 & Er & Hr1 & Hm').
  rewrite Hm' in Hm. injection Hm as <-.
  destruct (activeCategory_Some _ _ Ha) as [Hin Hid].
  destruct (in_split _ _ Hin) as (before & after & Ec).
  eexists. exists (r1 ++ dragged :: r2), l1, l2, r1, r2.
  split; [exact E|]. split; [|split; [|repeat split; assumption]].
  - unfold activeCategory. cbn -[mapItemsOf]. rewrite Hid, Ec.
    rewrite mapItemsOf_split by (now rewrite <- Ec).
    rewrite Ec in Hd.
    assert (Hb : forall y, In y before -> idIs (Some (Category.id activeCat)) y = false).
    { intros y Hy.
      apply (key_split_others Category.id before after activeCat y Hd).
      apply in_or_app. now left. }
    clear - Hb. induction before as [|b before IH]; cbn [find app].
    + unfold idIs. cbn. now rewrite String.eqb_refl.
    + rewrite (Hb b (or_introl eq_refl)). apply IH. intros y Hy. apply Hb. now right.
  - rewrite Eio, Nat2Z.id, <- Hr1, nth_error_app2, Nat.sub_diag by lia. reflexivity.
Qed.

(** * The interpreter of the model's reply *)

Section ReplyFacts.

Variable toLowerCase : string -> string.
Variable trim : string -> string.
Variable stripFence : string -> string.
Variable JSON_parse : string -> option Result.t.

Set Default Proof Using "Type".

(** ** Category ids under the actions *)

Lemma updFirst_shape {A : Type} (p : A -> bool) (f : A -> A) (l : list A) :
  (find p l = None /\ updFirst p f l = l) \/
  (exists l1 x l2,
      l = l1 ++ x :: l2 /\ find p l = Some x /\
      (forall y, In y l1 -> p y = false) /\
      updFirst p f l = l1 ++ f x :: l2).
Proof.
  induction l as [|a l IH]; cbn.
  - now left.
  - destruct (p a) eqn:E.
    + right. exists [], a, l. cbn. repeat split; auto. intros y [].
    + destruct IH as [[Hn Hu] | (l1 & x & l2 & -> & Hf & Hl1 & Hu)].
      * left. now rewrite Hu.
      * right. exists (a :: l1), x, l2. cbn. rewrite Hu. repeat split; auto.
        intros y [<- | Hy]; auto.
Qed.

Lemma updFirst_ids (p : Category.t -> bool) (f : Category.t -> Category.t)
    (l : list Category.t) :
  (forall c, Category.id (f c) = Category.id c) ->
  categoryIds (updFirst p f l) = categoryIds l.
Proof.
  intros Hf. unfold categoryIds. induction l as [|a l IH]; cbn; [reflexivity|].
  destruct (p a); cbn; [now rewrite Hf | now rewrite IH].
Qed.

Lemma mapItemsOf_ids categoryId f (l : list Category.t) :
  categoryIds (mapItemsOf categoryId f l) = categoryIds l.
Proof.
  unfold categoryIds, mapItemsOf. rewrite map_map. apply map_ext.
  intros c. now destruct (catIdIs categoryId c).
Qed.

Lemma addOne_ids stamp item (l : list Category.t) :
  categoryIds (addOne toLowerCase stamp item l) = categoryIds l.
Proof. unfold addOne. now apply updFirst_ids. Qed.

Lemma addAll_ids stamps items : forall k (l : list Category.t),
  categoryIds (addAll toLowerCase stamps k items l) = categoryIds l.
Proof.
  induction items as [|it items IH]; intros k l; cbn; [reflexivity|].
  now rewrite IH, addOne_ids.
Qed.

Lemma updateOne_ids item (l : list Category.t) :
  categoryIds (updateOne toLowerCase item l) = categoryIds l.
Proof. unfold updateOne. now apply updFirst_ids. Qed.

Lemma deleteOne_ids item (l : list Category.t) :
  categoryIds (deleteOne toLowerCase item l) = categoryIds l.
Proof. unfold deleteOne. now apply updFirst_ids. Qed.

Lemma fold_left_ids (g : ReplyItem.t -> list Category.t -> list Category.t)
    (items : list ReplyItem.t) :
  (forall it l, categoryIds (g it l) = categoryIds l) ->
  forall l, categoryIds (fold_left (fun acc it => g it acc) items l) = categoryIds l.
Proof.
  intros Hg. induction items as [|it items IH]; intros l; cbn; [reflexivity|].
  now rewrite IH, Hg.
Qed.

Lemma rename_ids name newName (l : list Category.t) :
  categoryIds (map (fun c => if named toLowerCase name c
                             then Category.with_name newName c else c) l)
  = categoryIds l.
Proof.
  unfold categoryIds. rewrite map_map. apply map_ext. intros c.
  now destruct (named toLowerCase name c).
Qed.

(** ** The reply and the render it was computed in *)

(** The [switch] reads the categories and the active-category id only. *)
Lemma runAction_reads result rd (s s' : State) :
  categories s' = categories s ->
  activeCategoryId s' = activeCategoryId s ->
  runAction toLowerCase result rd s' = runAction toLowerCase result rd s.
Proof.
  intros Ec Ea.
  unfold runAction, runAdd, runUpdate, runCreateCategory, runRenameCategory,
    runDeleteCategory, runMergeCategories, runDelete, unchanged, activeCategory.
  now rewrite Ec, Ea.
Qed.

(** The reply that reaches the store it was computed from. *)
Lemma applyResultFrom_same snapshot result rd (s : State) :
  sameStore snapshot s ->
  applyResultFrom toLowerCase snapshot result rd s
  = applyResult toLowerCase result rd s.
Proof.
  intros [Ec Ea]. unfold applyResultFrom, applyResult.
  now rewrite (runAction_reads result rd snapshot (setUndoAction None s)).
Qed.

Lemma applyResultFrom_inv snapshot result rd (s s1 : State) :
  applyResultFrom toLowerCase snapshot result rd s = Some s1 ->
  (exists newCategories call,
      runAction toLowerCase result rd snapshot = Done (newCategories, call) /\
      categories s1 = newCategories /\
      activeCategoryId s1
      = match call with Some v => v | None => activeCategoryId s end) \/
  (runAction toLowerCase result rd snapshot = Thrown /\
   categories s1 = categories s /\
   activeCategoryId s1 = activeCategoryId s).
Proof.
  unfold applyResultFrom.
  destruct (runAction toLowerCase result rd snapshot)
    as [[newCategories call]| |]; [| |discriminate].
  - intros [= <-]. left. exists newCategories, call.
    split; [reflexivity|]. destruct call; split; reflexivity.
  - intros [= <-]. right. split; [reflexivity|]. split; reflexivity.
Qed.

Lemma outcome_stored : outcomeStored toLowerCase.
Proof.
  intros snapshot result rd s newCategories call Hr.
  unfold applyResultFrom. rewrite Hr. eexists. split; [reflexivity|].
  destruct call; split; reflexivity.
Qed.

(** [handleSendMessage] is [beforeAwait] followed at once by [afterAwait]
    on the render that sent the message. *)
Lemma handleSendMessage_parts text response rd (s : State) :
  handleSendMessage toLowerCase trim stripFence JSON_parse text response rd s
  = if awaits trim text s
    then afterAwait toLowerCase trim stripFence JSON_parse s response rd
           (beforeAwait trim text rd s)
    else Some (beforeAwait trim text rd s).
Proof.
  unfold handleSendMessage, awaits, beforeAwait, afterAwait.
  destruct (String.eqb (trim text) "" || isLoadingAI s); [reflexivity|].
  cbn [negb andb aiRef setIsLoadingAI setMessages].
  destruct (aiRef s); cbn [negb]; [|reflexivity].
  destruct response as [|[replyText|]]; reflexivity.
Qed.

(** ** The active-category reference *)

Lemma existsb_catIdIs (i : string) (cats : list Category.t) :
  existsb (catIdIs i) cats = true <-> In i (categoryIds cats).
Proof.
  unfold categoryIds. rewrite existsb_exists, in_map_iff. split.
  - intros (c & Hc & E). exists c. split; [|assumption].
    unfold catIdIs in E. now apply String.eqb_eq in E.
  - intros (c & E & Hc). exists c. split; [assumption|].
    unfold catIdIs. now apply String.eqb_eq.
Qed.

Lemma validActive_spec (s : State) :
  validActive s = true <-> refersTo (activeCategoryId s) (categories s).
Proof.
  unfold validActive, refersTo. destruct (activeCategoryId s).
  - apply existsb_catIdIs.
  - tauto.
Qed.

Lemma refersTo_firstId (cats : list Category.t) : refersTo (firstId cats) cats.
Proof. destruct cats; cbn; auto. Qed.

Lemma reselectEffect_valid (s : State) : validActive (reselectEffect s) = true.
Proof.
  unfold reselectEffect.
  destruct (falsy (activeCategoryId s)) eqn:Ef; cbn [orb].
  - apply validActive_spec. cbn. apply refersTo_firstId.
  - destruct (existsb (idIs (activeCategoryId s)) (categories s)) eqn:Ee; cbn [negb].
    + unfold validActive. destruct (activeCategoryId s) as [i|]; [|reflexivity].
      rewrite <- Ee. apply eq_true_iff_eq. rewrite !existsb_exists.
      split; intros (c & Hc & E); exists c; (split; [assumption|]);
        unfold catIdIs, idIs in *; exact E.
    + apply validActive_spec. cbn. apply refersTo_firstId.
Qed.

Lemma handleAddCategory_valid name icon now s :
  validActive (handleAddCategory name icon now s) = true.
Proof.
  apply validActive_spec. cbn. unfold categoryIds. rewrite map_app.
  apply in_or_app. right. cbn. auto.
Qed.

Lemma filter_keeps_id (p : Category.t -> bool) (cats : list Category.t) (i : string) :
  (forall c, In c cats -> Category.id c = i -> p c = true) ->
  In i (categoryIds cats) -> In i (categoryIds (filter p cats)).
Proof.
  unfold categoryIds. rewrite !in_map_iff. intros Hp (c & E & Hc).
  exists c. split; [assumption|]. apply filter_In. auto.
Qed.

Lemma handleDeleteCategory_valid categoryId s :
  validActive s = true -> validActive (handleDeleteCategory categoryId s) = true.
Proof.
  rewrite !validActive_spec. intros Hv. unfold handleDeleteCategory.
  destruct (find (catIdIs categoryId) (categories s)); [|exact Hv].
  destruct (strictEq (activeCategoryId s) categoryId) eqn:E; cbn.
  - apply refersTo_firstId.
  - unfold refersTo in *. destruct (activeCategoryId s) as [i|]; [|exact I].
    apply filter_keeps_id; [|exact Hv].
    intros c _ Ec. unfold catIdIs. rewrite Ec. cbn in E. now rewrite E.
Qed.

Lemma handleAddItem_valid categoryId content dueDate now s :
  validActive s = true ->
  validActive (handleAddItem categoryId content dueDate now s) = true.
Proof.
  rewrite !validActive_spec. unfold refersTo.
  cbn -[mapItemsOf categoryIds]. now rewrite mapItemsOf_ids.
Qed.

Lemma refersTo_ids (v : option string) (l l' : list Category.t) :
  categoryIds l' = categoryIds l -> refersTo v l -> refersTo v l'.
Proof. unfold refersTo. intros E. destruct v; [now rewrite E | auto]. Qed.

Lemma runDeleteCategory_refers result s newCategories call :
  refersTo (activeCategoryId s) (categories s) ->
  runDeleteCategory toLowerCase result s = Done (newCategories, call) ->
  refersTo (match call with Some v => v | None => activeCategoryId s end)
           newCategories.
Proof.
  intros Hv. unfold runDeleteCategory, unchanged.
  destruct (Result.category_details result) as [details|].
  2: { intros H. inversion H; subst. exact Hv. }
  destruct (CategoryDetails.name details) as [name|]; [|discriminate].
  assert (Hkeep : forall activeCat,
             activeCategory s = Some activeCat ->
             named toLowerCase name activeCat = false ->
             refersTo (activeCategoryId s)
               (filter (fun c => negb (named toLowerCase name c)) (categories s))).
  { intros activeCat Ha En. destruct (activeCategory_Some _ _ Ha) as [Hin Hid].
    rewrite Hid. cbn. unfold categoryIds. apply in_map_iff.
    exists activeCat. split; [reflexivity|]. apply filter_In. split; [assumption|].
    now rewrite En. }
  destruct (activeCategory s) as [activeCat|] eqn:Ha.
  - destruct (named toLowerCase name activeCat) eqn:En; intros H; inversion H; subst.
    + apply refersTo_firstId.
    + now apply (Hkeep activeCat).
  - intros H. inversion H; subst.
    unfold refersTo in *. destruct (activeCategoryId s) as [i|] eqn:Hid; [|exact I].
    exfalso. unfold activeCategory in Ha. rewrite Hid in Ha.
    unfold categoryIds in Hv. apply in_map_iff in Hv. destruct Hv as (c & E & Hc).
    apply (find_none _ _ Ha) in Hc. cbn in Hc. rewrite E, String.eqb_refl in Hc.
    discriminate.
Qed.

Lemma runAction_refers result rd s newCategories call :
  actionIs "merge_categories" result = false ->
  refersTo (activeCategoryId s) (categories s) ->
  runAction toLowerCase result rd s = Done (newCategories, call) ->
  refersTo (match call with Some v => v | None => activeCategoryId s end)
           newCategories.
Proof.
  intros Hm Hv. unfold actionIs in Hm. unfold runAction.
  destruct (String.eqb (Result.action result) "add").
  { unfold runAdd, unchanged. destruct (Result.items result);
      intros H; inversion H; subst; [|exact Hv].
    eapply refersTo_ids; [apply addAll_ids | exact Hv]. }
  destruct (String.eqb (Result.action result) "update").
  { unfold runUpdate, unchanged. destruct (Result.items result);
      intros H; inversion H; subst; [|exact Hv].
    eapply refersTo_ids; [|exact Hv].
    apply (fold_left_ids (updateOne toLowerCase)). apply updateOne_ids. }
  destruct (String.eqb (Result.action result) "create_category").
  { unfold runCreateCategory, unchanged.
    destruct (Result.category_details result) as [details|];
      [|intros H; inversion H; subst; exact Hv].
    destruct (truthyName (CategoryDetails.name details)) as [name|];
      [|intros H; inversion H; subst; exact Hv].
    destruct (negb (existsb (named toLowerCase name) (categories s)));
      intros H; inversion H; subst; [|exact Hv].
    cbn. unfold categoryIds. rewrite map_app. apply in_or_app. right. cbn. auto. }
  destruct (String.eqb (Result.action result) "rename_category").
  { unfold runRenameCategory, unchanged.
    destruct (Result.category_details result) as [details|];
      [|intros H; inversion H; subst; exact Hv].
    destruct (categories s) as [|c0 cats] eqn:Ec;
      [intros H; inversion H; subst; exact Hv|].
    destruct (CategoryDetails.name details) as [name|]; [|discriminate].
    rewrite <- Ec in Hv |- *.
    destruct (CategoryDetails.newName details) as [newName|].
    - intros [= <- <-].
      eapply refersTo_ids; [apply rename_ids | exact Hv].
    - destruct (existsb (named toLowerCase name) (categories s)); [discriminate|].
      intros H. inversion H; subst. exact Hv. }
  destruct (String.eqb (Result.action result) "delete_category").
  { now apply runDeleteCategory_refers. }
  rewrite Hm.
  destruct (String.eqb (Result.action result) "delete").
  { unfold runDelete, unchanged.
    destruct (Result.filter result) as [f|].
    - destruct (categories s) as [|c0 cats] eqn:Ec;
        [intros H; inversion H; subst; exact Hv|].
      destruct (Filter.categoryName f) as [n|]; [|discriminate].
      rewrite <- Ec in Hv |- *.
      intros [= <- <-].
      eapply refersTo_ids; [|exact Hv]. now apply updFirst_ids.
    - destruct (Result.items result); intros H; inversion H; subst; [|exact Hv].
      eapply refersTo_ids; [|exact Hv].
      apply (fold_left_ids (deleteOne toLowerCase)). apply deleteOne_ids. }
  unfold unchanged. intros H. inversion H; subst. exact Hv.
Qed.

Lemma applyResult_valid result rd s s1 :
  actionIs "merge_categories" result = false ->
  validActive s = true ->
  applyResult toLowerCase result rd s = Some s1 ->
  validActive s1 = true.
Proof.
  rewrite !validActive_spec. intros Hm Hv. unfold applyResult.
  destruct (runAction toLowerCase result rd (setUndoAction None s))
    as [[newCategories call]| |] eqn:Hr; [| |discriminate].
  - apply runAction_refers in Hr; [|assumption|exact Hv].
    intros H. inversion H; subst. destruct call; exact Hr.
  - intros H. inversion H; subst. exact Hv.
Qed.

(** C6 (amended).  Whatever operation has just updated the store (a
    recording handler, the choice of a category, [handleUndo], the reply
    to a message sent from any earlier render, the reselection effect),
    once the reselection effect has run the active-category id is null or
    the id of a stored category.  Directly after [handleAddCategory],
    [handleDeleteCategory] and the effect itself it already is, when it was
    so before; and so it is directly after a reply other than
    [merge_categories] that reaches a store whose categories and active
    category have not changed since the message was sent. *)
Theorem active_reference_resolves (o : Operation) (s s1 : State) :
  operate toLowerCase o s = Some s1 ->
  validActive (reselectEffect s1) = true /\
  (validActive s = true -> keepsReference o s -> validActive s1 = true).
Proof.
  intros Hop. split; [apply reselectEffect_valid|].
  intros Hv Hk. destruct o as [op|id| |snapshot result rd|]; cbn in Hk, Hop.
  - destruct op; try contradiction; injection Hop as <-.
    + apply handleAddCategory_valid.
    + now apply handleDeleteCategory_valid.
  - contradiction.
  - contradiction.
  - destruct Hk as [Hm Hsame].
    rewrite (applyResultFrom_same snapshot result rd s Hsame) in Hop.
    now apply (applyResult_valid result rd s).
  - injection Hop as <-. apply reselectEffect_valid.
Qed.

(** ** Identifier uniqueness under the creating events *)

Lemma allItemIds_app (l1 l2 : list Category.t) :
  allItemIds (l1 ++ l2) = allItemIds l1 ++ allItemIds l2.
Proof. unfold allItemIds. apply flat_map_app. Qed.

(** Appending an item to one category adds its id to the ids of the store. *)
Lemma allItemIds_append (l1 l2 : list Category.t) (c : Category.t) (i : Item.t) :
  Permutation
    (allItemIds (l1 ++ Category.with_items (Category.items c ++ [i]) c :: l2))
    (Item.id i :: allItemIds (l1 ++ c :: l2)).
Proof.
  rewrite !allItemIds_app. unfold allItemIds. cbn [flat_map].
  unfold itemIds at 2 4. cbn [Category.items Category.with_items].
  rewrite map_app. cbn [map]. rewrite <- !app_assoc. cbn [app].
  rewrite !app_assoc. symmetry. apply Permutation_middle.
Qed.

Lemma categoryIds_replace (l1 l2 : list Category.t) (c : Category.t)
    (items : list Item.t) :
  categoryIds (l1 ++ Category.with_items items c :: l2) = categoryIds (l1 ++ c :: l2).
Proof. unfold categoryIds. now rewrite !map_app. Qed.

Lemma uniqueIds_spec (cats : list Category.t) :
  uniqueIds cats = true <-> NoDup (categoryIds cats) /\ NoDup (allItemIds cats).
Proof. unfold uniqueIds. now rewrite andb_true_iff, !distinct_NoDup. Qed.

Lemma unused_spec (i : string) (ids : list string) :
  unused i ids = true <-> ~ In i ids.
Proof. unfold unused. now rewrite negb_true_iff, existsb_eqb_notIn. Qed.

Lemma append_item_unique (l1 l2 : list Category.t) (c : Category.t) (i : Item.t) :
  ~ In (Item.id i) (allItemIds (l1 ++ c :: l2)) ->
  uniqueIds (l1 ++ c :: l2) = true ->
  uniqueIds (l1 ++ Category.with_items (Category.items c ++ [i]) c :: l2) = true.
Proof.
  rewrite !uniqueIds_spec. intros Hfresh [Hc Hi]. split.
  - now rewrite categoryIds_replace.
  - eapply Permutation_NoDup.
    + symmetry. apply allItemIds_append.
    + now constructor.
Qed.

Lemma find_existsb {A : Type} (p : A -> bool) (l : list A) (x : A) :
  find p l = Some x -> existsb p l = true.
Proof.
  intros H. apply find_some in H. apply existsb_exists. exists x. exact H.
Qed.

Lemma addOne_unique stamp itemToAdd (cats : list Category.t) :
  negb (existsb (named toLowerCase (ReplyItem.categoryName itemToAdd)) cats)
  || unused (stampId stamp) (allItemIds cats) = true ->
  uniqueIds cats = true ->
  uniqueIds (addOne toLowerCase stamp itemToAdd cats) = true.
Proof.
  intros Hf Hu. unfold addOne.
  match goal with
  | |- uniqueIds (updFirst ?p ?f cats) = true =>
      destruct (updFirst_shape p f cats)
        as [[_ ->] | (l1 & c & l2 & Ec & Hfind & _ & ->)]; [exact Hu|]
  end.
  rewrite (find_existsb _ _ _ Hfind) in Hf. cbn [negb orb] in Hf.
  apply unused_spec in Hf. subst cats.
  now apply append_item_unique.
Qed.

Lemma addAll_unique stamps items : forall k (cats : list Category.t),
  addAllFresh toLowerCase stamps k items cats = true ->
  uniqueIds cats = true ->
  uniqueIds (addAll toLowerCase stamps k items cats) = true.
Proof.
  induction items as [|it items IH]; intros k cats Hf Hu; cbn in *; [exact Hu|].
  apply andb_true_iff in Hf. destruct Hf as [H1 H2].
  apply IH; [exact H2|]. now apply addOne_unique.
Qed.

Lemma mapItemsOf_absent categoryId f (l : list Category.t) :
  (forall c, In c l -> catIdIs categoryId c = false) ->
  mapItemsOf categoryId f l = l.
Proof.
  intros H. apply map_fixed. intros c Hc. now rewrite (H c Hc).
Qed.

Lemma handleAddItem_unique categoryId content dueDate now s :
  unused (template "item-" now) (allItemIds (categories s)) = true ->
  uniqueIds (categories s) = true ->
  uniqueIds (categories (handleAddItem categoryId content dueDate now s)) = true.
Proof.
  intros Hf Hu. apply unused_spec in Hf. cbn -[mapItemsOf].
  destruct (find (catIdIs categoryId) (categories s)) as [c|] eqn:Hfind.
  - apply find_some in Hfind. destruct Hfind as [Hin E].
    unfold catIdIs in E. apply String.eqb_eq in E. subst categoryId.
    destruct (in_split _ _ Hin) as (l1 & l2 & Ec). rewrite Ec in *.
    rewrite mapItemsOf_split.
    + now apply append_item_unique.
    + apply uniqueIds_spec in Hu. apply Hu.
  - rewrite mapItemsOf_absent; [exact Hu|].
    intros c Hc. apply (find_none _ _ Hfind c Hc).
Qed.

Lemma append_category_unique (cats : list Category.t) (c : Category.t) :
  Category.items c = [] ->
  unused (Category.id c) (categoryIds cats) = true ->
  uniqueIds cats = true ->
  uniqueIds (cats ++ [c]) = true.
Proof.
  rewrite !uniqueIds_spec, unused_spec. intros He Hf [Hc Hi]. split.
  - unfold categoryIds in *. rewrite map_app. cbn.
    eapply Permutation_NoDup; [apply Permutation_cons_append|].
    now constructor.
  - rewrite allItemIds_app. unfold allItemIds at 2. cbn. unfold itemIds.
    rewrite He. cbn. now rewrite app_nil_r.
Qed.

Lemma step_unique ev s :
  creates ev = true ->
  uniqueIds (categories s) = true ->
  freshFor toLowerCase ev s = true ->
  exists s1, step toLowerCase ev s = Some s1 /\ uniqueIds (categories s1) = true.
Proof.
  intros Hc Hu Hf. destruct ev; cbn in Hc; try discriminate.
  - eexists. split; [reflexivity|]. cbn. cbn in Hf.
    now apply append_category_unique.
  - eexists. split; [reflexivity|]. cbn in Hf. now apply handleAddItem_unique.
  - cbn [step]. unfold applyResult, runAction. cbn [freshFor] in Hf.
    unfold actionIs in *.
    destruct (String.eqb (Result.action result) "add") eqn:Ea.
    + unfold runAdd, unchanged. cbn [categories setUndoAction].
      destruct (Result.items result) as [items|].
      * eexists. split; [reflexivity|]. cbn. now apply addAll_unique.
      * eexists. split; [reflexivity|]. exact Hu.
    + cbn [orb] in Hc. rewrite Hc in Hf. apply String.eqb_eq in Hc.
      rewrite Hc. cbn. unfold runCreateCategory, unchanged.
      cbn [categories setUndoAction].
      destruct (Result.category_details result) as [details|];
        [|eexists; split; [reflexivity | exact Hu]].
      destruct (truthyName (CategoryDetails.name details)) as [name|];
        [|eexists; split; [reflexivity | exact Hu]].
      destruct (negb (existsb (named toLowerCase name) (categories s)));
        [|eexists; split; [reflexivity | exact Hu]].
      eexists. split; [reflexivity|]. cbn. now apply append_category_unique.
Qed.

(** C5 (amended).  Starting from a store whose category ids are pairwise
    distinct and whose item ids are pairwise distinct, every sequence of
    [handleAddCategory], [handleAddItem] and parsed [add] or
    [create_category] replies in which each id derived from the clock (and,
    for [add], the random number) is unused in the store when it is
    generated runs to a state where category ids are pairwise distinct and
    item ids are pairwise distinct. *)
Theorem creation_keeps_ids_unique (evs : list Event) (s : State) :
  uniqueIds (categories s) = true ->
  forallb creates evs = true ->
  freshAlong toLowerCase evs s = true ->
  exists s', run toLowerCase evs s = Some s' /\ uniqueIds (categories s') = true.
Proof.
  revert s. induction evs as [|ev evs IH]; intros s Hu Hc Hf.
  - exists s. split; [reflexivity | exact Hu].
  - cbn in Hc, Hf. apply andb_true_iff in Hc, Hf.
    destruct Hc as [Hc1 Hc2]. destruct Hf as [Hf1 Hf2].
    destruct (step_unique ev s Hc1 Hu Hf1) as (s1 & Hs & Hu1).
    rewrite Hs in Hf2. destruct (IH s1 Hu1 Hc2 Hf2) as (s' & Hr & Hu').
    exists s'. split; [|exact Hu']. cbn. now rewrite Hs.
Qed.

(** ** Name resolution *)

Lemma sameName_ciEq (stored given : string) :
  sameName toLowerCase stored given = true <-> ciEq toLowerCase stored given.
Proof. unfold sameName, ciEq. apply String.eqb_eq. Qed.

Lemma sameName_not_ciEq (stored given : string) :
  sameName toLowerCase stored given = false <-> ~ ciEq toLowerCase stored given.
Proof. unfold sameName, ciEq. apply String.eqb_neq. Qed.

(** [find] by name returns the first category whose name is the given one
    up to letter case. *)
Lemma find_named_first (given : string) (cats : list Category.t) (c : Category.t) :
  find (named toLowerCase given) cats = Some c <->
  exists l1 l2, cats = l1 ++ c :: l2 /\ firstNamed toLowerCase given l1 c.
Proof.
  unfold firstNamed. split.
  - intros Hf. destruct (find_split _ _ _ Hf) as (l1 & l2 & E & Hc & Hl1 & _).
    exists l1, l2. split; [exact E|]. split.
    + now apply sameName_ciEq.
    + intros y Hy. apply sameName_not_ciEq. now apply Hl1.
  - intros (l1 & l2 & -> & Hc & Hl1).
    induction l1 as [|a l1 IH]; cbn.
    + apply sameName_ciEq in Hc. unfold named. now rewrite Hc.
    + assert (Ha : named toLowerCase given a = false).
      { apply sameName_not_ciEq. apply Hl1. now left. }
      rewrite Ha. apply IH. intros y Hy. apply Hl1. now right.
Qed.

Lemma find_named_none (given : string) (cats : list Category.t) :
  find (named toLowerCase given) cats = None <-> noneNamed toLowerCase given cats.
Proof.
  unfold noneNamed. split.
  - intros Hf y Hy. apply sameName_not_ciEq. apply (find_none _ _ Hf y Hy).
  - intros Hn. destruct (find (named toLowerCase given) cats) as [c|] eqn:Hf;
      [|reflexivity].
    apply find_some in Hf. destruct Hf as [Hin Hc].
    apply sameName_ciEq in Hc. now apply Hn in Hin.
Qed.

Lemma findNamed_found (given : string) (cats : list Category.t) (c : Category.t) :
  find (named toLowerCase given) cats = Some c ->
  findNamed toLowerCase (Some given) cats = Done (Some c).
Proof. destruct cats; [discriminate|]. cbn [findNamed]. now intros ->. Qed.

(** ** Merging two categories *)

Lemma merge_lists (cats : list Category.t) (source dest : Category.t) :
  NoDup (map Category.id cats) ->
  In source cats -> In dest cats -> source <> dest ->
  exists l1 l2 l3,
    (cats = l1 ++ source :: l2 ++ dest :: l3 /\
     filter (fun c => negb (catIdIs (Category.id source) c))
       (map (fun c => if catIdIs (Category.id dest) c
                      then Category.with_items
                             (Category.items c ++ Category.items source) c
                      else c) cats)
     = l1 ++ l2 ++
       Category.with_items (Category.items dest ++ Category.items source) dest :: l3)
    \/
    (cats = l1 ++ dest :: l2 ++ source :: l3 /\
     filter (fun c => negb (catIdIs (Category.id source) c))
       (map (fun c => if catIdIs (Category.id dest) c
                      then Category.with_items
                             (Category.items c ++ Category.items source) c
                      else c) cats)
     = l1 ++
       Category.with_items (Category.items dest ++ Category.items source) dest
       :: l2 ++ l3).
Proof.
  intros Hnd Hs Hd Hne.
  set (f := fun c => if catIdIs (Category.id dest) c
                     then Category.with_items
                            (Category.items c ++ Category.items source) c
                     else c).
  set (keep := fun c => negb (catIdIs (Category.id source) c)).
  assert (Hmap : forall l, (forall y, In y l -> catIdIs (Category.id dest) y = false) ->
                           map f l = l).
  { intros l H. apply map_fixed. intros y Hy. unfold f. now rewrite (H y Hy). }
  assert (Hkeep : forall l, (forall y, In y l -> catIdIs (Category.id source) y = false) ->
                            filter keep l = l).
  { intros l H. now apply filter_out_none. }
  assert (Hfd : f dest
                = Category.with_items (Category.items dest ++ Category.items source) dest).
  { unfold f, catIdIs. now rewrite String.eqb_refl. }
  assert (Hks : keep source = false).
  { unfold keep, catIdIs. now rewrite String.eqb_refl. }
  destruct (in_split _ _ Hs) as (a & b & Ecats). subst cats.
  apply in_app_or in Hd. cbn in Hd. destruct Hd as [Hd | [Hd | Hd]];
    [| congruence |].
  - (* the destination comes first *)
    destruct (in_split _ _ Hd) as (a1 & a2 & Ea). subst a.
    exists a1, a2, b. right. rewrite <- app_assoc. cbn [app]. split; [reflexivity|].
    rewrite <- app_assoc in Hnd. cbn [app] in Hnd.
    assert (Hod : forall y, In y (a1 ++ a2 ++ source :: b) ->
                            catIdIs (Category.id dest) y = false).
    { intros y Hy. apply (key_split_others Category.id a1 (a2 ++ source :: b) dest y Hnd Hy). }
    assert (Hos : forall y, In y ((a1 ++ dest :: a2) ++ b) ->
                            catIdIs (Category.id source) y = false).
    { intros y Hy. apply (key_split_others Category.id (a1 ++ dest :: a2) b source y);
        [now rewrite <- app_assoc | exact Hy]. }
    assert (Hfs : f source = source).
    { unfold f. rewrite Hod; [reflexivity|]. apply in_or_app. right.
      apply in_or_app. right. now left. }
    assert (Hkd : keep (Category.with_items
                          (Category.items dest ++ Category.items source) dest) = true).
    { unfold keep. change (negb (catIdIs (Category.id source) dest) = true).
      rewrite Hos; [reflexivity|]. apply in_or_app. left. apply in_elt. }
    rewrite map_app. cbn [map]. rewrite map_app. cbn [map].
    rewrite Hfd, Hfs.
    rewrite (Hmap a1) by (intros y Hy; apply Hod; rewrite !in_app_iff; cbn; tauto).
    rewrite (Hmap a2) by (intros y Hy; apply Hod; rewrite !in_app_iff; cbn; tauto).
    rewrite (Hmap b) by (intros y Hy; apply Hod; rewrite !in_app_iff; cbn; tauto).
    rewrite filter_app. cbn [filter]. rewrite Hkd. rewrite filter_app. cbn [filter].
    rewrite Hks.
    rewrite (Hkeep a1) by (intros y Hy; apply Hos; rewrite !in_app_iff; cbn; tauto).
    rewrite (Hkeep a2) by (intros y Hy; apply Hos; rewrite !in_app_iff; cbn; tauto).
    rewrite (Hkeep b) by (intros y Hy; apply Hos; rewrite !in_app_iff; cbn; tauto).
    reflexivity.
  - (* the source comes first *)
    destruct (in_split _ _ Hd) as (b1 & b2 & Eb). subst b.
    exists a, b1, b2. left. split; [reflexivity|].
    assert (Hos : forall y, In y (a ++ b1 ++ dest :: b2) ->
                            catIdIs (Category.id source) y = false).
    { intros y Hy. apply (key_split_others Category.id a (b1 ++ dest :: b2) source y Hnd Hy). }
    assert (Hod : forall y, In y ((a ++ source :: b1) ++ b2) ->
                            catIdIs (Category.id dest) y = false).
    { intros y Hy. apply (key_split_others Category.id (a ++ source :: b1) b2 dest y);
        [rewrite <- app_assoc; exact Hnd | exact Hy]. }
    assert (Hfs : f source = source).
    { unfold f. rewrite Hod; [reflexivity|]. apply in_or_app. left. apply in_elt. }
    assert (Hkd : keep (Category.with_items
                          (Category.items dest ++ Category.items source) dest) = true).
    { unfold keep. change (negb (catIdIs (Category.id source) dest) = true).
      rewrite Hos; [reflexivity|]. apply in_or_app. right. apply in_elt. }
    rewrite map_app. cbn [map]. rewrite map_app. cbn [map].
    rewrite Hfd, Hfs.
    rewrite (Hmap a) by (intros y Hy; apply Hod; rewrite !in_app_iff; cbn; tauto).
    rewrite (Hmap b1) by (intros y Hy; apply Hod; rewrite !in_app_iff; cbn; tauto).
    rewrite (Hmap b2) by (intros y Hy; apply Hod; rewrite !in_app_iff; cbn; tauto).
    rewrite filter_app. cbn [filter]. rewrite Hks. rewrite filter_app. cbn [filter].
    rewrite Hkd.
    rewrite (Hkeep a) by (intros y Hy; apply Hos; rewrite !in_app_iff; cbn; tauto).
    rewrite (Hkeep b1) by (intros y Hy; apply Hos; rewrite !in_app_iff; cbn; tauto).
    rewrite (Hkeep b2) by (intros y Hy; apply Hos; rewrite !in_app_iff; cbn; tauto).
    reflexivity.
Qed.

Lemma resolvesTo_find (given : string) (cats : list Category.t) (c : Category.t) :
  resolvesTo toLowerCase given cats c <->
  find (named toLowerCase given) cats = Some c.
Proof. unfold resolvesTo. symmetry. apply find_named_first. Qed.

(** C3 (amended).  In a store with pairwise distinct category ids whose
    categories are still those of the render that sent the message, when
    the source and destination names of a [merge_categories] reply resolve,
    up to letter case, to two categories whose names differ up to letter
    case, the application of the reply yields a store in which the
    destination holds its old items followed by the items of the source,
    the source is gone, and every other category is where and as it was. *)
Theorem merge_moves_all_items (result : Result.t) (details : CategoryDetails.t)
    (sourceName destinationName : string) (source dest : Category.t)
    (rd : Readings) (snapshot s : State) :
  categories s = categories snapshot ->
  distinct (categoryIds (categories s)) = true ->
  Result.action result = "merge_categories" ->
  Result.category_details result = Some details ->
  CategoryDetails.sourceName details = Some sourceName ->
  CategoryDetails.destinationName details = Some destinationName ->
  resolvesTo toLowerCase sourceName (categories s) source ->
  resolvesTo toLowerCase destinationName (categories s) dest ->
  ~ ciEq toLowerCase (Category.name source) (Category.name dest) ->
  exists s1 l1 l2 l3,
    applyResultFrom toLowerCase snapshot result rd s = Some s1 /\
    ((categories s = l1 ++ source :: l2 ++ dest :: l3 /\
      categories s1
      = l1 ++ l2 ++
        Category.with_items (Category.items dest ++ Category.items source) dest :: l3)
     \/
     (categories s = l1 ++ dest :: l2 ++ source :: l3 /\
      categories s1
      = l1 ++
        Category.with_items (Category.items dest ++ Category.items source) dest
        :: l2 ++ l3)).
Proof.
  intros Hsame Hd Ha Hdet Hsn Hdn Hs Hdst Hne.
  apply distinct_NoDup in Hd. unfold categoryIds in Hd.
  apply resolvesTo_find in Hs, Hdst.
  assert (Hneq : source <> dest) by (intros ->; now apply Hne).
  pose proof (find_some _ _ Hs) as [Hins _].
  pose proof (find_some _ _ Hdst) as [Hind _].
  destruct (merge_lists (categories s) source dest Hd Hins Hind Hneq)
    as (l1 & l2 & l3 & Hshape).
  unfold applyResultFrom, runAction. rewrite Ha. cbn [String.eqb Ascii.eqb Bool.eqb].
  unfold runMergeCategories. rewrite Hdet, Hsn, Hdn, <- Hsame.
  rewrite (findNamed_found _ _ _ Hs), (findNamed_found _ _ _ Hdst).
  eexists. exists l1, l2, l3. split; [reflexivity|].
  cbn [categories setCategories setMessages setIsLoadingAI setUndoAction].
  exact Hshape.
Qed.

(** ** Each action resolves its names up to letter case *)

Lemma updFirst_none {A : Type} (p : A -> bool) (f : A -> A) (l : list A) :
  (forall y, In y l -> p y = false) -> updFirst p f l = l.
Proof.
  induction l as [|a l IH]; intros H; cbn; [reflexivity|].
  rewrite (H a (or_introl eq_refl)). f_equal. apply IH. intros y Hy. apply H. now right.
Qed.

Lemma updFirst_first {A : Type} (p : A -> bool) (f : A -> A) (l1 l2 : list A) (x : A) :
  p x = true -> (forall y, In y l1 -> p y = false) ->
  updFirst p f (l1 ++ x :: l2) = l1 ++ f x :: l2.
Proof.
  intros Hx. induction l1 as [|a l1 IH]; intros H; cbn.
  - now rewrite Hx.
  - rewrite (H a (or_introl eq_refl)). f_equal. apply IH. intros y Hy. apply H. now right.
Qed.

Lemma noneNamed_named (given : string) (cats : list Category.t) :
  noneNamed toLowerCase given cats ->
  forall y, In y cats -> named toLowerCase given y = false.
Proof. intros H y Hy. apply sameName_not_ciEq. now apply H. Qed.

Lemma firstNamed_named (given : string) (l1 : list Category.t) (c : Category.t) :
  firstNamed toLowerCase given l1 c ->
  named toLowerCase given c = true /\
  forall y, In y l1 -> named toLowerCase given y = false.
Proof.
  intros [Hc Hl1]. split.
  - now apply sameName_ciEq.
  - intros y Hy. apply sameName_not_ciEq. now apply Hl1.
Qed.

(** The [switch] on a known action. *)
Lemma runAction_case result rd (s : State) :
  (Result.action result = "add" ->
   runAction toLowerCase result rd s = runAdd toLowerCase result rd s) /\
  (Result.action result = "update" ->
   runAction toLowerCase result rd s = runUpdate toLowerCase result s) /\
  (Result.action result = "create_category" ->
   runAction toLowerCase result rd s = runCreateCategory toLowerCase result rd s) /\
  (Result.action result = "rename_category" ->
   runAction toLowerCase result rd s = runRenameCategory toLowerCase result s) /\
  (Result.action result = "delete_category" ->
   runAction toLowerCase result rd s = runDeleteCategory toLowerCase result s) /\
  (Result.action result = "merge_categories" ->
   runAction toLowerCase result rd s = runMergeCategories toLowerCase result s) /\
  (Result.action result = "delete" ->
   runAction toLowerCase result rd s = runDelete toLowerCase result s).
Proof.
  unfold runAction. repeat split; intros ->; reflexivity.
Qed.

Lemma add_resolves : addResolves toLowerCase.
Proof.
  split.
  { intros result items rd s Ha Hi.
    rewrite (proj1 (runAction_case result rd s) Ha).
    unfold runAdd. now rewrite Hi. }
  split; [intros stamps k itemToAdd rest cats; split; reflexivity|].
  intros stamp itemToAdd cats. unfold addOne. split.
  - intros Hn. apply updFirst_none. now apply noneNamed_named.
  - intros l1 c l2 -> Hf. apply firstNamed_named in Hf. destruct Hf as [Hc Hl1].
    now rewrite updFirst_first.
Qed.

Lemma update_resolves : updateResolves toLowerCase.
Proof.
  split.
  { intros result items rd s Ha Hi.
    rewrite (proj1 (proj2 (runAction_case result rd s)) Ha).
    unfold runUpdate. now rewrite Hi. }
  intros itemToUpdate cats. unfold updateOne. split.
  - intros Hn. apply updFirst_none. now apply noneNamed_named.
  - intros l1 c l2 -> Hf. apply firstNamed_named in Hf. destruct Hf as [Hc Hl1].
    rewrite updFirst_first by assumption. split.
    + intros Hn. rewrite updFirst_none.
      * now rewrite with_items_same.
      * intros y Hy. apply sameName_not_ciEq. now apply Hn.
    + intros i1 x i2 Ei [Hx Hi1]. rewrite Ei. rewrite updFirst_first; [reflexivity| |].
      * now apply sameName_ciEq.
      * intros y Hy. apply sameName_not_ciEq. now apply Hi1.
Qed.

Lemma delete_resolves : deleteResolves toLowerCase.
Proof.
  split.
  { intros result items rd s Ha Hf Hi.
    rewrite (proj2 (proj2 (proj2 (proj2 (proj2 (proj2
               (runAction_case result rd s)))))) Ha).
    unfold runDelete. now rewrite Hf, Hi. }
  intros itemToDelete cats. unfold deleteOne. split.
  - intros Hn. apply updFirst_none. now apply noneNamed_named.
  - intros l1 c l2 -> Hf. apply firstNamed_named in Hf. destruct Hf as [Hc Hl1].
    rewrite updFirst_first by assumption.
    eexists. split; [reflexivity|].
    intros i. rewrite filter_In, negb_true_iff. unfold contentIs.
    now rewrite sameName_not_ciEq.
Qed.

Lemma nonempty_named (given : string) (l1 l2 : list Category.t) (c : Category.t)
    (s : State) :
  categories s = l1 ++ c :: l2 -> exists c0 rest, categories s = c0 :: rest.
Proof. intros ->. destruct l1; cbn; eauto. Qed.

Lemma filter_resolves : filterResolves toLowerCase.
Proof.
  intros result filter_ categoryName rd s Ha Hf Hn.
  rewrite (proj2 (proj2 (proj2 (proj2 (proj2 (proj2
             (runAction_case result rd s)))))) Ha).
  unfold runDelete. rewrite Hf, Hn. split.
  - intros Hnone. unfold unchanged. destruct (categories s) eqn:Ec; [reflexivity|].
    rewrite <- Ec in *. rewrite updFirst_none; [reflexivity|].
    now apply noneNamed_named.
  - intros l1 c l2 E Hfirst. apply firstNamed_named in Hfirst.
    destruct Hfirst as [Hc Hl1].
    destruct (nonempty_named categoryName l1 l2 c s E) as (c0 & rest & Ec).
    rewrite Ec at 1. rewrite E. now rewrite updFirst_first.
Qed.

Lemma rename_resolves : renameResolves toLowerCase.
Proof.
  intros result details name newName rd s Ha Hd Hn Hnn.
  rewrite (proj1 (proj2 (proj2 (proj2 (runAction_case result rd s)))) Ha).
  unfold runRenameCategory, unchanged. rewrite Hd, Hn, Hnn.
  exists (map (fun c => if named toLowerCase name c
                        then Category.with_name newName c else c) (categories s)).
  split.
  - destruct (categories s); reflexivity.
  - induction (categories s) as [|c cats IH]; cbn; constructor; [|exact IH].
    destruct (named toLowerCase name c) eqn:E.
    + apply sameName_ciEq in E. split; [reflexivity | contradiction].
    + apply sameName_not_ciEq in E. split; [contradiction | reflexivity].
Qed.

Lemma deleteCategory_resolves : deleteCategoryResolves toLowerCase.
Proof.
  intros result details name rd s Ha Hd Hn.
  rewrite (proj1 (proj2 (proj2 (proj2 (proj2 (runAction_case result rd s))))) Ha).
  unfold runDeleteCategory. rewrite Hd, Hn.
  assert (Hin : forall c,
             In c (filter (fun c => negb (named toLowerCase name c)) (categories s)) <->
             In c (categories s) /\ ~ ciEq toLowerCase (Category.name c) name).
  { intros c. rewrite filter_In, negb_true_iff. unfold named.
    now rewrite sameName_not_ciEq. }
  destruct (activeCategory s) as [activeCat|].
  - destruct (named toLowerCase name activeCat) eqn:E; eexists; eexists;
      (split; [reflexivity|]); (split; [exact Hin|]).
    + apply sameName_ciEq in E. split; [|discriminate].
      intros _. now exists activeCat.
    + apply sameName_not_ciEq in E. split; [now intros []|].
      intros (ac & [= <-] & Hm). contradiction.
  - eexists; eexists; (split; [reflexivity|]); (split; [exact Hin|]).
    split; [now intros [] | intros (ac & Hac & _); discriminate].
Qed.

Lemma merge_resolves : mergeResolves toLowerCase.
Proof.
  intros result details sourceName destinationName rd s Ha Hd Hsn Hdn.
  rewrite (proj1 (proj2 (proj2 (proj2 (proj2 (proj2
             (runAction_case result rd s)))))) Ha).
  unfold runMergeCategories, unchanged. rewrite Hd, Hsn, Hdn. split.
  - intros Hnone. unfold findNamed.
    destruct (categories s) eqn:Ec; [reflexivity|]. rewrite <- Ec in *.
    destruct Hnone as [Hn | Hn]; apply find_named_none in Hn; rewrite Hn.
    + reflexivity.
    + now destruct (find (named toLowerCase sourceName) (categories s)).
  - intros source dest Hs Hdst. apply resolvesTo_find in Hs, Hdst.
    now rewrite (findNamed_found _ _ _ Hs), (findNamed_found _ _ _ Hdst).
Qed.

Lemma create_resolves : createResolves toLowerCase.
Proof.
  intros result details name rd s Ha Hd Hn Hne.
  rewrite (proj1 (proj2 (proj2 (runAction_case result rd s))) Ha).
  unfold runCreateCategory, unchanged. rewrite Hd, Hn. cbn [truthyName].
  apply String.eqb_neq in Hne. rewrite Hne. split.
  - intros Hnone.
    assert (E : existsb (named toLowerCase name) (categories s) = false).
    { destruct (existsb (named toLowerCase name) (categories s)) eqn:E; [|reflexivity].
      apply existsb_exists in E. destruct E as (c & Hc & Hm).
      apply sameName_ciEq in Hm. now apply Hnone in Hc. }
    rewrite E. reflexivity.
  - intros (c & Hc & Hm).
    assert (E : existsb (named toLowerCase name) (categories s) = true).
    { apply existsb_exists. exists c. split; [assumption|]. now apply sameName_ciEq. }
    rewrite E. reflexivity.
Qed.

(** C8.  Every action of a reply that targets a category or an item by name
    resolves it by comparing lower-case forms: a name of the reply matches
    a stored name exactly when their lower-case forms are equal; when
    [result.action] is [add], [update], [delete] (by items and by filter),
    [rename_category], [delete_category], [merge_categories] or
    [create_category], the [switch] acts on the categories and items so
    matched, and on no other; and what it computes is what the handler
    stores. *)
Theorem names_resolved_case_insensitively :
  (forall stored given,
      sameName toLowerCase stored given = true <->
      toLowerCase stored = toLowerCase given) /\
  addResolves toLowerCase /\
  updateResolves toLowerCase /\
  deleteResolves toLowerCase /\
  filterResolves toLowerCase /\
  renameResolves toLowerCase /\
  deleteCategoryResolves toLowerCase /\
  mergeResolves toLowerCase /\
  createResolves toLowerCase /\
  outcomeStored toLowerCase.
Proof.
  split; [exact sameName_ciEq|].
  split; [exact add_resolves|].
  split; [exact update_resolves|].
  split; [exact delete_resolves|].
  split; [exact filter_resolves|].
  split; [exact rename_resolves|].
  split; [exact deleteCategory_resolves|].
  split; [exact merge_resolves|].
  split; [exact create_resolves | exact outcome_stored].
Qed.

(** ** Failures and actions without a case *)

(** C9.  When the message passes the guards of [handleSendMessage] and the
    request fails inside the [try] block (in particular when the text of
    the response does not parse as JSON, or when applying the parsed action
    throws), the handler returns normally: after the user's message it
    appends exactly one message, the fixed apology, sent by 'ai'; the
    categories and the active category are untouched. *)
Theorem failed_reply_yields_apology (text : string) (response : Response)
    (rd : Readings) (s : State) :
  sendable trim text s ->
  replyFails toLowerCase trim stripFence JSON_parse response rd s ->
  exists s1,
    handleSendMessage toLowerCase trim stripFence JSON_parse text response rd s
    = Some s1 /\
    messages s1 = messages s ++ [userMessageOf text rd; apologyOf rd] /\
    sender (apologyOf rd) = ai /\
    categories s1 = categories s /\
    activeCategoryId s1 = activeCategoryId s /\
    isLoadingAI s1 = false.
Proof.
  intros (Ht & Hl & Hai) Hfail.
  unfold handleSendMessage. rewrite Ht, Hl. cbn [orb].
  cbn [aiRef setIsLoadingAI setMessages]. rewrite Hai. cbn [negb].
  assert (Hcatch : forall s0,
             messages s0 = messages s ++ [userMessageOf text rd] ->
             categories s0 = categories s ->
             activeCategoryId s0 = activeCategoryId s ->
             exists s1, Some (catchBlock rd s0) = Some s1 /\
               messages s1 = messages s ++ [userMessageOf text rd; apologyOf rd] /\
               sender (apologyOf rd) = ai /\
               categories s1 = categories s /\
               activeCategoryId s1 = activeCategoryId s /\
               isLoadingAI s1 = false).
  { intros s0 Hm Hc Ha. eexists. split; [reflexivity|].
    cbn. rewrite Hm. unfold append. rewrite <- app_assoc. cbn. auto. }
  destruct response as [|[replyText|]]; try (apply Hcatch; reflexivity).
  cbn [replyFails] in Hfail.
  destruct (JSON_parse (stripFence (trim replyText))) as [result|];
    [|apply Hcatch; reflexivity].
  unfold applyResult.
  rewrite (runAction_reads result rd s) by reflexivity.
  rewrite Hfail. apply Hcatch; reflexivity.
Qed.

Lemma unhandled_action (action : string) :
  existsb (String.eqb action) handledActions = false ->
  String.eqb action "add" = false /\
  String.eqb action "update" = false /\
  String.eqb action "create_category" = false /\
  String.eqb action "rename_category" = false /\
  String.eqb action "delete_category" = false /\
  String.eqb action "merge_categories" = false /\
  String.eqb action "delete" = false.
Proof.
  clear. unfold handledActions. cbn [existsb]. rewrite !orb_false_iff. tauto.
Qed.

(** X20.  When the response parses to a result whose action has no case
    in the [switch] ('query', 'chat', 'confirm_add' or any other value),
    the rest of [handleSendMessage] stores the categories of the render
    that sent the message, so the categories of the store are unchanged
    when nothing has changed them since.  It leaves the active category,
    the selected item and the pending confirmation of the store as they
    are, clears the [UndoAction], appends the reply and ends the loading. *)
Theorem unhandled_action_stores_sent_categories (replyText : string)
    (result : Result.t) (rd : Readings) (snapshot s : State) :
  JSON_parse (stripFence (trim replyText)) = Some result ->
  existsb (String.eqb (Result.action result)) handledActions = false ->
  exists s1,
    afterAwait toLowerCase trim stripFence JSON_parse snapshot
      (Answer (Some replyText)) rd s = Some s1 /\
    categories s1 = categories snapshot /\
    (categories s = categories snapshot -> categories s1 = categories s) /\
    activeCategoryId s1 = activeCategoryId s /\
    selectedItemId s1 = selectedItemId s /\
    confirmAction s1 = confirmAction s /\
    isLoadingAI s1 = false /\
    undoAction s1 = None /\
    undoTimer s1 = None /\
    messages s1 = messages s ++ [aiMessageOf result rd].
Proof.
  intros Hp Hu.
  destruct (unhandled_action _ Hu) as (H1 & H2 & H3 & H4 & H5 & H6 & H7).
  unfold afterAwait. cbv zeta. rewrite Hp. unfold applyResultFrom, runAction.
  rewrite H1, H2, H3, H4, H5, H6, H7. unfold unchanged.
  eexists. split; [reflexivity|]. cbn.
  split; [reflexivity|]. split; [intros E; symmetry; exact E|].
  repeat split; reflexivity.
Qed.

(** ** What a reply never does *)

(** A reply that is applied leaves no undo record behind. *)
Lemma applyResult_clears_undo result rd (s s1 : State) :
  applyResult toLowerCase result rd s = Some s1 ->
  undoAction s1 = None /\ undoTimer s1 = None.
Proof.
  unfold applyResult.
  destruct (runAction toLowerCase result rd (setUndoAction None s))
    as [[newCategories [v|]]| |]; try discriminate; intros [= <-]; split; reflexivity.
Qed.

(** [handleSendMessage] never opens a confirmation. *)
Lemma handleSendMessage_keeps_confirmAction text response rd (s s1 : State) :
  handleSendMessage toLowerCase trim stripFence JSON_parse text response rd s
  = Some s1 ->
  confirmAction s1 = confirmAction s.
Proof.
  unfold handleSendMessage.
  destruct (String.eqb (trim text) "" || isLoadingAI s); [now intros [= <-]|].
  cbn [aiRef setIsLoadingAI setMessages].
  destruct (negb (aiRef s)); [now intros [= <-]|].
  destruct response as [|[replyText|]]; try (intros [= <-]; reflexivity).
  destruct (JSON_parse (stripFence (trim replyText))) as [result|];
    [|intros [= <-]; reflexivity].
  unfold applyResult.
  destruct (runAction toLowerCase result rd _)
    as [[newCategories [v|]]| |]; try discriminate; intros [= <-]; reflexivity.
Qed.

(** ** Further properties of the interpreter *)

(** X12.  A message that is blank, or sent while a request is in flight, is
    dropped: the state is left as it is.  Any other message gets exactly one
    answer: whatever the request yields, the handler appends the user's
    message and then one message sent by 'ai', and leaves the loading flag
    down. *)
Theorem every_send_gets_one_answer (text : string) (response : Response)
    (rd : Readings) (s : State) :
  (String.eqb (trim text) "" = true \/ isLoadingAI s = true ->
   handleSendMessage toLowerCase trim stripFence JSON_parse text response rd s
   = Some s) /\
  (String.eqb (trim text) "" = false -> isLoadingAI s = false ->
   forall s1,
     handleSendMessage toLowerCase trim stripFence JSON_parse text response rd s
     = Some s1 ->
     exists answer,
       sender answer = ai /\
       messages s1 = messages s ++ [userMessageOf text rd; answer] /\
       isLoadingAI s1 = false).
Proof.
  split.
  - intros H. unfold handleSendMessage.
    destruct H as [-> | ->]; [reflexivity | now rewrite orb_true_r].
  - intros Ht Hl s1. unfold handleSendMessage. rewrite Ht, Hl. cbn [orb].
    cbn [aiRef setIsLoadingAI setMessages].
    assert (Happ : forall l (a b : ChatMessage), append b (append a l) = l ++ [a; b]).
    { intros l a b. unfold append. now rewrite <- app_assoc. }
    destruct (negb (aiRef s)).
    { intros [= <-]. eexists. split; [|split; [apply Happ | reflexivity]]. reflexivity. }
    destruct response as [|[replyText|]];
      try (intros [= <-]; exists (apologyOf rd);
           split; [reflexivity | split; [apply Happ | reflexivity]]).
    destruct (JSON_parse (stripFence (trim replyText))) as [result|].
    2: { intros [= <-]. exists (apologyOf rd).
         split; [reflexivity | split; [apply Happ | reflexivity]]. }
    unfold applyResult.
    destruct (runAction toLowerCase result rd _) as [[newCategories [v|]]| |];
      try discriminate; intros [= <-].
    + exists (aiMessageOf result rd).
      split; [reflexivity | split; [apply Happ | reflexivity]].
    + exists (aiMessageOf result rd).
      split; [reflexivity | split; [apply Happ | reflexivity]].
    + exists (apologyOf rd).
      split; [reflexivity | split; [apply Happ | reflexivity]].
Qed.

(** X13.  The pending undo record is lost exactly when the response parses:
    a request that is rejected, has no text or does not parse leaves the
    record and the categories as they are; a response that parses clears
    the record, even when its action has no case or throws. *)
Theorem undo_record_lost_when_parsed (text : string) (response : Response)
    (rd : Readings) (s s1 : State) :
  sendable trim text s ->
  handleSendMessage toLowerCase trim stripFence JSON_parse text response rd s
  = Some s1 ->
  match response with
  | Answer (Some replyText) =>
      match JSON_parse (stripFence (trim replyText)) with
      | Some _ => undoAction s1 = None /\ undoTimer s1 = None
      | None => undoAction s1 = undoAction s /\ categories s1 = categories s
      end
  | _ => undoAction s1 = undoAction s /\ categories s1 = categories s
  end.
Proof.
  intros (Ht & Hl & Hai). unfold handleSendMessage. rewrite Ht, Hl. cbn [orb].
  cbn [aiRef setIsLoadingAI setMessages]. rewrite Hai. cbn [negb].
  destruct response as [|[replyText|]]; try (intros [= <-]; split; reflexivity).
  destruct (JSON_parse (stripFence (trim replyText))) as [result|];
    [|intros [= <-]; split; reflexivity].
  apply applyResult_clears_undo.
Qed.

Lemma updFirst_same {A : Type} (p : A -> bool) (f : A -> A) (l : list A) :
  (forall x, In x l -> f x = x) -> updFirst p f l = l.
Proof.
  induction l as [|a l IH]; intros H; cbn; [reflexivity|].
  destruct (p a).
  - now rewrite (H a (or_introl eq_refl)).
  - f_equal. apply IH. intros x Hx. apply H. now right.
Qed.

(** X14.  A [delete] reply with a filter that carries a category name but
    no completion status removes nothing.  With a status, the first
    category of that name keeps exactly its items of the other status. *)
Theorem bulk_delete_by_status (result : Result.t) (filter_ : Filter.t)
    (categoryName : string) (s : State) :
  Result.filter result = Some filter_ ->
  Filter.categoryName filter_ = Some categoryName ->
  (Filter.completed filter_ = None ->
   runDelete toLowerCase result s = Done (categories s, None)) /\
  (forall status l1 c l2,
      Filter.completed filter_ = Some status ->
      categories s = l1 ++ c :: l2 ->
      firstNamed toLowerCase categoryName l1 c ->
      exists kept,
        runDelete toLowerCase result s
        = Done (l1 ++ Category.with_items kept c :: l2, None) /\
        forall i, In i kept <->
                  In i (Category.items c) /\ Item.completed i = negb status).
Proof.
  intros Hf Hn. split.
  - intros Hc. unfold runDelete, unchanged. rewrite Hf, Hn, Hc.
    destruct (categories s) as [|c0 rest] eqn:Ec; [reflexivity|].
    rewrite <- Ec. rewrite updFirst_same; [reflexivity|].
    intros c _. cbn [completedDiffers].
    rewrite forallb_filter_id; [apply with_items_same|].
    apply forallb_forall. reflexivity.
  - intros status l1 c l2 Hc Ec Hfirst.
    apply firstNamed_named in Hfirst. destruct Hfirst as [Hm Hl1].
    destruct (nonempty_named categoryName l1 l2 c s Ec) as (c0 & rest & E0).
    eexists. split.
    { unfold runDelete. rewrite Hf, Hn, Hc.
      rewrite E0 at 1. rewrite Ec, updFirst_first by assumption. reflexivity. }
    intros i. rewrite filter_In. cbn [completedDiffers].
    destruct (Item.completed i), status; cbn;
      (split; intros [H1 H2]; split;
       [assumption | first [reflexivity | discriminate]
       | assumption | first [reflexivity | discriminate]]).
Qed.

(** X15.  When the categories of the render that sent the message have
    distinct ids, a [merge_categories] reply whose source and destination
    names resolve to one and the same of them stores those categories
    without that one, which goes with its items; the others keep their
    order, and the active-category id of the store is left as it is. *)
Theorem merge_into_itself_deletes (result : Result.t) (details : CategoryDetails.t)
    (sourceName destinationName : string) (c : Category.t)
    (rd : Readings) (snapshot s : State) :
  distinct (categoryIds (categories snapshot)) = true ->
  Result.action result = "merge_categories" ->
  Result.category_details result = Some details ->
  CategoryDetails.sourceName details = Some sourceName ->
  CategoryDetails.destinationName details = Some destinationName ->
  resolvesTo toLowerCase sourceName (categories snapshot) c ->
  resolvesTo toLowerCase destinationName (categories snapshot) c ->
  exists s1 before after,
    applyResultFrom toLowerCase snapshot result rd s = Some s1 /\
    categories snapshot = before ++ c :: after /\
    categories s1 = before ++ after /\
    activeCategoryId s1 = activeCategoryId s.
Proof.
  intros Hd Ha Hdet Hsn Hdn Hs Hdst.
  apply distinct_NoDup in Hd. unfold categoryIds in Hd.
  apply resolvesTo_find in Hs, Hdst.
  pose proof (find_some _ _ Hs) as [Hin _].
  destruct (in_split _ _ Hin) as (before & after & Ec).
  unfold applyResultFrom, runAction. rewrite Ha. cbn [String.eqb Ascii.eqb Bool.eqb].
  unfold runMergeCategories. rewrite Hdet, Hsn, Hdn.
  rewrite (findNamed_found _ _ _ Hs), (findNamed_found _ _ _ Hdst).
  eexists. exists before, after. split; [reflexivity|]. split; [exact Ec|].
  split; [|reflexivity].
  cbn [categories setCategories setMessages setIsLoadingAI setUndoAction].
  change (map (fun c0 => if catIdIs (Category.id c) c0
                         then Category.with_items
                                (Category.items c0 ++ Category.items c) c0
                         else c0) (categories snapshot))
    with (mapItemsOf (Category.id c) (fun items => items ++ Category.items c)
            (categories snapshot)).
  rewrite Ec in Hd |- *. rewrite mapItemsOf_split by assumption.
  apply (filter_out_single (catIdIs (Category.id c))).
  - unfold catIdIs. cbn. apply String.eqb_refl.
  - intros y Hy. apply (key_split_others Category.id before after c y Hd).
    apply in_or_app. now left.
  - intros y Hy. apply (key_split_others Category.id before after c y Hd).
    apply in_or_app. now right.
Qed.

(** ** Identifier uniqueness under the other actions *)








Lemma updatedItem_ids itemToUpdate (q : Item.t -> bool) (l : list Item.t) :
  map Item.id (updFirst q (updatedItem itemToUpdate) l) = map Item.id l.
Proof.
  induction l as [|a l IH]; cbn; [reflexivity|].
  destruct (q a); cbn; [reflexivity | now rewrite IH].
Qed.








(** X17.  An [update] reply stores the categories of the render that sent
    the message with nothing created, removed or moved among them: the same
    categories in the same order with their ids, names and icons, each with
    its item ids in order.  The active-category id of the store is left as
    it is. *)
Theorem update_keeps_the_shape (result : Result.t) (rd : Readings)
    (snapshot s s1 : State) :
  Result.action result = "update" ->
  applyResultFrom toLowerCase snapshot result rd s = Some s1 ->
  map (fun c => (Category.id c, Category.name c, Category.icon c, itemIds c))
      (categories s1)
  = map (fun c => (Category.id c, Category.name c, Category.icon c, itemIds c))
        (categories snapshot) /\
  activeCategoryId s1 = activeCategoryId s.
Proof.
  intros Ha. unfold applyResultFrom. cbv zeta.
  rewrite (proj1 (proj2 (runAction_case result rd snapshot)) Ha).
  unfold runUpdate, unchanged.
  destruct (Result.items result) as [items|]; intros [= <-]; cbn;
    [|split; reflexivity].
  split; [|reflexivity].
  generalize (categories snapshot). induction items as [|it items IH]; intros l; cbn;
    [reflexivity|].
  rewrite IH. unfold updateOne.
  induction l as [|c l IHl]; cbn; [reflexivity|].
  destruct (named toLowerCase (ReplyItem.categoryName it) c); cbn.
  - unfold itemIds at 1. cbn. now rewrite updatedItem_ids.
  - now rewrite IHl.
Qed.

End ReplyFacts.

(** * Further properties of the handlers, the panels and the interpreter *)

(** X2.  A handler whose target is missing returns without any update, so
    the pending undo record survives: [handleDeleteItem] when the category
    it finds holds no item with the id (or there is no such category),
    [handleDeleteCategory] when no category has the id, and [handleDragEnd]
    when the drop has no target, the target is the dragged item itself, or
    no category is active. *)
Theorem missing_target_changes_nothing :
  (forall categoryId itemId s,
      (forall c, find (catIdIs categoryId) (categories s) = Some c ->
                 ~ In itemId (itemIds c)) ->
      handleDeleteItem categoryId itemId s = s) /\
  (forall categoryId s,
      ~ In categoryId (categoryIds (categories s)) ->
      handleDeleteCategory categoryId s = s) /\
  (forall event s,
      over event = None \/ over event = Some (active event) \/
      activeCategory s = None ->
      handleDragEnd event s = Some s).
Proof.
  split; [|split].
  - intros categoryId itemId s H. unfold handleDeleteItem, lookupItem.
    destruct (find (catIdIs categoryId) (categories s)) as [c|]; [|reflexivity].
    specialize (H c eq_refl).
    destruct (find (itemIdIs itemId) (Category.items c)) as [i|] eqn:Hf.
    + exfalso. apply find_some in Hf. destruct Hf as [Hin E]. apply H.
      unfold itemIdIs in E. apply String.eqb_eq in E. subst itemId.
      unfold itemIds. now apply in_map.
    + now rewrite (findIndex_none _ _ Hf).
  - intros categoryId s H. unfold handleDeleteCategory.
    destruct (find (catIdIs categoryId) (categories s)) as [c|] eqn:Hf; [|reflexivity].
    exfalso. apply find_some in Hf. destruct Hf as [Hin E]. apply H.
    unfold catIdIs in E. apply String.eqb_eq in E. subst categoryId.
    unfold categoryIds. now apply in_map.
  - intros event s H. unfold handleDragEnd.
    destruct (over event) as [overId|] eqn:Ho; [|reflexivity].
    destruct H as [H | [H | H]]; [discriminate | |].
    + injection H as ->. now rewrite String.eqb_refl.
    + rewrite H. now destruct (String.eqb (active event) overId).
Qed.

(** X3.  [handleAddItem], [handleToggleItem] and [handleUpdateItemNotes]
    called with an id that no category has leave the categories as they
    are, yet each records its undo action, which takes the place of the
    pending one. *)
Theorem absent_category_still_recorded (categoryId : string) (s : State) :
  ~ In categoryId (categoryIds (categories s)) ->
  (forall content dueDate now,
      categories (handleAddItem categoryId content dueDate now s) = categories s /\
      undoAction (handleAddItem categoryId content dueDate now s)
      = Some (ITEM_ADD categoryId (template "item-" now))) /\
  (forall itemId,
      categories (handleToggleItem categoryId itemId s) = categories s /\
      undoAction (handleToggleItem categoryId itemId s)
      = Some (ITEM_TOGGLE categoryId itemId)) /\
  (forall itemId notes,
      categories (handleUpdateItemNotes categoryId itemId notes s) = categories s /\
      undoAction (handleUpdateItemNotes categoryId itemId notes s)
      = Some (ITEM_NOTES_UPDATE categoryId itemId "")).
Proof.
  intros H.
  assert (Habs : forall c, In c (categories s) -> catIdIs categoryId c = false).
  { intros c Hc. unfold catIdIs. apply String.eqb_neq. intros E. apply H.
    rewrite <- E. unfold categoryIds. now apply in_map. }
  assert (Hfind : find (catIdIs categoryId) (categories s) = None).
  { destruct (find (catIdIs categoryId) (categories s)) as [c|] eqn:Hf; [|reflexivity].
    apply find_some in Hf. destruct Hf as [Hin E]. rewrite (Habs c Hin) in E.
    discriminate. }
  split; [|split].
  - intros content dueDate now. split; [|reflexivity].
    cbn -[mapItemsOf]. now apply mapItemsOf_absent.
  - intros itemId. split; [|reflexivity].
    cbn -[mapItemsOf]. now apply mapItemsOf_absent.
  - intros itemId notes. split.
    + cbn -[mapItemsOf]. now apply mapItemsOf_absent.
    + cbn. now rewrite Hfind.
Qed.

Lemma findIndex_from_at {A : Type} (p : A -> bool) (l1 l2 : list A) (x : A) (k : Z) :
  p x = true -> (forall y, In y l1 -> p y = false) ->
  findIndex_from p (l1 ++ x :: l2) k = (k + Z.of_nat (List.length l1))%Z.
Proof.
  intros Hx. revert k. induction l1 as [|a l1 IH]; intros k H; cbn [app findIndex_from].
  - rewrite Hx. cbn. lia.
  - rewrite (H a (or_introl eq_refl)), IH by (intros y Hy; apply H; now right).
    cbn [List.length]. lia.
Qed.

Lemma findIndex_at {A : Type} (p : A -> bool) (l1 l2 : list A) (x : A) :
  p x = true -> (forall y, In y l1 -> p y = false) ->
  findIndex p (l1 ++ x :: l2) = Z.of_nat (List.length l1).
Proof. intros Hx H. unfold findIndex. now rewrite findIndex_from_at. Qed.

Lemma map_single {A : Type} (key : A -> string) (f : A -> A) (l1 l2 : list A) (x : A) :
  NoDup (map key (l1 ++ x :: l2)) ->
  map (fun y => if String.eqb (key y) (key x) then f y else y) (l1 ++ x :: l2)
  = l1 ++ f x :: l2.
Proof.
  intros Hnd.
  assert (Ho : forall y, In y (l1 ++ l2) -> String.eqb (key y) (key x) = false)
    by (intros y; now apply key_split_others).
  rewrite map_app. cbn [map]. rewrite String.eqb_refl.
  f_equal; [|f_equal]; apply map_fixed; intros y Hy; rewrite Ho; auto;
    apply in_or_app; auto.
Qed.

(** X4.  With identifiers unique within their scope, [handleDeleteItem]
    takes exactly the item with the given id out of its category, leaves
    every other item and category in place, and records the item with the
    index it had. *)
Theorem delete_item_removes_exactly (s : State) (before after : list Category.t)
    (c : Category.t) (l1 l2 : list Item.t) (item : Item.t) :
  uniqueInScope (categories s) = true ->
  categories s = before ++ c :: after ->
  Category.items c = l1 ++ item :: l2 ->
  categories (handleDeleteItem (Category.id c) (Item.id item) s)
  = before ++ Category.with_items (l1 ++ l2) c :: after /\
  undoAction (handleDeleteItem (Category.id c) (Item.id item) s)
  = Some (ITEM_DELETE (Category.id c) item (Z.of_nat (List.length l1))) /\
  activeCategoryId (handleDeleteItem (Category.id c) (Item.id item) s)
  = activeCategoryId s.
Proof.
  intros Hu Ec Ei. apply uniqueInScope_spec in Hu. destruct Hu as [Hnd Hitems].
  assert (Hin : In c (categories s)) by (rewrite Ec; apply in_elt).
  assert (Hfc : find (catIdIs (Category.id c)) (categories s) = Some c).
  { apply find_category_unique; auto. unfold catIdIs. apply String.eqb_refl. }
  assert (Hni : NoDup (map Item.id (l1 ++ item :: l2))).
  { rewrite <- Ei. now apply Hitems. }
  assert (Hfi : find (itemIdIs (Item.id item)) (Category.items c) = Some item).
  { apply find_item_unique; [now apply Hitems | rewrite Ei; apply in_elt |].
    unfold itemIdIs. apply String.eqb_refl. }
  assert (Eidx : findIndex (itemIdIs (Item.id item)) (Category.items c)
                 = Z.of_nat (List.length l1)).
  { rewrite Ei. apply findIndex_at.
    - unfold itemIdIs. apply String.eqb_refl.
    - intros y Hy. apply (key_split_others Item.id l1 l2 item y Hni).
      apply in_or_app. now left. }
  unfold handleDeleteItem, lookupItem. rewrite Hfc, Eidx.
  destruct (Z.eqb_spec (Z.of_nat (List.length l1)) (-1)); [lia|].
  rewrite Nat2Z.id.
  assert (En : nth_error (Category.items c) (List.length l1) = Some item).
  { rewrite Ei, nth_error_app2, Nat.sub_diag by lia. reflexivity. }
  rewrite En. cbn -[mapItemsOf]. split; [|split; reflexivity].
  rewrite Ec, mapItemsOf_split by (now rewrite <- Ec).
  rewrite Ei. do 3 f_equal.
  apply (filter_out_single (itemIdIs (Item.id item))).
  - unfold itemIdIs. apply String.eqb_refl.
  - intros y Hy. apply (key_split_others Item.id l1 l2 item y Hni).
    apply in_or_app. now left.
  - intros y Hy. apply (key_split_others Item.id l1 l2 item y Hni).
    apply in_or_app. now right.
Qed.

Lemma update_notes_touches_one_item (s : State) (before after : list Category.t)
    (c : Category.t) (l1 l2 : list Item.t) (item : Item.t) (notes : string) :
  uniqueInScope (categories s) = true ->
  categories s = before ++ c :: after ->
  Category.items c = l1 ++ item :: l2 ->
  categories (handleUpdateItemNotes (Category.id c) (Item.id item) notes s)
  = before
    ++ Category.with_items (l1 ++ Item.with_notes (Some notes) item :: l2) c
    :: after /\
  undoAction (handleUpdateItemNotes (Category.id c) (Item.id item) notes s)
  = Some (ITEM_NOTES_UPDATE (Category.id c) (Item.id item)
            (orEmpty (Item.notes item))).
Proof.
  intros Hu Ec Ei. apply uniqueInScope_spec in Hu. destruct Hu as [Hnd Hitems].
  assert (Hin : In c (categories s)) by (rewrite Ec; apply in_elt).
  assert (Hni : NoDup (map Item.id (l1 ++ item :: l2))).
  { rewrite <- Ei. now apply Hitems. }
  split.
  - cbn -[mapItemsOf]. rewrite Ec, mapItemsOf_split by (now rewrite <- Ec).
    rewrite Ei. do 3 f_equal.
    apply (map_single Item.id (Item.with_notes (Some notes)) l1 l2 item Hni).
  - cbn.
    rewrite (find_category_unique (Category.id c) (categories s) c Hnd Hin)
      by (unfold catIdIs; apply String.eqb_refl).
    rewrite (find_item_unique (Item.id item) (Category.items c) item);
      [reflexivity | now apply Hitems | rewrite Ei; apply in_elt |].
    unfold itemIdIs. apply String.eqb_refl.
Qed.

(** X5.  With identifiers unique within their scope, [handleToggleItem]
    flips the completion of exactly the item with the given id, and
    [handleUpdateItemNotes] sets the notes of exactly that item and records
    its former notes, the empty string standing for absent notes. *)
Theorem toggle_and_notes_touch_one_item (s : State) (before after : list Category.t)
    (c : Category.t) (l1 l2 : list Item.t) (item : Item.t) :
  uniqueInScope (categories s) = true ->
  categories s = before ++ c :: after ->
  Category.items c = l1 ++ item :: l2 ->
  categories (handleToggleItem (Category.id c) (Item.id item) s)
  = before
    ++ Category.with_items
         (l1 ++ Item.with_completed (negb (Item.completed item)) item :: l2) c
    :: after /\
  forall notes,
    categories (handleUpdateItemNotes (Category.id c) (Item.id item) notes s)
    = before
      ++ Category.with_items (l1 ++ Item.with_notes (Some notes) item :: l2) c
      :: after /\
    undoAction (handleUpdateItemNotes (Category.id c) (Item.id item) notes s)
    = Some (ITEM_NOTES_UPDATE (Category.id c) (Item.id item)
              (orEmpty (Item.notes item))).
Proof.
  intros Hu Ec Ei. apply uniqueInScope_spec in Hu. destruct Hu as [Hnd Hitems].
  assert (Hin : In c (categories s)) by (rewrite Ec; apply in_elt).
  assert (Hni : NoDup (map Item.id (l1 ++ item :: l2))).
  { rewrite <- Ei. now apply Hitems. }
  split.
  - cbn -[mapItemsOf]. rewrite Ec, mapItemsOf_split by (now rewrite <- Ec).
    rewrite Ei. do 3 f_equal.
    apply (map_single Item.id (fun i => Item.with_completed (negb (Item.completed i)) i)
             l1 l2 item Hni).
  - intros notes.
    apply (update_notes_touches_one_item s before after c l1 l2 item notes);
      [|assumption|assumption].
    unfold uniqueInScope. apply andb_true_iff. split.
    + now apply distinct_NoDup.
    + apply forallb_forall. intros y Hy. apply distinct_NoDup. now apply Hitems.
Qed.

(** X6.  Leaving the notes field of a card: with the text the item already
    has as notes nothing happens; on an item without notes, leaving the
    untouched (empty) field still writes the empty string as its notes and
    records an undo action. *)
Theorem notes_blur (s : State) (before after : list Category.t)
    (c : Category.t) (l1 l2 : list Item.t) (item : Item.t) :
  uniqueInScope (categories s) = true ->
  categories s = before ++ c :: after ->
  Category.items c = l1 ++ item :: l2 ->
  (forall n, Item.notes item = Some n ->
             handleNotesBlur (Category.id c) item n s = s) /\
  (Item.notes item = None ->
   categories (handleNotesBlur (Category.id c) item (orEmpty (Item.notes item)) s)
   = before
     ++ Category.with_items (l1 ++ Item.with_notes (Some "") item :: l2) c
     :: after /\
   undoAction (handleNotesBlur (Category.id c) item (orEmpty (Item.notes item)) s)
   = Some (ITEM_NOTES_UPDATE (Category.id c) (Item.id item) "")).
Proof.
  intros Hu Ec Ei. split.
  - intros n Hn. unfold handleNotesBlur, notesDiffer. rewrite Hn.
    now rewrite String.eqb_refl.
  - intros Hn. unfold handleNotesBlur, notesDiffer. rewrite Hn. cbn [orEmpty].
    destruct (update_notes_touches_one_item s before after c l1 l2 item "" Hu Ec Ei)
      as [H1 H2].
    rewrite Hn in H2. split; assumption.
Qed.

(** X7.  The reselection effect settles in one run: a second run changes
    nothing.  It never touches the categories; on a store with categories
    it leaves the id of a stored category selected, on an empty store it
    leaves null. *)
Theorem reselect_settles (s : State) :
  reselectEffect (reselectEffect s) = reselectEffect s /\
  categories (reselectEffect s) = categories s /\
  (categories s <> [] ->
   exists c, In c (categories s) /\
             activeCategoryId (reselectEffect s) = Some (Category.id c)) /\
  (categories s = [] -> activeCategoryId (reselectEffect s) = None).
Proof.
  assert (Hcats : categories (reselectEffect s) = categories s).
  { unfold reselectEffect. now destruct (_ || _). }
  assert (Hsel : categories s <> [] ->
                 exists c, In c (categories s) /\
                           activeCategoryId (reselectEffect s) = Some (Category.id c)).
  { intros Hne. unfold reselectEffect.
    destruct (falsy (activeCategoryId s)
              || negb (existsb (idIs (activeCategoryId s)) (categories s))) eqn:E.
    - destruct (categories s) as [|c0 rest]; [congruence|].
      exists c0. split; [now left | reflexivity].
    - apply orb_false_iff in E. destruct E as [_ E]. apply negb_false_iff in E.
      apply existsb_exists in E. destruct E as (c & Hc & Hid).
      exists c. split; [assumption|]. unfold idIs in Hid.
      destruct (activeCategoryId s); [|discriminate].
      apply String.eqb_eq in Hid. now subst. }
  assert (Hnil : categories s = [] -> activeCategoryId (reselectEffect s) = None).
  { intros E. unfold reselectEffect. rewrite E. cbn.
    destruct (activeCategoryId s) as [i|] eqn:Ea; cbn.
    - rewrite orb_true_r. reflexivity.
    - reflexivity. }
  split; [|split; [exact Hcats | split; assumption]].
  case_eq (falsy (activeCategoryId s)
           || negb (existsb (idIs (activeCategoryId s)) (categories s))); intros E0.
  - assert (R : reselectEffect s
                = setActiveCategoryId (firstId (categories s)) s).
    { unfold reselectEffect. now rewrite E0. }
    rewrite R. unfold reselectEffect at 1.
    match goal with |- (if ?b then _ else _) = _ => destruct b end; reflexivity.
  - assert (R : reselectEffect s = s).
    { unfold reselectEffect. now rewrite E0. }
    now rewrite R.
Qed.

(** X8.  [handleUndo] consumes the record: it leaves none, so a second call
    changes nothing; it touches neither the active category, nor the
    selected item, nor the chat. *)
Theorem undo_runs_once (s s1 : State) :
  handleUndo s = Some s1 ->
  undoAction s1 = None /\
  handleUndo s1 = Some s1 /\
  activeCategoryId s1 = activeCategoryId s /\
  selectedItemId s1 = selectedItemId s /\
  messages s1 = messages s.
Proof.
  unfold handleUndo at 1. destruct (undoAction s) as [a|] eqn:Ha.
  - assert (H : forall s0, undoAction s0 = None -> handleUndo s0 = Some s0).
    { intros s0 E. unfold handleUndo. now rewrite E. }
    destruct a; cbn [option_map];
      try (intros [= <-]; split; [reflexivity|]; split;
           [apply H; reflexivity | repeat split]).
    unfold setCategoriesM. destruct (moveIn _ _ _ _); cbn [option_map];
      [|discriminate].
    intros [= <-]. split; [reflexivity|]. split; [apply H; reflexivity | repeat split].
  - intros [= <-]. split; [exact Ha|]. split; [|repeat split].
    unfold handleUndo. now rewrite Ha.
Qed.

(** X9.  Undoing the addition of a category, whose id was unused, gives
    back the categories but not the selection: the active id still names
    the removed category, and the reselection effect then selects the first
    category, whatever was active before the addition. *)
Theorem undo_of_category_add_loses_selection (name icon : string) (now : N)
    (s : State) :
  unused (template "cat-" now) (categoryIds (categories s)) = true ->
  exists s2,
    handleUndo (handleAddCategory name icon now s) = Some s2 /\
    categories s2 = categories s /\
    activeCategoryId s2 = Some (template "cat-" now) /\
    validActive s2 = false /\
    activeCategoryId (reselectEffect s2) = firstId (categories s).
Proof.
  intros Hf.
  assert (Hcats : filter (fun c => negb (catIdIs (template "cat-" now) c))
                    (categories s ++ [Category.mk (template "cat-" now) name (Some icon) []])
                  = categories s).
  { rewrite filter_app. cbn. rewrite String.eqb_refl. cbn. rewrite app_nil_r.
    apply filter_out_none. intros c Hc. unfold catIdIs. apply String.eqb_neq.
    intros E. apply unused_spec in Hf. apply Hf. rewrite <- E.
    unfold categoryIds. now apply in_map. }
  assert (Hex : existsb (catIdIs (template "cat-" now)) (categories s) = false).
  { unfold unused in Hf. apply negb_true_iff in Hf.
    destruct (existsb (catIdIs (template "cat-" now)) (categories s)) eqn:E;
      [|reflexivity].
    apply existsb_catIdIs in E. apply existsb_eqb_notIn in Hf. contradiction. }
  eexists. split; [reflexivity|].
  cbn -[template filter existsb].
  split; [exact Hcats|]. split; [reflexivity|]. split; [now rewrite Hcats|].
  unfold reselectEffect. cbn -[template filter existsb]. rewrite Hcats.
  change (idIs (Some (template "cat-" now))) with (catIdIs (template "cat-" now)).
  rewrite Hex. rewrite orb_true_r. reflexivity.
Qed.

(** X10.  The context sent to the model lists every category in store
    order with its true item count, but at most its first three item
    contents; the active category is named when the active id is the id of
    a stored category, and is 'Aucune' otherwise. *)
Theorem prompt_context_summarises (cats : list Category.t) (activeId : option string) :
  PromptContext.allCategories (promptContext cats activeId) = map Category.name cats /\
  List.length (PromptContext.lists (promptContext cats activeId)) = List.length cats /\
  (forall k c,
      nth_error cats k = Some c ->
      exists summary,
        nth_error (PromptContext.lists (promptContext cats activeId)) k = Some summary /\
        ListSummary.categoryName summary = Category.name c /\
        ListSummary.itemCount summary = List.length (Category.items c) /\
        List.length (ListSummary.items summary)
        = Nat.min 3 (List.length (Category.items c)) /\
        ListSummary.items summary
        = firstn 3 (map Item.content (Category.items c))) /\
  (forall c, find (idIs activeId) cats = Some c ->
             PromptContext.activeCategory (promptContext cats activeId)
             = Category.name c) /\
  (~ refersTo activeId cats \/ activeId = None ->
   PromptContext.activeCategory (promptContext cats activeId) = "Aucune").
Proof.
  unfold promptContext. cbn [PromptContext.allCategories PromptContext.lists
                              PromptContext.activeCategory].
  split; [reflexivity|]. split; [apply length_map|]. split; [|split].
  - intros k c Hk. eexists. split.
    + rewrite nth_error_map, Hk. reflexivity.
    + cbn [ListSummary.categoryName ListSummary.itemCount ListSummary.items].
      split; [reflexivity|]. split; [reflexivity|]. split.
      * rewrite length_map, length_firstn. reflexivity.
      * symmetry. apply firstn_map.
  - intros c Hf. now rewrite Hf.
  - intros H. destruct (find (idIs activeId) cats) as [c|] eqn:Hf; [|reflexivity].
    exfalso. apply find_some in Hf. destruct Hf as [Hin Hid].
    unfold idIs in Hid. destruct activeId as [i|]; [|discriminate].
    destruct H as [H | H]; [|discriminate]. apply H. cbn.
    apply String.eqb_eq in Hid. subst i. unfold categoryIds. now apply in_map.
Qed.

Lemma find_map {A B : Type} (f : A -> B) (p : B -> bool) (l : list A) :
  find p (map f l) = option_map f (find (fun x => p (f x)) l).
Proof.
  induction l as [|a l IH]; cbn; [reflexivity|].
  destruct (p (f a)); [reflexivity | exact IH].
Qed.

(** X11.  [populateVoices] does nothing on an empty voice list.  On a
    non-empty list it offers exactly the voices whose language starts with
    'fr', in order; the selected voice afterwards is null exactly when
    there is no such voice, and otherwise bears the name of one of them;
    with no selection before, the first voice whose language is exactly
    'fr-FR' is selected when there is one, and the first French voice
    otherwise. *)
Theorem populate_voices_selects_french (available : list Voice.t) (st : SpeechState) :
  (available = [] -> populateVoices available st = st) /\
  (available <> [] ->
   map VoiceOption.voice (voices (populateVoices available st))
   = filter isFrench available /\
   (selectedVoice (populateVoices available st) = None <->
    filter isFrench available = []) /\
   (forall v, selectedVoice (populateVoices available st) = Some v ->
              exists w, In w (filter isFrench available) /\
                        Voice.name w = Voice.name v) /\
   (selectedVoice st = None ->
    selectedVoice (populateVoices available st)
    = match find (fun v => String.eqb (Voice.lang v) "fr-FR")
                 (filter isFrench available) with
      | Some v => Some v
      | None => hd_error (filter isFrench available)
      end)).
Proof.
  split; [now intros ->|]. intros Hne.
  destruct available as [|v0 rest]; [congruence|].
  unfold populateVoices. cbv beta iota zeta.
  set (french := filter isFrench (v0 :: rest)). clearbody french.
  set (mkOption := fun v => VoiceOption.mk v (Voice.name v) (Voice.lang v)).
  assert (Hvoices : map VoiceOption.voice (map mkOption french) = french).
  { rewrite map_map. apply map_id. }
  assert (Hdefault :
            option_map VoiceOption.voice
              (match find (fun v => String.eqb (VoiceOption.lang v) "fr-FR")
                          (map mkOption french) with
               | Some v => Some v
               | None => hd_error (map mkOption french)
               end)
            = match find (fun v => String.eqb (Voice.lang v) "fr-FR") french with
              | Some v => Some v
              | None => hd_error french
              end).
  { assert (Hfind : find (fun v => String.eqb (VoiceOption.lang v) "fr-FR")
                         (map mkOption french)
                    = option_map mkOption
                        (find (fun v => String.eqb (Voice.lang v) "fr-FR") french)).
    { apply (find_map mkOption (fun v => String.eqb (VoiceOption.lang v) "fr-FR")). }
    rewrite Hfind.
    destruct (find (fun x => String.eqb (Voice.lang x) "fr-FR") french); [reflexivity|].
    cbn. now destruct french. }
  assert (Hsome : forall v,
             match find (fun v => String.eqb (Voice.lang v) "fr-FR") french with
             | Some v => Some v
             | None => hd_error french
             end = Some v -> In v french).
  { intros v. destruct (find _ french) as [w|] eqn:Hf.
    - intros [= <-]. now apply find_some in Hf.
    - destruct french; [discriminate|]. cbn. intros [= <-]. now left. }
  assert (Hnone :
            match find (fun v => String.eqb (Voice.lang v) "fr-FR") french with
            | Some v => Some v
            | None => hd_error french
            end = None <-> french = []).
  { destruct (find _ french) as [w|] eqn:Hf.
    - split; [discriminate|]. intros E. rewrite E in Hf. discriminate.
    - destruct french; cbn; split; try discriminate; reflexivity. }
  destruct (selectedVoice st) as [selected|] eqn:Hsel.
  - destruct (existsb (fun v => String.eqb (VoiceOption.name v) (Voice.name selected))
                      (map mkOption french)) eqn:Hk; cbn [negb voices selectedVoice].
    + split; [exact Hvoices|]. split; [|split; [|discriminate]].
      * split; [discriminate|]. intros E. rewrite E in Hk. discriminate.
      * intros v [= <-]. apply existsb_exists in Hk. destruct Hk as (o & Ho & En).
        apply in_map_iff in Ho. destruct Ho as (w & <- & Hw).
        exists w. split; [assumption|]. now apply String.eqb_eq in En.
    + rewrite Hdefault. split; [exact Hvoices|]. split; [exact Hnone|].
      split; [|discriminate].
      intros v Hv. exists v. split; [now apply Hsome | reflexivity].
  - cbn [negb voices selectedVoice]. rewrite Hdefault.
    split; [exact Hvoices|]. split; [exact Hnone|]. split; [|reflexivity].
    intros v Hv. exists v. split; [now apply Hsome | reflexivity].
Qed.

(** ** The search box and the entry form of the item panel *)

Lemma prefix_append (t s : string) :
  String.prefix t s = true <-> exists post, s = String.append t post.
Proof.
  revert s. induction t as [|a t IH]; intros s; cbn.
  - split; [intros _; now exists s | now destruct s].
  - destruct s as [|b s].
    + split; [discriminate | intros [post E]; discriminate].
    + cbn [String.prefix]. destruct (Ascii.ascii_dec a b) as [<- | Hne].
      * rewrite IH. split; intros [post E]; exists post.
        -- now rewrite E.
        -- now injection E.
      * split; [discriminate|]. intros [post E]. injection E as E1 _.
        now elim Hne.
Qed.

Lemma includes_spec (s t : string) :
  includes s t = true <->
  exists pre post, s = String.append pre (String.append t post).
Proof.
  induction s as [|a s IH].
  - cbn [includes]. rewrite orb_false_r, prefix_append. split.
    + intros [post E]. now exists EmptyString, post.
    + intros (pre & post & E). exists post. destruct pre; [exact E | discriminate].
  - cbn [includes]. rewrite orb_true_iff, prefix_append, IH. split.
    + intros [[post E] | (pre & post & E)].
      * now exists EmptyString, post.
      * exists (String a pre), post. cbn. now rewrite E.
    + intros (pre & post & E). destruct pre as [|b pre].
      * left. now exists post.
      * right. exists pre, post. cbn in E. now injection E.
Qed.

Lemma sameDeps_eq (a b : nat * string) : sameDeps a b = true <-> a = b.
Proof.
  destruct a as [r t], b as [r' t']. unfold sameDeps. cbn [fst snd].
  rewrite andb_true_iff, Nat.eqb_eq, String.eqb_eq. split.
  - intros [-> ->]. reflexivity.
  - intros [= -> ->]. split; reflexivity.
Qed.

(** X18.  [filteredItems] on the first render of the panel, and on a render
    in which [category.items] is another array object or the search term
    another string than in the previous one: the panel shows exactly the
    items of the array whose content, lowered, contains the lowered search
    term as a contiguous piece, and every item when the search box is
    empty.  On a render with the same array object and the same term the
    panel shows what it showed before, whatever the array holds by now. *)
Theorem search_shows_matching_items (toLowerCase : string -> string)
    (category : Category.t) (itemsRef : nat) (searchTerm : string) :
  (forall cell,
      (forall m, cell = Some m -> memoDeps m <> (itemsRef, searchTerm)) ->
      (forall item : Item.t,
          In item (memoValue (filteredItems toLowerCase cell itemsRef category
                                searchTerm)) <->
          In item (Category.items category) /\
          exists pre post,
            toLowerCase (Item.content item)
            = String.append pre (String.append (toLowerCase searchTerm) post)) /\
      (toLowerCase "" = "" -> searchTerm = "" ->
       memoValue (filteredItems toLowerCase cell itemsRef category searchTerm)
       = Category.items category)) /\
  (forall m,
      memoDeps m = (itemsRef, searchTerm) ->
      filteredItems toLowerCase (Some m) itemsRef category searchTerm = m).
Proof.
  split.
  - intros cell Hfresh.
    assert (E : filteredItems toLowerCase cell itemsRef category searchTerm
                = mkMemo (itemsRef, searchTerm)
                    (matchingItems toLowerCase (Category.items category) searchTerm)).
    { unfold filteredItems, useMemo. destruct cell as [m|]; [|reflexivity].
      destruct (sameDeps (memoDeps m) (itemsRef, searchTerm)) eqn:Es; [|reflexivity].
      apply sameDeps_eq in Es. now elim (Hfresh m eq_refl). }
    rewrite E. clear E. cbn [memoValue]. unfold matchingItems. split.
    + intros item. now rewrite filter_In, includes_spec.
    + intros El ->. rewrite El.
      induction (Category.items category) as [|i l IH]; cbn [filter]; [reflexivity|].
      replace (includes (toLowerCase (Item.content i)) "") with true;
        [cbv iota; now rewrite IH|].
      symmetry. apply includes_spec.
      now exists EmptyString, (toLowerCase (Item.content i)).
  - intros m Hm. unfold filteredItems, useMemo.
    now rewrite (proj2 (sameDeps_eq _ _) Hm).
Qed.

(** X19.  [handleAddClick] wired to [handleAddItem]: the entry form adds
    nothing and keeps its fields when the typed content is blank once trimmed.  Otherwise one item is appended
    last in the panel's category, uncompleted and without notes, carrying the
    trimmed content and the due date of the form (none when that field is
    empty); the addition is recorded for undo, both fields are cleared and
    the form is closed, the search term being kept. *)
Theorem add_click_appends_trimmed (trim : string -> string) (category : Category.t)
    (now : N) (panel : PanelState) (s : State) (before after : list Category.t) :
  distinct (categoryIds (categories s)) = true ->
  categories s = before ++ category :: after ->
  (trim (newItemContent panel) = "" ->
   handleAddClick trim category now panel s = (panel, s)) /\
  (trim (newItemContent panel) <> "" ->
   exists item : Item.t,
     fst (handleAddClick trim category now panel s)
     = mkPanelState "" "" (searchTerm panel) false /\
     categories (snd (handleAddClick trim category now panel s))
     = before
       ++ Category.with_items (Category.items category ++ [item]) category
       :: after /\
     undoAction (snd (handleAddClick trim category now panel s))
     = Some (ITEM_ADD (Category.id category) (Item.id item)) /\
     Item.content item = trim (newItemContent panel) /\
     Item.completed item = false /\
     Item.notes item = None /\
     Item.dueDate item
     = (if String.eqb (newItemDueDate panel) "" then None
        else Some (newItemDueDate panel))).
Proof.
  intros Hd Ec. apply distinct_NoDup in Hd. unfold categoryIds in Hd.
  unfold handleAddClick. split; intros Ht.
  - now rewrite Ht.
  - apply String.eqb_neq in Ht. rewrite Ht. cbn [negb fst snd].
    eexists. split; [reflexivity|]. cbv zeta. unfold handleAddItem. cbv zeta.
    split; [|split; [reflexivity|]].
    + cbn -[mapItemsOf template]. rewrite Ec.
      rewrite mapItemsOf_split by (now rewrite <- Ec). reflexivity.
    + cbn -[template]. repeat split.
Qed.

(** * Concrete runs *)

Lemma failed_reply_yields_apology_witness :
  sendable noTrim "supprime la liste" demoState /\
  replyFails asciiLower noTrim noTrim demoParse
    (Answer (Some "<nameless delete_category reply>")) demoReadings demoState /\
  exists s1,
    handleSendMessage asciiLower noTrim noTrim demoParse "supprime la liste"
      (Answer (Some "<nameless delete_category reply>")) demoReadings demoState
    = Some s1 /\
    messages s1
    = messages demoState ++
      [userMessageOf "supprime la liste" demoReadings; apologyOf demoReadings] /\
    sender (apologyOf demoReadings) = ai /\
    categories s1 = categories demoState /\
    activeCategoryId s1 = activeCategoryId demoState /\
    isLoadingAI s1 = false.
Proof.
  split; [repeat split|]. split; [reflexivity|].
  apply (failed_reply_yields_apology asciiLower noTrim noTrim demoParse).
  - repeat split.
  - reflexivity.
Defined.

(** A text that does not parse is answered by the apology as well. *)
Lemma unparsable_reply_yields_apology :
  handleSendMessage asciiLower noTrim noTrim demoParse "bonjour"
    (Answer (Some "Bonjour !")) demoReadings demoState
  = Some (mkState (categories demoState) (Some "cat-1") None
            [userMessageOf "bonjour" demoReadings; apologyOf demoReadings]
            false None None None true true).
Proof. reflexivity. Qed.

(** C10 fails on the code: the user sends a message from the initial store
    and ticks 'Lait' while the request is in flight; the reply, a plain
    [chat] answer, puts back the categories the handler captured when the
    message was sent, and 'Lait' is unticked again. *)
Theorem chat_reply_reverts_inflight_edit :
  let sent := beforeAwait noTrim "que contient la liste" demoReadings demoState in
  let edited := handleToggleItem "cat-1" "item-1" sent in
  awaits noTrim "que contient la liste" demoState = true /\
  demoParse "<chat reply>" = Some demoChat /\
  Result.action demoChat = "chat" /\
  option_map (fun c => map Item.completed (Category.items c))
             (nth_error (categories edited) 0) = Some [true; false] /\
  exists s1,
    afterAwait asciiLower noTrim noTrim demoParse demoState
      (Answer (Some "<chat reply>")) demoReadings edited = Some s1 /\
    option_map (fun c => map Item.completed (Category.items c))
               (nth_error (categories s1) 0) = Some [false; false] /\
    categories s1 = categories demoState /\
    categories s1 <> categories edited /\
    messages s1
    = [userMessageOf "que contient la liste" demoReadings;
       aiMessageOf demoChat demoReadings].
Proof.
  split; [reflexivity|]. split; [reflexivity|]. split; [reflexivity|].
  split; [reflexivity|]. eexists. split; [reflexivity|].
  split; [reflexivity|]. split; [reflexivity|]. split; [|reflexivity].
  vm_compute. discriminate.
Qed.

Lemma merge_moves_all_items_witness :
  exists s1 l1 l2 l3,
    applyResultFrom asciiLower demoState demoMerge demoReadings
      (beforeAwait noTrim "fusionne Achats dans Films" demoReadings demoState)
    = Some s1 /\
    ((categories demoState = l1 ++ demoSource :: l2 ++ demoDest :: l3 /\
      categories s1
      = l1 ++ l2 ++
        Category.with_items (Category.items demoDest ++ Category.items demoSource)
          demoDest :: l3)
     \/
     (categories demoState = l1 ++ demoDest :: l2 ++ demoSource :: l3 /\
      categories s1
      = l1 ++
        Category.with_items (Category.items demoDest ++ Category.items demoSource)
          demoDest :: l2 ++ l3)).
Proof.
  apply (merge_moves_all_items asciiLower demoMerge
           (CategoryDetails.mk None None None (Some "ACHATS") (Some "films à voir"))
           "ACHATS" "films à voir" demoSource demoDest demoReadings demoState
           (beforeAwait noTrim "fusionne Achats dans Films" demoReadings demoState)).
  - reflexivity.
  - reflexivity.
  - reflexivity.
  - reflexivity.
  - reflexivity.
  - reflexivity.
  - apply resolvesTo_find. reflexivity.
  - apply resolvesTo_find. reflexivity.
  - unfold ciEq. cbv. discriminate.
Defined.

(** C3 as stated fails, in two ways.  Two [handleAddCategory] calls that
    read the same millisecond give the lists 'Disques' and 'Livres' the same
    id, and merging 'Disques' into 'Achats' removes 'Livres' as well.  And
    when 'Oeufs' is added to 'À Faire' while the request is in flight, the
    merge of 'Achats' into 'Films à voir' stores the categories captured
    when the message was sent, and 'À Faire' loses 'Oeufs'. *)
Lemma merge_changes_other_categories :
  (let s := handleAddCategory "Livres" "FileText" 1793000002000
              (handleAddCategory "Disques" "Music" 1793000002000 demoState) in
   map Category.name (categories s)
   = ["Achats"; "À Faire"; "Films à voir"; "Disques"; "Livres"] /\
   exists s1,
     applyResultFrom asciiLower s demoMergeDisques demoReadings s = Some s1 /\
     map Category.name (categories s1) = ["Achats"; "À Faire"; "Films à voir"]) /\
  (let s := handleAddItem "cat-2" "Oeufs" None 1793000000700
              (beforeAwait noTrim "fusionne Achats dans Films" demoReadings
                 demoState) in
   option_map (fun c => map Item.content (Category.items c))
              (nth_error (categories s) 1)
   = Some ["Appeler le médecin"; "Finir le rapport"; "Oeufs"] /\
   exists s1,
     applyResultFrom asciiLower demoState demoMerge demoReadings s = Some s1 /\
     map Category.name (categories s1) = ["À Faire"; "Films à voir"] /\
     option_map (fun c => map Item.content (Category.items c))
                (nth_error (categories s1) 0)
     = Some ["Appeler le médecin"; "Finir le rapport"]).
Proof.
  split.
  - split; [reflexivity|]. eexists. split; [reflexivity|]. reflexivity.
  - split; [reflexivity|]. eexists. split; [reflexivity|]. split; reflexivity.
Qed.

(** C6 as stated fails: merging the active list 'Achats' into another one
    removes it and leaves [activeCategoryId] on its id; and a list created
    and made active while a request is in flight is dropped by the reply,
    be it a plain [chat] answer, which leaves [activeCategoryId] on the id
    of the dropped list.  The reselection effect repairs both. *)
Lemma merge_leaves_dangling_reference :
  validActive demoState = true /\
  (exists s1,
      operate asciiLower (OpReply demoState demoMerge demoReadings) demoState
      = Some s1 /\
      activeCategoryId s1 = Some "cat-1" /\
      categoryIds (categories s1) = ["cat-2"; "cat-3"] /\
      validActive s1 = false /\
      validActive (reselectEffect s1) = true) /\
  (let s := handleAddCategory "Livres" "FileText" 1793000000700
              (beforeAwait noTrim "que contient la liste" demoReadings demoState) in
   validActive s = true /\
   exists s1,
     operate asciiLower (OpReply demoState demoChat demoReadings) s = Some s1 /\
     activeCategoryId s1 = Some "cat-1793000000700" /\
     categoryIds (categories s1) = ["cat-1"; "cat-2"; "cat-3"] /\
     validActive s1 = false /\
     validActive (reselectEffect s1) = true).
Proof.
  split; [reflexivity|]. split.
  - eexists. split; [reflexivity|]. repeat split.
  - split; [reflexivity|]. eexists. split; [reflexivity|]. repeat split.
Qed.

Lemma active_reference_resolves_witness :
  (exists s1,
      operate asciiLower (OpReply demoState demoMerge demoReadings) demoState
      = Some s1 /\
      validActive (reselectEffect s1) = true) /\
  validActive demoState = true /\
  keepsReference (OpPerform (DeleteCategory "cat-1")) demoState /\
  validActive (handleDeleteCategory "cat-1" demoState) = true.
Proof.
  split.
  - eexists. split; [reflexivity|].
    exact (proj1 (active_reference_resolves asciiLower
                    (OpReply demoState demoMerge demoReadings) demoState _
                    eq_refl)).
  - split; [reflexivity|]. split; [exact I|].
    exact (proj2 (active_reference_resolves asciiLower
                    (OpPerform (DeleteCategory "cat-1")) demoState
                    (handleDeleteCategory "cat-1" demoState) eq_refl)
                 eq_refl I).
Defined.

(** C5 as stated fails: two [handleAddItem] calls that read the same
    millisecond from the clock give two items the same id. *)
Lemma same_millisecond_duplicates_id :
  let evs := [ EvAddItem "cat-1" "Oeufs" None 1793000003000;
               EvAddItem "cat-1" "Beurre" None 1793000003000 ] in
  uniqueIds (categories demoState) = true /\
  forallb creates evs = true /\
  exists s',
    run asciiLower evs demoState = Some s' /\
    uniqueIds (categories s') = false.
Proof.
  split; [reflexivity|]. split; [reflexivity|].
  eexists. split; [reflexivity|]. reflexivity.
Qed.

Lemma creation_keeps_ids_unique_witness :
  let evs := [ EvAddCategory "Livres" "FileText" 1793000002000;
               EvAddItem "cat-1" "Beurre" None 1793000003000;
               EvReply demoAdd demoReadings ] in
  uniqueIds (categories demoState) = true /\
  forallb creates evs = true /\
  freshAlong asciiLower evs demoState = true /\
  exists s',
    run asciiLower evs demoState = Some s' /\ uniqueIds (categories s') = true.
Proof.
  split; [reflexivity|]. split; [reflexivity|]. split; [vm_compute; reflexivity|].
  apply (creation_keeps_ids_unique asciiLower
           [ EvAddCategory "Livres" "FileText" 1793000002000;
             EvAddItem "cat-1" "Beurre" None 1793000003000;
             EvReply demoAdd demoReadings ] demoState).
  - reflexivity.
  - reflexivity.
  - vm_compute. reflexivity.
Defined.

Lemma names_resolved_case_insensitively_witness :
  sameName asciiLower "Achats" "ACHATS" = true /\
  runAction asciiLower demoAdd demoReadings demoState
  = Done (addAll asciiLower (item_stamp demoReadings) 0
            [ReplyItem.mk "Oeufs" "ACHATS" None None None None]
            (categories demoState), None) /\
  addOne asciiLower (1793000001400%N, "0.25")
    (ReplyItem.mk "Oeufs" "ACHATS" None None None None) (categories demoState)
  = [] ++ Category.with_items
            (Category.items demoSource ++
             [addedItem (1793000001400%N, "0.25")
                (ReplyItem.mk "Oeufs" "ACHATS" None None None None)]) demoSource
       :: skipn 1 (categories demoState).
Proof.
  destruct (names_resolved_case_insensitively asciiLower)
    as (Hsame & (Hswitch & _ & Hadd) & _).
  split; [|split].
  - apply Hsame. reflexivity.
  - apply Hswitch; reflexivity.
  - apply (proj2 (Hadd (1793000001400%N, "0.25")
                    (ReplyItem.mk "Oeufs" "ACHATS" None None None None)
                    (categories demoState))).
    + reflexivity.
    + split; [reflexivity | intros y []].
Defined.

(** C2 fails on the code: the list 'Achats' holds two items and no
    confirmation is pending, yet [handleDeleteCategory] removes it at once,
    and so does one [delete_category] reply; neither leaves a confirmation
    pending. *)
Theorem nonempty_category_deleted_unconfirmed :
  confirmAction demoState = None /\
  In demoSource (categories demoState) /\
  List.length (Category.items demoSource) = 2%nat /\
  (let s1 := handleDeleteCategory "cat-1" demoState in
   confirmAction s1 = None /\
   categoryIds (categories s1) = ["cat-2"; "cat-3"]) /\
  (exists s1,
      applyResult asciiLower demoDeleteCategory demoReadings demoState = Some s1 /\
      confirmAction s1 = None /\
      categoryIds (categories s1) = ["cat-2"; "cat-3"]).
Proof.
  split; [reflexivity|]. split; [now left|]. split; [reflexivity|]. split.
  - split; reflexivity.
  - eexists. split; [reflexivity|]. split; reflexivity.
Qed.

(** Undoing the addition of a category removes the active category as well
    and, like the merge, leaves the reference to the reselection effect. *)
Lemma undo_category_add_leaves_dangling_reference :
  let s1 := handleAddCategory "Livres" "FileText" 1793000002000 demoState in
  validActive s1 = true /\
  exists s2,
    handleUndo s1 = Some s2 /\
    validActive s2 = false /\
    validActive (reselectEffect s2) = true.
Proof.
  split; [reflexivity|]. eexists. split; [reflexivity|]. split; reflexivity.
Qed.

(** ** Runs of the further properties *)

Lemma drag_lands_on_target_witness :
  distinct (categoryIds (categories demoState)) = true /\
  exists s1 items' l1 l2 r1 r2,
    handleDragEnd (mkDragEnd "item-1" (Some "item-2")) demoState = Some s1 /\
    activeCategory s1 = Some (Category.with_items items' demoSource) /\
    nth_error items'
      (Z.to_nat (findIndex (itemIdIs "item-2") (Category.items demoSource)))
    = Some demoLait /\
    Category.items demoSource = l1 ++ demoLait :: l2 /\
    items' = r1 ++ demoLait :: r2 /\
    r1 ++ r2 = l1 ++ l2.
Proof.
  split; [reflexivity|].
  apply (drag_lands_on_target (mkDragEnd "item-1" (Some "item-2")) demoState
           "item-2" demoSource demoLait demoPain).
  - reflexivity.
  - reflexivity.
  - discriminate.
  - reflexivity.
  - reflexivity.
  - reflexivity.
Defined.

Lemma missing_target_changes_nothing_witness :
  handleDeleteItem "cat-1" "item-9" demoState = demoState /\
  handleDeleteCategory "cat-9" demoState = demoState /\
  handleDragEnd (mkDragEnd "item-1" None) demoState = Some demoState.
Proof.
  destruct missing_target_changes_nothing as (Hitem & Hcategory & Hdrag).
  split; [|split].
  - apply Hitem. intros c E. vm_compute in E. injection E as <-.
    vm_compute. intros [H | [H | []]]; discriminate.
  - apply Hcategory. vm_compute. intros [H | [H | [H | []]]]; discriminate.
  - apply Hdrag. left. reflexivity.
Defined.

Lemma absent_category_still_recorded_witness :
  ~ In "cat-9" (categoryIds (categories demoState)) /\
  categories (handleToggleItem "cat-9" "item-1" demoState) = categories demoState /\
  undoAction (handleToggleItem "cat-9" "item-1" demoState)
  = Some (ITEM_TOGGLE "cat-9" "item-1").
Proof.
  assert (H : ~ In "cat-9" (categoryIds (categories demoState))).
  { vm_compute. intros [H | [H | [H | []]]]; discriminate. }
  split; [exact H|].
  apply (absent_category_still_recorded "cat-9" demoState H).
Defined.

Lemma delete_item_removes_exactly_witness :
  uniqueInScope (categories demoState) = true /\
  categories (handleDeleteItem "cat-1" "item-2" demoState)
  = [Category.with_items [demoLait] demoSource; demoTodo; demoDest] /\
  undoAction (handleDeleteItem "cat-1" "item-2" demoState)
  = Some (ITEM_DELETE "cat-1" demoPain 1) /\
  activeCategoryId (handleDeleteItem "cat-1" "item-2" demoState) = Some "cat-1".
Proof.
  split; [reflexivity|].
  apply (delete_item_removes_exactly demoState [] [demoTodo; demoDest] demoSource
           [demoLait] [] demoPain); reflexivity.
Defined.

Lemma toggle_and_notes_touch_one_item_witness :
  uniqueInScope (categories demoState) = true /\
  categories (handleToggleItem "cat-1" "item-2" demoState)
  = [Category.with_items [demoLait; Item.with_completed true demoPain] demoSource;
     demoTodo; demoDest].
Proof.
  split; [reflexivity|].
  apply (toggle_and_notes_touch_one_item demoState [] [demoTodo; demoDest]
           demoSource [demoLait] [] demoPain); reflexivity.
Defined.

Lemma notes_blur_witness :
  uniqueInScope (categories demoState) = true /\
  handleNotesBlur "cat-1" demoLait "Lait entier bio" demoState = demoState /\
  undoAction (handleNotesBlur "cat-1" demoPain "" demoState)
  = Some (ITEM_NOTES_UPDATE "cat-1" "item-2" "").
Proof.
  split; [reflexivity|]. split.
  - apply (notes_blur demoState [] [demoTodo; demoDest] demoSource
             [] [demoPain] demoLait); reflexivity.
  - apply (notes_blur demoState [] [demoTodo; demoDest] demoSource
             [demoLait] [] demoPain); reflexivity.
Defined.

Lemma reselect_settles_witness :
  exists c,
    In c (categories (handleDeleteCategory "cat-1" demoState)) /\
    activeCategoryId (reselectEffect (handleDeleteCategory "cat-1" demoState))
    = Some (Category.id c).
Proof.
  apply (reselect_settles (handleDeleteCategory "cat-1" demoState)).
  discriminate.
Defined.

Lemma undo_runs_once_witness :
  exists s1,
    handleUndo (handleToggleItem "cat-1" "item-1" demoState) = Some s1 /\
    undoAction s1 = None /\
    handleUndo s1 = Some s1 /\
    activeCategoryId s1 = Some "cat-1" /\
    selectedItemId s1 = None /\
    messages s1 = [].
Proof.
  eexists. split; [reflexivity|].
  apply (undo_runs_once (handleToggleItem "cat-1" "item-1" demoState)).
  reflexivity.
Defined.

Lemma undo_of_category_add_loses_selection_witness :
  unused (template "cat-" 1793000002000) (categoryIds (categories demoState)) = true /\
  exists s2,
    handleUndo (handleAddCategory "Livres" "FileText" 1793000002000 demoState)
    = Some s2 /\
    categories s2 = categories demoState /\
    activeCategoryId s2 = Some (template "cat-" 1793000002000) /\
    validActive s2 = false /\
    activeCategoryId (reselectEffect s2) = firstId (categories demoState).
Proof.
  split; [vm_compute; reflexivity|].
  apply (undo_of_category_add_loses_selection "Livres" "FileText" 1793000002000
           demoState).
  vm_compute. reflexivity.
Defined.

Lemma prompt_context_summarises_witness :
  PromptContext.activeCategory (promptContext (categories demoState) (Some "cat-1"))
  = "Achats" /\
  exists summary,
    nth_error (PromptContext.lists
                 (promptContext (categories demoState) (Some "cat-1"))) 1
    = Some summary /\
    ListSummary.categoryName summary = "À Faire" /\
    ListSummary.itemCount summary = 2 /\
    List.length (ListSummary.items summary) = 2 /\
    ListSummary.items summary = ["Appeler le médecin"; "Finir le rapport"].
Proof.
  destruct (prompt_context_summarises (categories demoState) (Some "cat-1"))
    as (_ & _ & Hlists & Hactive & _).
  split.
  - apply (Hactive demoSource). reflexivity.
  - apply (Hlists 1 demoTodo). reflexivity.
Defined.

Lemma populate_voices_selects_french_witness :
  map VoiceOption.voice (voices (populateVoices demoVoices (mkSpeechState [] None)))
  = [Voice.mk "Amelie" "fr-CA"; Voice.mk "Thomas" "fr-FR"] /\
  selectedVoice (populateVoices demoVoices (mkSpeechState [] None))
  = Some (Voice.mk "Thomas" "fr-FR").
Proof.
  destruct (populate_voices_selects_french demoVoices (mkSpeechState [] None))
    as [_ H].
  destruct (H ltac:(discriminate)) as (Hvoices & _ & _ & Hselected).
  split; [exact Hvoices | exact (Hselected eq_refl)].
Defined.

Lemma every_send_gets_one_answer_witness :
  exists s1 answer,
    handleSendMessage asciiLower noTrim noTrim demoParse "que contient la liste"
      (Answer (Some "<chat reply>")) demoReadings demoState = Some s1 /\
    sender answer = ai /\
    messages s1
    = messages demoState ++ [userMessageOf "que contient la liste" demoReadings; answer] /\
    isLoadingAI s1 = false.
Proof.
  eexists.
  destruct (proj2 (every_send_gets_one_answer asciiLower noTrim noTrim demoParse
                     "que contient la liste" (Answer (Some "<chat reply>"))
                     demoReadings demoState)
              eq_refl eq_refl _ eq_refl) as (answer & Hsender & Hmessages & Hloading).
  exists answer. split; [reflexivity|]. split; [exact Hsender|].
  split; [exact Hmessages | exact Hloading].
Defined.

Lemma undo_record_lost_when_parsed_witness :
  sendable noTrim "que contient la liste"
    (handleToggleItem "cat-1" "item-1" demoState) /\
  undoAction (handleToggleItem "cat-1" "item-1" demoState)
  = Some (ITEM_TOGGLE "cat-1" "item-1") /\
  exists s1,
    handleSendMessage asciiLower noTrim noTrim demoParse "que contient la liste"
      (Answer (Some "<chat reply>")) demoReadings
      (handleToggleItem "cat-1" "item-1" demoState) = Some s1 /\
    undoAction s1 = None /\ undoTimer s1 = None.
Proof.
  split; [repeat split|]. split; [reflexivity|].
  eexists. split; [reflexivity|].
  apply (undo_record_lost_when_parsed asciiLower noTrim noTrim demoParse
           "que contient la liste" (Answer (Some "<chat reply>")) demoReadings
           (handleToggleItem "cat-1" "item-1" demoState)).
  - repeat split.
  - reflexivity.
Defined.

Lemma bulk_delete_by_status_witness :
  exists kept,
    runDelete asciiLower demoPurge demoState
    = Done ([demoSource] ++ Category.with_items kept demoTodo :: [demoDest], None) /\
    forall i, In i kept <->
              In i (Category.items demoTodo) /\ Item.completed i = negb true.
Proof.
  apply (proj2 (bulk_delete_by_status asciiLower demoPurge
                  (Filter.mk (Some "À FAIRE") (Some true)) "À FAIRE" demoState
                  eq_refl eq_refl) true [demoSource] demoTodo [demoDest]).
  - reflexivity.
  - reflexivity.
  - split; [reflexivity|]. intros y [<- | []]. unfold ciEq. cbv. discriminate.
Defined.

Lemma merge_into_itself_deletes_witness :
  distinct (categoryIds (categories demoState)) = true /\
  exists s1 before after,
    applyResultFrom asciiLower demoState demoSelfMerge demoReadings
      (handleToggleItem "cat-2" "item-3" demoState) = Some s1 /\
    categories demoState = before ++ demoSource :: after /\
    categories s1 = before ++ after /\
    activeCategoryId s1
    = activeCategoryId (handleToggleItem "cat-2" "item-3" demoState).
Proof.
  split; [reflexivity|].
  apply (merge_into_itself_deletes asciiLower demoSelfMerge
           (CategoryDetails.mk None None None (Some "ACHATS") (Some "achats"))
           "ACHATS" "achats" demoSource demoReadings demoState).
  - reflexivity.
  - reflexivity.
  - reflexivity.
  - reflexivity.
  - reflexivity.
  - apply resolvesTo_find. reflexivity.
  - apply resolvesTo_find. reflexivity.
Defined.


Lemma update_keeps_the_shape_witness :
  exists s1,
    applyResultFrom asciiLower demoState demoUpdate demoReadings
      (handleAddItem "cat-1" "Beurre" None 1793000000700 demoState) = Some s1 /\
    Category.items (hd demoDest (categories s1))
    = [Item.with_completed true demoLait; demoPain] /\
    map (fun c => (Category.id c, Category.name c, Category.icon c, itemIds c))
        (categories s1)
    = map (fun c => (Category.id c, Category.name c, Category.icon c, itemIds c))
          (categories demoState) /\
    activeCategoryId s1 = Some "cat-1".
Proof.
  eexists. split; [reflexivity|]. split; [reflexivity|].
  apply (update_keeps_the_shape asciiLower demoUpdate demoReadings demoState
           (handleAddItem "cat-1" "Beurre" None 1793000000700 demoState)).
  - reflexivity.
  - reflexivity.
Defined.

Lemma unhandled_action_stores_sent_categories_witness :
  demoParse "<chat reply>" = Some demoChat /\
  exists s1,
    afterAwait asciiLower noTrim noTrim demoParse demoState
      (Answer (Some "<chat reply>")) demoReadings
      (beforeAwait noTrim "que contient la liste" demoReadings demoState)
    = Some s1 /\
    categories s1 = categories demoState /\
    activeCategoryId s1 = Some "cat-1" /\
    undoAction s1 = None /\
    messages s1
    = [userMessageOf "que contient la liste" demoReadings;
       aiMessageOf demoChat demoReadings].
Proof.
  split; [reflexivity|].
  destruct (unhandled_action_stores_sent_categories asciiLower noTrim noTrim
              demoParse "<chat reply>" demoChat demoReadings demoState
              (beforeAwait noTrim "que contient la liste" demoReadings demoState)
              eq_refl eq_refl)
    as (s1 & E & Hc & _ & Ha & _ & _ & _ & Hu & _ & Hm).
  exists s1. split; [exact E|]. split; [exact Hc|]. split; [exact Ha|].
  split; [exact Hu | exact Hm].
Defined.

(** The panel of 'Achats' after an [add] reply has pushed 'Oeufs' onto the
    array it was rendered with: the same array object and an empty search
    box, so the list shown is the one computed before the reply. *)
Lemma search_shows_matching_items_witness :
  memoValue (filteredItems asciiLower None 7 demoSource "") = [demoLait; demoPain] /\
  filteredItems asciiLower (Some (filteredItems asciiLower None 7 demoSource "")) 7
    (Category.with_items
       [demoLait; demoPain;
        Item.mk "item-1793000001400-0.25" "Oeufs" false None None (Some "ACHATS") None]
       demoSource) ""
  = filteredItems asciiLower None 7 demoSource "".
Proof.
  split.
  - apply (proj1 (search_shows_matching_items asciiLower demoSource 7 "") None).
    + discriminate.
    + reflexivity.
    + reflexivity.
  - apply (proj2 (search_shows_matching_items asciiLower
                    (Category.with_items
                       [demoLait; demoPain;
                        Item.mk "item-1793000001400-0.25" "Oeufs" false None None
                                (Some "ACHATS") None]
                       demoSource) 7 "")).
    reflexivity.
Defined.

Lemma add_click_appends_trimmed_witness :
  distinct (categoryIds (categories demoState)) = true /\
  noTrim (newItemContent demoPanel) <> "" /\
  exists item : Item.t,
    fst (handleAddClick noTrim demoSource 1793000003000 demoPanel demoState)
    = mkPanelState "" "" "pain" false /\
    categories (snd (handleAddClick noTrim demoSource 1793000003000 demoPanel demoState))
    = [] ++ Category.with_items (Category.items demoSource ++ [item]) demoSource
      :: [demoTodo; demoDest] /\
    undoAction (snd (handleAddClick noTrim demoSource 1793000003000 demoPanel demoState))
    = Some (ITEM_ADD "cat-1" (Item.id item)) /\
    Item.content item = "Beurre" /\
    Item.completed item = false /\
    Item.notes item = None /\
    Item.dueDate item = None.
Proof.
  split; [reflexivity|]. split; [discriminate|].
  apply (add_click_appends_trimmed noTrim demoSource 1793000003000 demoPanel
           demoState [] [demoTodo; demoDest]).
  - reflexivity.
  - reflexivity.
  - discriminate.
Defined.
